(** * M4AWriter: the kaid atom writer of the karaoke container engine

    A shallow embedding of [src/utils/m4aWriter.js].  Buffers are lists of
    bytes addressed by integer offsets, JavaScript numbers that hold sizes and
    offsets are integers with the rounding of the 64-bit path written out,
    exceptions are an explicit result type, and the file system is a finite
    map from paths to contents together with the log of operations issued. *)

From Stdlib Require Import ZArith List Lia Bool.
From Stdlib Require Import Strings.String Strings.Ascii Strings.Byte.
From Stdlib Require Import Numbers.Cyclic.Int63.Uint63 Floats.PrimFloat.
From stdpp Require Import base list strings gmap.

Local Open Scope Z_scope.
#[local] Set Warnings "-register-all".
#[local] Set Warnings "-inexact-float".

(** ** Exceptions *)

(** The errors the writer can raise or receive.  [RangeError] stands for the
    [ERR_OUT_OF_RANGE] family raised by the Buffer accessors (an offset
    outside the buffer, a value outside the integer range of the field). *)
Inductive js_error : Type :=
  | RangeError
  | TypeError
  | ENOENT
  | Error (message : string).

Definition message (e : js_error) : string :=
  match e with
  | RangeError => "out of range"
  | TypeError => "type error"
  | ENOENT => "no such file or directory"
  | Error m => m
  end.

Inductive result (A : Type) : Type :=
  | Ok (a : A)
  | Throw (e : js_error).
Arguments Ok {A} a.
Arguments Throw {A} e.

#[global] Instance result_ret : MRet result := fun A a => Ok a.

#[global] Instance result_bind : MBind result := fun A B k r =>
  match r with
  | Ok a => k a
  | Throw e => Throw e
  end.

(** ** Bytes and buffers *)

Definition Buffer : Type := list byte.

Definition byte_to_Z (b : byte) : Z := Z.of_N (Byte.to_N b).

Definition byte_of_Z (z : Z) : byte :=
  match Byte.of_N (Z.to_N (z mod 256)) with
  | Some b => b
  | None => x00
  end.

#[global] Instance byte_eq_decision : EqDecision byte := Byte.byte_eq_dec.

(** [buffer.length] *)
Definition blen (buffer : Buffer) : Z := Z.of_nat (length buffer).

(** [buffer[i]]: [None] is JavaScript's [undefined]. *)
Definition at_index (buffer : Buffer) (i : Z) : option byte :=
  if i <? 0 then None else buffer !! Z.to_nat i.

Definition at_or_zero (buffer : Buffer) (i : Z) : Z :=
  match at_index buffer i with
  | Some b => byte_to_Z b
  | None => 0
  end.

(** Overwrite the bytes of [buffer] from [offset] on with [bytes]; callers
    have checked that the range lies inside the buffer. *)
Definition overwrite (buffer : Buffer) (offset : Z) (bytes : list byte) : Buffer :=
  take (Z.to_nat offset) buffer ++ bytes
    ++ drop (Z.to_nat offset + length bytes)%nat buffer.

(** [Buffer.alloc(n)]: [n] zero bytes. *)
Definition alloc (n : Z) : Buffer := replicate (Z.to_nat n) x00.

(** Big-endian digits of an unsigned integer, [n] bytes. *)
Fixpoint be_bytes (n : nat) (v : Z) : list byte :=
  match n with
  | O => []
  | S n' => byte_of_Z (v / 2 ^ (8 * Z.of_nat n')) :: be_bytes n' v
  end.

Fixpoint be_value (bs : list byte) : Z :=
  match bs with
  | [] => 0
  | b :: bs' => byte_to_Z b * 2 ^ (8 * Z.of_nat (length bs')) + be_value bs'
  end.

(** [buffer.readUInt32BE(offset)]: Node reads [this[offset]] and
    [this[offset + 3]] and raises a bounds error when either is undefined. *)
Definition readUInt32BE (buffer : Buffer) (offset : Z) : result Z :=
  match at_index buffer offset, at_index buffer (offset + 3) with
  | Some first, Some last =>
      Ok (byte_to_Z first * 2 ^ 24 + at_or_zero buffer (offset + 1) * 2 ^ 16
          + at_or_zero buffer (offset + 2) * 2 ^ 8 + byte_to_Z last)
  | _, _ => Throw RangeError
  end.

(** [buffer.writeUInt32BE(value, offset)]: the value is checked against
    [0 .. 2^32 - 1] first, then the offset against the buffer. *)
Definition writeUInt32BE (buffer : Buffer) (value offset : Z) : result Buffer :=
  if (value <? 0) || (2 ^ 32 - 1 <? value) then Throw RangeError
  else match at_index buffer offset, at_index buffer (offset + 3) with
       | Some _, Some _ => Ok (overwrite buffer offset (be_bytes 4 value))
       | _, _ => Throw RangeError
       end.

(** [buffer.readBigUInt64BE(offset)], an exact 64-bit integer. *)
Definition readBigUInt64BE (buffer : Buffer) (offset : Z) : result Z :=
  match at_index buffer offset, at_index buffer (offset + 7) with
  | Some _, Some _ =>
      Ok (be_value (take 8 (drop (Z.to_nat offset) buffer)))
  | _, _ => Throw RangeError
  end.

(** [buffer.writeBigUInt64BE(value, offset)] *)
Definition writeBigUInt64BE (buffer : Buffer) (value offset : Z) : result Buffer :=
  if (value <? 0) || (2 ^ 64 - 1 <? value) then Throw RangeError
  else match at_index buffer offset, at_index buffer (offset + 7) with
       | Some _, Some _ => Ok (overwrite buffer offset (be_bytes 8 value))
       | _, _ => Throw RangeError
       end.

(** [buffer.slice(start, end)]: negative indices count from the end, both
    bounds are clamped to the buffer, an empty range gives an empty view. *)
Definition adjustOffset (offset length : Z) : Z :=
  if offset =? 0 then 0
  else if offset <? 0 then (if 0 <? offset + length then offset + length else 0)
  else if offset <? length then offset
  else length.

Definition slice (buffer : Buffer) (start : Z) (end_ : option Z) : Buffer :=
  let srcLength := blen buffer in
  let start := adjustOffset start srcLength in
  let end_ := match end_ with
              | Some e => adjustOffset e srcLength
              | None => srcLength
              end in
  let newLength := if start <? end_ then end_ - start else 0 in
  take (Z.to_nat newLength) (drop (Z.to_nat start) buffer).

(** The bytes [buffer.toString('utf8', start, end)] decodes: [start] below
    zero counts as zero, [end] is clamped to the buffer. *)
Definition toString_range (buffer : Buffer) (start end_ : Z) : list byte :=
  let start := Z.max 0 start in
  let end_ := Z.min end_ (blen buffer) in
  if end_ <=? start then []
  else take (Z.to_nat (end_ - start)) (drop (Z.to_nat start) buffer).

(** ** JavaScript strings and their UTF-8 encoding *)

(** A JavaScript string is a sequence of UTF-16 code units. *)
Definition js_string : Type := list Z.

Definition code_unit (u : Z) : Prop := 0 <= u < 65536.

(** An ASCII literal of the source as a JavaScript string. *)
Definition lit (s : string) : js_string := map byte_to_Z (list_byte_of_string s).

Definition is_high_surrogate (u : Z) : bool := (55296 <=? u) && (u <=? 56319).
Definition is_low_surrogate (u : Z) : bool := (56320 <=? u) && (u <=? 57343).

(** UTF-8 bytes of one code point. *)
Definition utf8_code_point (c : Z) : list byte :=
  if c <? 128 then [byte_of_Z c]
  else if c <? 2048 then [byte_of_Z (192 + c / 64); byte_of_Z (128 + c mod 64)]
  else if c <? 65536 then
    [byte_of_Z (224 + c / 4096); byte_of_Z (128 + (c / 64) mod 64);
     byte_of_Z (128 + c mod 64)]
  else
    [byte_of_Z (240 + c / 262144); byte_of_Z (128 + (c / 4096) mod 64);
     byte_of_Z (128 + (c / 64) mod 64); byte_of_Z (128 + c mod 64)].

(** U+FFFD, which replaces a surrogate that has no partner. *)
Definition replacement : list byte := utf8_code_point 65533.

(** The encoded characters of a string, one chunk per code point: a
    surrogate pair is one code point, a lone surrogate is replaced. *)
Fixpoint utf8_chunks (s : js_string) : list (list byte) :=
  match s with
  | [] => []
  | u :: rest =>
      if is_high_surrogate u then
        match rest with
        | v :: rest' =>
            if is_low_surrogate v
            then utf8_code_point (65536 + (u - 55296) * 1024 + (v - 56320))
                   :: utf8_chunks rest'
            else replacement :: utf8_chunks rest
        | [] => [replacement]
        end
      else if is_low_surrogate u then replacement :: utf8_chunks rest
      else utf8_code_point u :: utf8_chunks rest
  end.

(** [Buffer.from(s, 'utf8')] *)
Definition Buffer_from_utf8 (s : js_string) : Buffer := concat (utf8_chunks s).

(** The whole characters of [chunks] that fit in [room] bytes. *)
Fixpoint fitting (chunks : list (list byte)) (room : Z) : list byte :=
  match chunks with
  | [] => []
  | c :: rest =>
      if Z.of_nat (length c) <=? room
      then c ++ fitting rest (room - Z.of_nat (length c))
      else []
  end.

(** [buffer.write(s, offset, length, 'utf8')]: writes the encoded characters
    of [s] that fit in [length] bytes and in the buffer behind [offset]. *)
Definition write_utf8 (buffer : Buffer) (s : js_string) (offset length : Z) : Buffer :=
  let room := Z.min length (blen buffer - offset) in
  overwrite buffer offset (fitting (utf8_chunks s) room).

(** Well-formed UTF-8, byte ranges as in the Unicode standard (table 3-7). *)
Definition in_range (lo hi : Z) (b : byte) : bool :=
  (lo <=? byte_to_Z b) && (byte_to_Z b <=? hi).

Definition cont (b : byte) : bool := in_range 128 191 b.

Fixpoint valid_utf8 (bs : list byte) : bool :=
  match bs with
  | [] => true
  | b1 :: r1 =>
      if in_range 0 127 b1 then valid_utf8 r1
      else match r1 with
      | [] => false
      | b2 :: r2 =>
          if in_range 194 223 b1 then cont b2 && valid_utf8 r2
          else match r2 with
          | [] => false
          | b3 :: r3 =>
              if in_range 224 239 b1 then
                (if in_range 224 224 b1 then in_range 160 191 b2
                 else if in_range 237 237 b1 then in_range 128 159 b2
                 else cont b2)
                && cont b3 && valid_utf8 r3
              else match r3 with
              | [] => false
              | b4 :: r4 =>
                  in_range 240 244 b1
                  && (if in_range 240 240 b1 then in_range 144 191 b2
                      else if in_range 244 244 b1 then in_range 128 143 b2
                      else cont b2)
                  && cont b3 && cont b4 && valid_utf8 r4
              end
          end
      end
  end.

(** ** MP4 atoms *)

(** An entry of the list [parseMP4Atoms] returns.  [type] holds the four tag
    bytes: the source decodes them as UTF-8 and only ever compares the result
    with ASCII literals, and a decoded tag equals an ASCII literal exactly
    when the bytes are the literal's bytes. *)
Record atom : Type := Atom {
  type : list byte;
  offset : Z;
  size : Z;
  dataOffset : Z
}.

Definition tag (s : string) : list byte := list_byte_of_string s.

Definition type_is (s : string) (a : atom) : bool := bool_decide (type a = tag s).

(** The body of the [while] loop of [parseMP4Atoms], from position [pos]
    with [atoms] collected so far; [None] when [fuel] iterations were not
    enough. *)
Fixpoint parse_loop (fuel : nat) (buffer : Buffer) (endOffset pos : Z)
    (atoms : list atom) : option (result (list atom)) :=
  match fuel with
  | O => None
  | S fuel' =>
      if pos <? endOffset - 8 then
        match readUInt32BE buffer pos with
        | Throw e => Some (Throw e)
        | Ok size =>
            let type := toString_range buffer (pos + 4) (pos + 8) in
            if (size =? 0) || (blen buffer - pos <? size) then Some (Ok atoms)
            else parse_loop fuel' buffer endOffset (pos + size)
                   (atoms ++ [Atom type pos size (pos + 8)])
        end
      else Some (Ok atoms)
  end.

(** [endOffset = maxLength ? offset + maxLength : buffer.length]: a missing
    (null) or zero [maxLength] is falsy. *)
Definition parse_end (buffer : Buffer) (offset : Z) (maxLength : option Z) : Z :=
  match maxLength with
  | Some m => if m =? 0 then blen buffer else offset + m
  | None => blen buffer
  end.

(** Iterations that always suffice: every iteration but the last moves
    [pos] forward by at least one byte and stays below [endOffset - 8]. *)
Definition parse_fuel (endOffset offset : Z) : nat := S (Z.to_nat (endOffset - offset)).

Definition parseMP4Atoms_fuel (fuel : nat) (buffer : Buffer) (offset : Z)
    (maxLength : option Z) : option (result (list atom)) :=
  parse_loop fuel buffer (parse_end buffer offset maxLength) offset [].

(** [M4AWriter.parseMP4Atoms(buffer, offset = 0, maxLength = null)] *)
Definition parseMP4Atoms (buffer : Buffer) (offset : Z) (maxLength : option Z)
    : result (list atom) :=
  match parseMP4Atoms_fuel (parse_fuel (parse_end buffer offset maxLength) offset)
          buffer offset maxLength with
  | Some r => r
  | None => Ok []
  end.

(** [M4AWriter.createAtom(type, data)] *)
Definition createAtom (type : js_string) (data : Buffer) : result Buffer :=
  let size := 8 + blen data in
  let header := alloc 8 in
  header ← writeUInt32BE header size 0;
  let header := write_utf8 header type 4 4 in
  Ok (header ++ data).

(** [M4AWriter.createKaidAtom(kaidJson)] *)
Definition createKaidAtom (kaidJson : js_string) : result Buffer :=
  let namespace := lit "com.stems" in
  let name := lit "kaid" in
  let jsonData := Buffer_from_utf8 kaidJson in
  let meanData := alloc (4 + Z.of_nat (length namespace)) in
  meanData ← writeUInt32BE meanData 0 0;
  let meanData := write_utf8 meanData namespace 4 (Z.of_nat (length namespace)) in
  meanAtom ← createAtom (lit "mean") meanData;
  let nameData := alloc (4 + Z.of_nat (length name)) in
  nameData ← writeUInt32BE nameData 0 0;
  let nameData := write_utf8 nameData name 4 (Z.of_nat (length name)) in
  nameAtom ← createAtom (lit "name") nameData;
  let dataHeader := alloc 8 in
  dataHeader ← writeUInt32BE dataHeader 1 0;
  dataHeader ← writeUInt32BE dataHeader 0 4;
  dataAtom ← createAtom (lit "data") (dataHeader ++ jsonData);
  let freeformData := meanAtom ++ nameAtom ++ dataAtom in
  createAtom (lit "----") freeformData.

(** [M4AWriter.createMetaIlstKaidStructure(kaidAtomData)] *)
Definition createMetaIlstKaidStructure (kaidAtomData : Buffer) : result Buffer :=
  let ilstData := kaidAtomData in
  ilst ← createAtom (lit "ilst") ilstData;
  let metaVersion := alloc 4 in
  metaVersion ← writeUInt32BE metaVersion 0 0;
  let hdlrData := map byte_of_Z
    [0; 0; 0; 0; 0; 0; 0; 0; 109; 100; 105; 114; 97; 112; 112; 108;
     0; 0; 0; 0; 0; 0; 0; 0; 0] in
  hdlr ← createAtom (lit "hdlr") hdlrData;
  Ok (metaVersion ++ hdlr ++ ilst).

(** [atoms.find((a) => a.type === t)] *)
Definition find_type (t : string) (atoms : list atom) : option atom :=
  List.find (type_is t) atoms.

(** [M4AWriter.updateMetaWithKaid(fileBuffer, metaAtom, kaidAtomData)] *)
Definition updateMetaWithKaid (fileBuffer : Buffer) (metaAtom : atom)
    (kaidAtomData : Buffer) : result Buffer :=
  metaChildren ← parseMP4Atoms fileBuffer (dataOffset metaAtom + 4)
                   (Some (size metaAtom - 12));
  match find_type "ilst" metaChildren with
  | None =>
      let beforeIlst := slice fileBuffer (dataOffset metaAtom)
                          (Some (dataOffset metaAtom + size metaAtom - 8)) in
      ilst ← createAtom (lit "ilst") kaidAtomData;
      Ok (beforeIlst ++ ilst)
  | Some ilstAtom =>
      ilstChildren ← parseMP4Atoms fileBuffer (dataOffset ilstAtom)
                       (Some (size ilstAtom - 8));
      match find_type "----" ilstChildren with
      | Some existingKaid =>
          let beforeKaid := slice fileBuffer (dataOffset ilstAtom)
                              (Some (offset existingKaid)) in
          let afterKaid := slice fileBuffer (offset existingKaid + size existingKaid)
                             (Some (offset ilstAtom + size ilstAtom)) in
          let newIlstData := beforeKaid ++ kaidAtomData ++ afterKaid in
          newIlst ← createAtom (lit "ilst") newIlstData;
          let beforeIlst := slice fileBuffer (dataOffset metaAtom)
                              (Some (offset ilstAtom)) in
          let afterIlst := slice fileBuffer (offset ilstAtom + size ilstAtom)
                             (Some (offset metaAtom + size metaAtom)) in
          Ok (beforeIlst ++ newIlst ++ afterIlst)
      | None =>
          let beforeNewKaid := slice fileBuffer (dataOffset ilstAtom)
                                 (Some (dataOffset ilstAtom + size ilstAtom - 8)) in
          let newIlstData := beforeNewKaid ++ kaidAtomData in
          newIlst ← createAtom (lit "ilst") newIlstData;
          let beforeIlst := slice fileBuffer (dataOffset metaAtom)
                              (Some (offset ilstAtom)) in
          let afterIlst := slice fileBuffer (offset ilstAtom + size ilstAtom)
                             (Some (offset metaAtom + size metaAtom)) in
          Ok (beforeIlst ++ newIlst ++ afterIlst)
      end
  end.

(** ** Chunk offset tables *)

(** The integer a JavaScript number holds after rounding [z] to a double:
    53 significant bits, round to nearest, ties to even.  This is
    [Number(bigint)], and the sum of two integer-valued doubles is the
    rounding of their exact sum. *)
Definition roundToDouble (z : Z) : Z :=
  let a := Z.abs z in
  let e := Z.log2 a - 52 in
  if e <=? 0 then z
  else
    let q := a / 2 ^ e in
    let r := a mod 2 ^ e in
    let half := 2 ^ (e - 1) in
    let q' := if r <? half then q
              else if half <? r then q + 1
              else if Z.even q then q else q + 1 in
    Z.sgn z * (q' * 2 ^ e).

(** [a + b] on numbers *)
Definition js_add (a b : Z) : Z := roundToDouble (a + b).

(** What [updateChunkOffsets] mutates: the moov buffer and its three
    counters (which it only logs). *)
Record uco_state : Type := UcoState {
  buf : Buffer;
  stcoCount : Z;
  co64Count : Z;
  totalUpdated : Z
}.

Definition set_buf (st : uco_state) (b : Buffer) : uco_state :=
  UcoState b (stcoCount st) (co64Count st) (totalUpdated st).
Definition incr_totalUpdated (st : uco_state) : uco_state :=
  UcoState (buf st) (stcoCount st) (co64Count st) (totalUpdated st + 1).
Definition incr_stcoCount (st : uco_state) : uco_state :=
  UcoState (buf st) (stcoCount st + 1) (co64Count st) (totalUpdated st).
Definition incr_co64Count (st : uco_state) : uco_state :=
  UcoState (buf st) (stcoCount st) (co64Count st + 1) (totalUpdated st).

(** How a block ends: normally, or by an exception that the enclosing
    [catch] receives.  The state reached so far is kept either way, since
    the buffer is mutated in place. *)
Inductive completion : Type :=
  | Normal
  | Abrupt (e : js_error).

(** The [for] loop over the entries of an stco table at [pos]: [n]
    iterations remain, [i] is the loop index. *)
Fixpoint stco_entries (n : nat) (i pos sizeDelta shiftThreshold : Z)
    (st : uco_state) : uco_state * completion :=
  match n with
  | O => (st, Normal)
  | S n' =>
      let offsetPos := pos + 16 + i * 4 in
      match readUInt32BE (buf st) offsetPos with
      | Throw e => (st, Abrupt e)
      | Ok chunkOffset =>
          if shiftThreshold <=? chunkOffset then
            let newOffset := js_add chunkOffset sizeDelta in
            match writeUInt32BE (buf st) newOffset offsetPos with
            | Throw e => (st, Abrupt e)
            | Ok b =>
                stco_entries n' (i + 1) pos sizeDelta shiftThreshold
                  (incr_totalUpdated (set_buf st b))
            end
          else stco_entries n' (i + 1) pos sizeDelta shiftThreshold st
      end
  end.

(** The [for] loop over the entries of a co64 table at [pos]. *)
Fixpoint co64_entries (n : nat) (i pos sizeDelta shiftThreshold : Z)
    (st : uco_state) : uco_state * completion :=
  match n with
  | O => (st, Normal)
  | S n' =>
      let offsetPos := pos + 16 + i * 8 in
      match readBigUInt64BE (buf st) offsetPos with
      | Throw e => (st, Abrupt e)
      | Ok big =>
          let chunkOffset := roundToDouble big in
          if shiftThreshold <=? chunkOffset then
            let newOffset := js_add chunkOffset sizeDelta in
            match writeBigUInt64BE (buf st) newOffset offsetPos with
            | Throw e => (st, Abrupt e)
            | Ok b =>
                co64_entries n' (i + 1) pos sizeDelta shiftThreshold
                  (incr_totalUpdated (set_buf st b))
            end
          else co64_entries n' (i + 1) pos sizeDelta shiftThreshold st
      end
  end.

Definition is_container (atype : list byte) : bool :=
  bool_decide (atype ∈ [tag "trak"; tag "mdia"; tag "minf"; tag "stbl"; tag "moov"]).

(** The closure [searchAtoms(buffer, start, end)] of [updateChunkOffsets];
    the buffer is the one in the state.  Its [while] loop at position [pos]
    is the call with [start = pos], so one function serves for both.  Every
    statement that can raise sits in the [try] block, whose [catch] moves
    eight bytes on.  [None] when [fuel] nested iterations were not enough. *)
Fixpoint searchAtoms (fuel : nat) (sizeDelta shiftThreshold : Z)
    (st : uco_state) (pos end_ : Z) : option uco_state :=
  match fuel with
  | O => None
  | S fuel' =>
      if (pos <? end_ - 8) && (pos <? blen (buf st) - 8) then
        match readUInt32BE (buf st) pos with
        | Throw _ => searchAtoms fuel' sizeDelta shiftThreshold st (pos + 8) end_
        | Ok size =>
            if (size <? 8) || (end_ - pos <? size) then
              searchAtoms fuel' sizeDelta shiftThreshold st (pos + 8) end_
            else
              let atype := toString_range (buf st) (pos + 4) (pos + 8) in
              if bool_decide (atype = tag "stco") then
                let st := incr_stcoCount st in
                match readUInt32BE (buf st) (pos + 12) with
                | Throw _ =>
                    searchAtoms fuel' sizeDelta shiftThreshold st (pos + 8) end_
                | Ok entryCount =>
                    match stco_entries (Z.to_nat entryCount) 0 pos sizeDelta
                            shiftThreshold st with
                    | (st', Normal) =>
                        searchAtoms fuel' sizeDelta shiftThreshold st' (pos + size) end_
                    | (st', Abrupt _) =>
                        searchAtoms fuel' sizeDelta shiftThreshold st' (pos + 8) end_
                    end
                end
              else if bool_decide (atype = tag "co64") then
                let st := incr_co64Count st in
                match readUInt32BE (buf st) (pos + 12) with
                | Throw _ =>
                    searchAtoms fuel' sizeDelta shiftThreshold st (pos + 8) end_
                | Ok entryCount =>
                    match co64_entries (Z.to_nat entryCount) 0 pos sizeDelta
                            shiftThreshold st with
                    | (st', Normal) =>
                        searchAtoms fuel' sizeDelta shiftThreshold st' (pos + size) end_
                    | (st', Abrupt _) =>
                        searchAtoms fuel' sizeDelta shiftThreshold st' (pos + 8) end_
                    end
                end
              else if is_container atype then
                match searchAtoms fuel' sizeDelta shiftThreshold st (pos + 8) (pos + size) with
                | Some st' =>
                    searchAtoms fuel' sizeDelta shiftThreshold st' (pos + size) end_
                | None => None
                end
              else searchAtoms fuel' sizeDelta shiftThreshold st (pos + size) end_
        end
      else Some st
  end.

(** Nested iterations that always suffice for the range [start .. end]. *)
Definition search_fuel (start end_ : Z) : nat := S (Z.to_nat (end_ - start)).

(** [M4AWriter.updateChunkOffsets(moovBuffer, sizeDelta, shiftThreshold)]:
    the buffer as mutated, with the counters of the closing log line. *)
Definition updateChunkOffsets (moovBuffer : Buffer) (sizeDelta shiftThreshold : Z)
    : uco_state :=
  let st := UcoState moovBuffer 0 0 0 in
  match searchAtoms (search_fuel 0 (blen moovBuffer)) sizeDelta shiftThreshold
          st 0 (blen moovBuffer) with
  | Some st' => st'
  | None => st
  end.

(** ** The file system *)

(** The calls the writer makes on [fs.promises], in the order it makes them. *)
Inductive fs_op : Type :=
  | ReadFile (path : string)
  | WriteFile (path : string) (data : Buffer).

Record world : Type := World {
  files : gmap string Buffer;
  log : list fs_op
}.

(** [fs.promises.readFile(path)] *)
Definition readFile (path : string) (w : world) : result Buffer * world :=
  let w' := World (files w) (log w ++ [ReadFile path]) in
  match files w !! path with
  | Some data => (Ok data, w')
  | None => (Throw ENOENT, w')
  end.

(** [fs.promises.writeFile(path, data)] *)
Definition writeFile (path : string) (data : Buffer) (w : world) : result unit * world :=
  (Ok tt, World (<[path := data]> (files w)) (log w ++ [WriteFile path data])).

(** ** injectKaidAtom *)

(** Lines 82-147 of [injectKaidAtom]: the payload of the new moov box. *)
Definition newMoovData_of (fileBuffer : Buffer) (moovAtom : atom)
    (kaidAtomData : Buffer) : result Buffer :=
  moovChildren ← parseMP4Atoms fileBuffer (dataOffset moovAtom)
                   (Some (size moovAtom - 8));
  match find_type "udta" moovChildren with
  | None =>
      metaIlstKaid ← createMetaIlstKaidStructure kaidAtomData;
      udtaData ← createAtom (lit "udta") metaIlstKaid;
      let moovDataEnd := dataOffset moovAtom + size moovAtom - 8 in
      let beforeUdta := slice fileBuffer (dataOffset moovAtom) (Some moovDataEnd) in
      Ok (beforeUdta ++ udtaData)
  | Some udtaAtom =>
      udtaChildren ← parseMP4Atoms fileBuffer (dataOffset udtaAtom)
                       (Some (size udtaAtom - 8));
      match find_type "meta" udtaChildren with
      | None =>
          metaIlstKaid ← createMetaIlstKaidStructure kaidAtomData;
          let beforeMeta := slice fileBuffer (dataOffset udtaAtom)
                              (Some (offset udtaAtom + size udtaAtom)) in
          let newUdtaData := beforeMeta ++ metaIlstKaid in
          newUdta ← createAtom (lit "udta") newUdtaData;
          let beforeUdta := slice fileBuffer (dataOffset moovAtom)
                              (Some (offset udtaAtom)) in
          let afterUdta := slice fileBuffer (offset udtaAtom + size udtaAtom)
                             (Some (offset moovAtom + size moovAtom)) in
          Ok (beforeUdta ++ newUdta ++ afterUdta)
      | Some metaAtom =>
          newMetaData ← updateMetaWithKaid fileBuffer metaAtom kaidAtomData;
          newMeta ← createAtom (lit "meta") newMetaData;
          let beforeMeta := slice fileBuffer (dataOffset udtaAtom)
                              (Some (offset metaAtom)) in
          let afterMeta := slice fileBuffer (offset metaAtom + size metaAtom)
                             (Some (offset udtaAtom + size udtaAtom)) in
          let newUdtaData := beforeMeta ++ newMeta ++ afterMeta in
          newUdta ← createAtom (lit "udta") newUdtaData;
          let beforeUdta := slice fileBuffer (dataOffset moovAtom)
                              (Some (offset udtaAtom)) in
          let afterUdta := slice fileBuffer (offset udtaAtom + size udtaAtom)
                             (Some (offset moovAtom + size moovAtom)) in
          Ok (beforeUdta ++ newUdta ++ afterUdta)
      end
  end.

(** Lines 152-168: the size delta and the chunk offset update, which
    mutates [newMoov] in place. *)
Definition fix_offsets (moovAtom : atom) (newMoov : Buffer) : Buffer :=
  let oldMoovSize := size moovAtom in
  let newMoovSize := blen newMoov in
  let sizeDelta := newMoovSize - oldMoovSize in
  if negb (sizeDelta =? 0) then
    let originalMoovEnd := offset moovAtom + oldMoovSize in
    buf (updateChunkOffsets newMoov sizeDelta originalMoovEnd)
  else newMoov.

(** Lines 62-174 without the file access: the bytes of the new file. *)
Definition newFileBuffer_of (fileBuffer : Buffer) (kaidJson : js_string)
    : result Buffer :=
  atoms ← parseMP4Atoms fileBuffer 0 None;
  match find_type "moov" atoms with
  | None => Throw (Error "No moov atom found in M4A file")
  | Some moovAtom =>
      kaidAtomData ← createKaidAtom kaidJson;
      newMoovData ← newMoovData_of fileBuffer moovAtom kaidAtomData;
      newMoov ← createAtom (lit "moov") newMoovData;
      let newMoov := fix_offsets moovAtom newMoov in
      let beforeMoov := slice fileBuffer 0 (Some (offset moovAtom)) in
      let afterMoov := slice fileBuffer (offset moovAtom + size moovAtom) None in
      Ok (beforeMoov ++ newMoov ++ afterMoov)
  end.

(** The [catch] of [injectKaidAtom] wraps whatever was raised. *)
Definition inject_failed (e : js_error) : js_error :=
  Error ("Failed to inject kaid atom: " ++ message e).

(** [M4AWriter.injectKaidAtom(inputPath, outputPath, kaidJson)] *)
Definition injectKaidAtom (inputPath outputPath : string) (kaidJson : js_string)
    (w : world) : result unit * world :=
  match readFile inputPath w with
  | (Throw e, w1) => (Throw (inject_failed e), w1)
  | (Ok fileBuffer, w1) =>
      match newFileBuffer_of fileBuffer kaidJson with
      | Throw e => (Throw (inject_failed e), w1)
      | Ok newFileBuffer =>
          match writeFile outputPath newFileBuffer w1 with
          | (Throw e, w2) => (Throw (inject_failed e), w2)
          | (Ok _, w2) => (Ok tt, w2)
          end
      end
  end.

(** ** JavaScript values *)

(** The values song data is made of.  Numbers are binary64 floats; objects
    keep their properties in insertion order, which is the order
    [JSON.stringify] writes them in. *)
Inductive jsval : Type :=
  | JUndefined
  | JNull
  | JBool (b : bool)
  | JNum (n : float)
  | JStr (s : js_string)
  | JArr (elems : list jsval)
  | JObj (props : list (js_string * jsval)).

Definition num_of_Z (z : Z) : float := PrimFloat.of_uint63 (Uint63.of_Z z).

(** ToBoolean *)
Definition truthy (v : jsval) : bool :=
  match v with
  | JUndefined | JNull => false
  | JBool b => b
  | JNum n => negb (PrimFloat.is_zero n || PrimFloat.is_nan n)
  | JStr s => negb (bool_decide (s = []))
  | JArr _ | JObj _ => true
  end.

Fixpoint lookup_prop (k : js_string) (props : list (js_string * jsval)) : jsval :=
  match props with
  | [] => JUndefined
  | (k', v) :: rest => if bool_decide (k = k') then v else lookup_prop k rest
  end.

(** [v.k] for the property names the writer reads: a property of
    undefined or null raises, an array or a string has its length, any other
    name is undefined unless an object carries it. *)
Definition get (v : jsval) (k : string) : result jsval :=
  match v with
  | JUndefined | JNull => Throw TypeError
  | JObj props => Ok (lookup_prop (lit k) props)
  | JArr elems =>
      Ok (if bool_decide (k = "length"%string)
          then JNum (num_of_Z (Z.of_nat (length elems))) else JUndefined)
  | JStr s =>
      Ok (if bool_decide (k = "length"%string)
          then JNum (num_of_Z (Z.of_nat (length s))) else JUndefined)
  | JBool _ | JNum _ => Ok JUndefined
  end.

(** [v?.k] *)
Definition get_opt (v : jsval) (k : string) : result jsval :=
  match v with
  | JUndefined | JNull => Ok JUndefined
  | _ => get v k
  end.

(** [a || b] and [a && b] on values already evaluated. *)
Definition js_or (a b : jsval) : jsval := if truthy a then a else b.
Definition js_and (a b : jsval) : jsval := if truthy a then b else a.

(** [...v] in an object literal, for [v] an object or a falsy value (which
    contributes no property); the writer spreads nothing else. *)
Definition spread (v : jsval) : list (js_string * jsval) :=
  match v with
  | JObj props => props
  | _ => []
  end.

(** [v.map((x, index) => f(x, index))]; a receiver that is no array has no
    [map] method. *)
Fixpoint map_index (f : jsval -> Z -> result jsval) (index : Z) (l : list jsval)
    : result (list jsval) :=
  match l with
  | [] => Ok []
  | x :: rest =>
      y ← f x index;
      ys ← map_index f (index + 1) rest;
      Ok (y :: ys)
  end.

Definition js_map (f : jsval -> Z -> result jsval) (v : jsval) : result jsval :=
  match v with
  | JArr elems => elems' ← map_index f 0 elems; Ok (JArr elems')
  | _ => Throw TypeError
  end.

(** The result object of [save]. *)
Record save_result : Type := SaveResult {
  success : bool;
  error : option string
}.

Section Platform.

(** [JSON.stringify] and the part of ToNumber that parses strings and
    converts objects are the platform's. *)
Variable JSON_stringify : jsval -> js_string.
Variable ToNumber_ext : jsval -> float.

Definition ToNumber (v : jsval) : float :=
  match v with
  | JUndefined => PrimFloat.nan
  | JNull => PrimFloat.zero
  | JBool b => if b then PrimFloat.one else PrimFloat.zero
  | JNum n => n
  | _ => ToNumber_ext v
  end.

(** [v > 0] *)
Definition js_gt0 (v : jsval) : bool := PrimFloat.ltb PrimFloat.zero (ToNumber v).

(** One element of [audio.sources]. *)
Definition prepare_source (source : jsval) (index : Z) : result jsval :=
  name ← get source "name";
  filename ← get source "filename";
  trackIndex ← get source "trackIndex";
  Ok (JObj [(lit "id", js_or name filename);
            (lit "role", js_or name filename);
            (lit "track", match trackIndex with
                          | JUndefined => JNum (num_of_Z index)
                          | _ => trackIndex
                          end)]).

(** One element of [lines]. *)
Definition prepare_line (line : jsval) (index : Z) : result jsval :=
  start ← get line "start";
  startTimeSec ← get line "startTimeSec";
  end_ ← get line "end";
  endTimeSec ← get line "endTimeSec";
  text ← get line "text";
  disabled ← get line "disabled";
  Ok (JObj ([(lit "start", js_or (js_or start startTimeSec) (JNum PrimFloat.zero));
             (lit "end", js_or (js_or end_ endTimeSec) (JNum PrimFloat.zero));
             (lit "text", js_or text (JStr []))]
            ++ spread (js_and disabled (JObj [(lit "disabled", JBool true)])))).

(** [M4AWriter.prepareKaidData(songData)] *)
Definition prepareKaidData (songData : jsval) : result jsval :=
  audio ← get songData "audio";
  meta ← get songData "meta";
  lyrics ← get songData "lyrics";
  features ← get songData "features";
  singers ← get songData "singers";
  audio_sources ← get_opt audio "sources";
  sources ← js_map prepare_source (js_or audio_sources (JArr []));
  audio_profile ← get_opt audio "profile";
  meta_profile ← get_opt meta "profile";
  audio_timing ← get_opt audio "timing";
  encoderDelaySamples ← get_opt audio_timing "encoderDelaySamples";
  presets ← get_opt audio "presets";
  offsetSec ← get_opt audio_timing "offsetSec";
  lines ← js_map prepare_line (js_or lyrics (JArr []));
  vocalPitch ← get_opt features "vocalPitch";
  onsets ← get_opt features "onsets";
  tempo ← get_opt features "tempo";
  singers_length ← (if truthy singers then get singers "length" else Ok JUndefined);
  Ok (JObj ([(lit "audio",
               JObj [(lit "sources", sources);
                     (lit "profile",
                       js_or (js_or audio_profile meta_profile) (JStr (lit "STEMS-4")));
                     (lit "encoder_delay_samples",
                       js_or encoderDelaySamples (JNum PrimFloat.zero));
                     (lit "presets", js_or presets (JArr []))]);
             (lit "timing",
               JObj [(lit "offset_sec", js_or offsetSec (JNum PrimFloat.zero))]);
             (lit "lines", lines)]
            ++ spread (js_and vocalPitch (JObj [(lit "vocal_pitch", vocalPitch)]))
            ++ spread (js_and onsets (JObj [(lit "onsets", onsets)]))
            ++ spread (js_and tempo (JObj [(lit "meter", tempo)]))
            ++ spread (js_and singers
                         (js_and (JBool (js_gt0 singers_length))
                            (JObj [(lit "singers", singers)]))))).

(** [M4AWriter.save(songData, outputPath)].  The closing call of [validate]
    only chooses between two log lines: it changes neither a file nor the
    result, and is left out. *)
Definition save (songData : jsval) (outputPath : string) (w : world)
    : save_result * world :=
  match prepareKaidData songData with
  | Throw e => (SaveResult false (Some (message e)), w)
  | Ok kaidData =>
      let kaidJson := JSON_stringify kaidData in
      match injectKaidAtom outputPath outputPath kaidJson w with
      | (Throw e, w') => (SaveResult false (Some (message e)), w')
      | (Ok _, w') => (SaveResult true None, w')
      end
  end.

End Platform.

(** ** Specification-side definitions and fixtures *)

(** The serialised form of a box: 32-bit size, tag, payload. *)
Definition box (t : string) (payload : list byte) : list byte :=
  be_bytes 4 (8 + blen payload) ++ tag t ++ payload.

(** Where a list of consecutive atoms that starts at [offset] ends. *)
Definition atoms_end (start : Z) (atoms : list atom) : Z :=
  match last atoms with
  | Some a => offset a + size a
  | None => start
  end.

(** A 16-byte buffer whose only box declares 100 bytes. *)
Definition oversized_box : Buffer := be_bytes 4 100 ++ tag "moov" ++ alloc 8.

(** A 12-byte ftyp box followed by 5 stray bytes. *)
Definition stray_tail : Buffer := box "ftyp" (tag "M4A ") ++ alloc 5.

(** Atoms that follow one another from [pos] on, each inside the buffer
    and each as its header at its offset reads. *)
Fixpoint chained (buffer : Buffer) (pos : Z) (atoms : list atom) : Prop :=
  match atoms with
  | [] => True
  | a :: rest =>
      offset a = pos /\ dataOffset a = pos + 8 /\ 1 <= size a /\
      0 <= pos /\ pos + size a <= blen buffer /\
      readUInt32BE buffer pos = Ok (size a) /\
      type a = toString_range buffer (pos + 4) (pos + 8) /\
      chained buffer (pos + size a) rest
  end.

(** A sequence of boxes, each a tag with its payload, and its bytes. *)
Definition ser_boxes (bs : list (string * Buffer)) : Buffer :=
  concat (map (fun b => box (fst b) (snd b)) bs).

(** The atoms the boxes [bs] are when the first one starts at [pos]. *)
Fixpoint atoms_at (pos : Z) (bs : list (string * Buffer)) : list atom :=
  match bs with
  | [] => []
  | b :: rest =>
      Atom (tag (fst b)) pos (8 + blen (snd b)) (pos + 8)
        :: atoms_at (pos + (8 + blen (snd b))) rest
  end.

(** A box that fits the 32-bit size field and has a four-byte tag. *)
Definition wf_box (b : string * Buffer) : Prop :=
  length (tag (fst b)) = 4%nat /\ 8 + blen (snd b) <= 2 ^ 32 - 1.

(** A tag of four ASCII characters. *)
Definition ascii_tag (t : string) : Prop :=
  length (tag t) = 4%nat /\ Forall (fun b => byte_to_Z b < 128) (tag t).

(** Three boxes, the second one a bare header. *)
Definition sample_boxes : list (string * Buffer) :=
  [("ftyp"%string, tag "M4A "); ("free"%string, []); ("mdat"%string, tag "audiodata")].

(** The code points UTF-8 encodes: everything up to U+10FFFF but the
    surrogates. *)
Definition scalar_value (c : Z) : Prop := 0 <= c < 55296 \/ 57344 <= c < 1114112.

(** The encoding of a freeform item as section 4.4 of the specification
    words it: a '----' box of three children, 'mean' (flags, namespace),
    'name' (flags, name) and 'data' (type code, locale, value). *)
Definition freeform_item (ns name : string) (type_code locale : Z)
    (value : Buffer) : Buffer :=
  box "----"
    (box "mean" (be_bytes 4 0 ++ tag ns)
     ++ box "name" (be_bytes 4 0 ++ tag name)
     ++ box "data" (be_bytes 4 type_code ++ be_bytes 4 locale ++ value)).

(** What the chunk offset update is to do with one entry, and how many
    entries of a table it is to touch. *)
Definition shift (sizeDelta shiftThreshold o : Z) : Z :=
  if shiftThreshold <=? o then o + sizeDelta else o.

Definition count_from (shiftThreshold : Z) (es : list Z) : Z :=
  Z.of_nat (length (filter (fun o => shiftThreshold <= o) es)).

(** The entries of an stco and of a co64 table as bytes. *)
Definition entries32 (es : list Z) : Buffer := concat (map (be_bytes 4) es).
Definition entries64 (es : list Z) : Buffer := concat (map (be_bytes 8) es).

(** A box tree as the chunk offset search sees it: boxes it steps over,
    the five containers it descends into, and the two kinds of chunk offset
    table with their version/flags word and their entries. *)
Inductive mbox : Type :=
  | Leaf (t : string) (payload : Buffer)
  | Node (t : string) (children : list mbox)
  | Stco (flags : list byte) (entries : list Z)
  | Co64 (flags : list byte) (entries : list Z).

Fixpoint ser (m : mbox) : Buffer :=
  match m with
  | Leaf t payload => box t payload
  | Node t children => box t (concat (map ser children))
  | Stco flags entries =>
      box "stco" (flags ++ be_bytes 4 (Z.of_nat (length entries)) ++ entries32 entries)
  | Co64 flags entries =>
      box "co64" (flags ++ be_bytes 4 (Z.of_nat (length entries)) ++ entries64 entries)
  end.

Definition ser_list (ms : list mbox) : Buffer := concat (map ser ms).

(** The tree with every table entry at or above the threshold moved. *)
Fixpoint shift_box (sizeDelta shiftThreshold : Z) (m : mbox) : mbox :=
  match m with
  | Leaf t payload => Leaf t payload
  | Node t children => Node t (map (shift_box sizeDelta shiftThreshold) children)
  | Stco flags entries => Stco flags (map (shift sizeDelta shiftThreshold) entries)
  | Co64 flags entries => Co64 flags (map (shift sizeDelta shiftThreshold) entries)
  end.

Definition sumZ (l : list Z) : Z := foldr Z.add 0 l.

Fixpoint stco_tables (m : mbox) : Z :=
  match m with
  | Stco _ _ => 1
  | Node _ children => sumZ (map stco_tables children)
  | _ => 0
  end.

Fixpoint co64_tables (m : mbox) : Z :=
  match m with
  | Co64 _ _ => 1
  | Node _ children => sumZ (map co64_tables children)
  | _ => 0
  end.

(** The number of entries at or above the threshold in all tables. *)
Fixpoint entries_from (shiftThreshold : Z) (m : mbox) : Z :=
  match m with
  | Stco _ entries | Co64 _ entries => count_from shiftThreshold entries
  | Node _ children => sumZ (map (entries_from shiftThreshold) children)
  | Leaf _ _ => 0
  end.

(** Trees the update handles entry by entry: sizes fit their 32-bit field,
    tags are four bytes, only the five containers have children, and no
    entry leaves the range of its table when it is moved (32 bits for stco;
    for co64 the 53 bits a number holds exactly). *)
Inductive rewritable (sizeDelta shiftThreshold : Z) : mbox -> Prop :=
  | rewritable_leaf t payload :
      length (tag t) = 4%nat ->
      tag t <> tag "stco" -> tag t <> tag "co64" -> is_container (tag t) = false ->
      8 + blen payload <= 2 ^ 32 - 1 ->
      rewritable sizeDelta shiftThreshold (Leaf t payload)
  | rewritable_node t children :
      is_container (tag t) = true ->
      Forall (rewritable sizeDelta shiftThreshold) children ->
      8 + blen (ser_list children) <= 2 ^ 32 - 1 ->
      rewritable sizeDelta shiftThreshold (Node t children)
  | rewritable_stco flags entries :
      length flags = 4%nat ->
      Forall (fun o => 0 <= o < 2 ^ 32) entries ->
      Forall (fun o => shiftThreshold <= o -> 0 <= o + sizeDelta < 2 ^ 32) entries ->
      16 + 4 * Z.of_nat (length entries) <= 2 ^ 32 - 1 ->
      rewritable sizeDelta shiftThreshold (Stco flags entries)
  | rewritable_co64 flags entries :
      length flags = 4%nat ->
      Forall (fun o => 0 <= o < 2 ^ 53) entries ->
      Forall (fun o => shiftThreshold <= o -> 0 <= o + sizeDelta < 2 ^ 53) entries ->
      16 + 8 * Z.of_nat (length entries) <= 2 ^ 32 - 1 ->
      rewritable sizeDelta shiftThreshold (Co64 flags entries).

(** The tag and the payload a box of the tree is serialised with. *)
Definition mbox_tag (m : mbox) : string :=
  match m with
  | Leaf t _ | Node t _ => t
  | Stco _ _ => "stco"
  | Co64 _ _ => "co64"
  end.

Definition mbox_payload (m : mbox) : Buffer :=
  match m with
  | Leaf _ payload => payload
  | Node _ children => ser_list children
  | Stco flags entries =>
      flags ++ be_bytes 4 (Z.of_nat (length entries)) ++ entries32 entries
  | Co64 flags entries =>
      flags ++ be_bytes 4 (Z.of_nat (length entries)) ++ entries64 entries
  end.

(** Induction over box trees that reaches the children of a container. *)
Fixpoint mbox_ind' (P : mbox -> Prop)
    (HL : forall t p, P (Leaf t p))
    (HN : forall t cs, Forall P cs -> P (Node t cs))
    (HS : forall f es, P (Stco f es))
    (HC : forall f es, P (Co64 f es)) (m : mbox) : P m :=
  match m with
  | Leaf t p => HL t p
  | Node t cs =>
      HN t cs ((fix go (l : list mbox) : Forall P l :=
                  match l with
                  | [] => @List.Forall_nil _ P
                  | c :: r => @List.Forall_cons _ P c r (mbox_ind' P HL HN HS HC c) (go r)
                  end) cs)
  | Stco f es => HS f es
  | Co64 f es => HC f es
  end.

(** A small moov tree: one track with both kinds of table, and a box the
    search steps over. *)
Definition sample_moov : mbox :=
  Node "moov"
    [Node "trak"
       [Node "mdia"
          [Node "minf"
             [Node "stbl"
                [Stco (alloc 4) [100; 300; 400]; Co64 (alloc 4) [500; 150]]]]];
     Leaf "udta" (tag "x")].

(** A small file: ftyp, a moov box with one track and a udta > meta > ilst
    chain that holds the freeform item (com.stems, vpch), and mdat; and the
    file the writer makes of it for the JSON text of an empty object. *)
Definition sample_file : Buffer :=
  box "ftyp" (tag "M4A ")
  ++ box "moov"
       (ser (Node "trak" [Node "mdia" [Node "minf" [Node "stbl"
               [Stco (alloc 4) [100; 300; 400]]]]])
        ++ box "udta"
             (box "meta"
                (alloc 4
                 ++ box "ilst" (freeform_item "com.stems" "vpch" 0 0 (tag "PITCH")))))
  ++ box "mdat" (tag "audiodata").

Definition sample_out : Buffer :=
  Eval vm_compute in
    match newFileBuffer_of sample_file (lit "{}") with
    | Ok b => b
    | Throw _ => []
    end.

(** undefined or null: the values a property access raises on. *)
Definition nullish (v : jsval) : Prop := v = JUndefined \/ v = JNull.

(** What an element of the written [lines] looks like: start, end and text,
    then possibly [disabled: true], and nothing else; a time is never a falsy
    value other than 0, a text never one other than the empty string. *)
Definition line_keys (out : jsval) : Prop :=
  exists s e t,
    (out = JObj [(lit "start", s); (lit "end", e); (lit "text", t)]
     \/ out = JObj [(lit "start", s); (lit "end", e); (lit "text", t);
                    (lit "disabled", JBool true)]) /\
    (truthy s = true \/ s = JNum PrimFloat.zero) /\
    (truthy e = true \/ e = JNum PrimFloat.zero) /\
    (truthy t = true \/ t = JStr []).

(** A value that is falsy (so that the default [[]] stands in for it), or
    an array none of whose elements is undefined or null. *)
Definition array_of_objects (v : jsval) : Prop :=
  truthy v = false \/ exists l, v = JArr l /\ Forall (fun x => ~ nullish x) l.

(** Song data with two lines, the first carrying a singer, the second
    disabled and timed by [startTimeSec]; and the kaid data made of it. *)
Definition sample_lyrics : jsval :=
  JArr [JObj [(lit "start", JNum 12.5%float); (lit "end", JNum 15.5%float);
              (lit "text", JStr (lit "hi")); (lit "singer_id", JStr (lit "A"))];
        JObj [(lit "startTimeSec", JNum 14%float); (lit "disabled", JBool true)]].

Definition sample_song : jsval :=
  JObj [(lit "lyrics", sample_lyrics);
        (lit "singers", JArr [JObj [(lit "id", JStr (lit "A"))]])].

Definition sample_kaid : jsval :=
  Eval vm_compute in
    match prepareKaidData (fun _ => PrimFloat.nan) sample_song with
    | Ok v => v
    | Throw _ => JUndefined
    end.

(** Fixtures for the meta box update: a freeform item of another tool
    (com.stems, vpch), the kaid item of the JSON text of an empty object,
    and the children of a small meta box and of a small ilst box. *)
Definition sample_old_item : Buffer :=
  box "mean" (be_bytes 4 0 ++ tag "com.stems")
  ++ box "name" (be_bytes 4 0 ++ tag "vpch")
  ++ box "data" (be_bytes 4 0 ++ be_bytes 4 0 ++ tag "PITCH").

Definition sample_kaid_item : Buffer :=
  freeform_item "com.stems" "kaid" 1 0 (tag "{}").

Definition sample_meta_kids : list (string * Buffer) := [("hdlr"%string, alloc 25)].

Definition sample_items : list (string * Buffer) := [("gnre"%string, tag "ab")].

(** The payload [createMetaIlstKaidStructure] returns: a version/flags
    word, a handler box and an ilst box around the kaid atom. *)
Definition hdlr_payload : Buffer :=
  map byte_of_Z
    [0; 0; 0; 0; 0; 0; 0; 0; 109; 100; 105; 114; 97; 112; 112; 108;
     0; 0; 0; 0; 0; 0; 0; 0; 0].

Definition meta_payload_of (kaidAtomData : Buffer) : Buffer :=
  alloc 4 ++ box "hdlr" hdlr_payload ++ box "ilst" kaidAtomData.

(** Fixtures for the rebuild of the moov box: a meta payload with a
    freeform item of another tool and what the update makes of it, a track
    with one stco table, and the udta box of the new file. *)
Definition sample_meta_payload : Buffer :=
  alloc 4 ++ ser_boxes sample_meta_kids
  ++ box "ilst" (ser_boxes sample_items ++ box "----" sample_old_item).

Definition sample_new_meta_payload : Buffer :=
  alloc 4 ++ ser_boxes sample_meta_kids
  ++ box "ilst" (ser_boxes sample_items ++ sample_kaid_item).

Definition sample_trak (entries : list Z) : mbox :=
  Node "trak" [Node "mdia" [Node "minf" [Node "stbl" [Stco (alloc 4) entries]]]].

Definition sample_old_moov_payload : Buffer :=
  ser (sample_trak [100; 300; 400])
  ++ box "udta"
       (box "meta"
          (alloc 4 ++ box "ilst" (freeform_item "com.stems" "vpch" 0 0 (tag "PITCH")))).

Definition sample_new_udta : mbox :=
  Leaf "udta" (box "meta" (alloc 4 ++ box "ilst" sample_kaid_item)).

(** * Properties *)

(** ** Bytes and big-endian fields *)

Lemma byte_to_Z_range (b : byte) : 0 <= byte_to_Z b < 256.
Proof.
  unfold byte_to_Z. pose proof (Byte.to_N_bounded b). lia.
Qed.

Lemma byte_to_Z_of_Z (z : Z) : byte_to_Z (byte_of_Z z) = z mod 256.
Proof.
  unfold byte_to_Z, byte_of_Z.
  pose proof (Z.mod_pos_bound z 256 ltac:(lia)) as Hm.
  destruct (Byte.of_N (Z.to_N (z mod 256))) as [b|] eqn:E.
  - apply Byte.to_of_N in E. rewrite E. lia.
  - apply Byte.of_N_None_iff in E. lia.
Qed.

Lemma byte_of_to_Z (b : byte) : byte_of_Z (byte_to_Z b) = b.
Proof.
  unfold byte_of_Z, byte_to_Z.
  pose proof (Byte.to_N_bounded b).
  rewrite Z.mod_small by lia. rewrite N2Z.id, Byte.of_to_N. reflexivity.
Qed.

Lemma at_or_zero_range (buffer : Buffer) (i : Z) : 0 <= at_or_zero buffer i < 256.
Proof.
  unfold at_or_zero. destruct (at_index buffer i); [apply byte_to_Z_range | lia].
Qed.

Lemma readUInt32BE_range (buffer : Buffer) (offset v : Z) :
  readUInt32BE buffer offset = Ok v -> 0 <= v < 2 ^ 32.
Proof.
  unfold readUInt32BE.
  destruct (at_index buffer offset) as [first|]; [|discriminate].
  destruct (at_index buffer (offset + 3)) as [last|]; [|discriminate].
  intros [= <-].
  pose proof (byte_to_Z_range first). pose proof (byte_to_Z_range last).
  pose proof (at_or_zero_range buffer (offset + 1)).
  pose proof (at_or_zero_range buffer (offset + 2)).
  lia.
Qed.

Lemma at_index_Some (buffer : Buffer) (i : Z) :
  0 <= i < blen buffer -> exists b, at_index buffer i = Some b.
Proof.
  intros H. unfold at_index, blen in *.
  destruct (Z.ltb_spec i 0); [lia|].
  destruct (lookup_lt_is_Some_2 buffer (Z.to_nat i)) as [b Hb]; [lia|eauto].
Qed.

Lemma at_index_None (buffer : Buffer) (i : Z) :
  i < 0 \/ blen buffer <= i -> at_index buffer i = None.
Proof.
  intros H. unfold at_index, blen in *.
  destruct (Z.ltb_spec i 0); [reflexivity|].
  apply lookup_ge_None. lia.
Qed.

Lemma readUInt32BE_in_bounds (buffer : Buffer) (offset : Z) :
  0 <= offset -> offset + 3 < blen buffer ->
  exists v, readUInt32BE buffer offset = Ok v.
Proof.
  intros H0 H3. unfold readUInt32BE.
  destruct (at_index_Some buffer offset) as [b ->]; [lia|].
  destruct (at_index_Some buffer (offset + 3)) as [b' ->]; [lia|].
  eauto.
Qed.

(** ** Termination of the atom walks *)

(** One more iteration of the parser either ends the loop or continues
    strictly further on, by the declared size. *)
Lemma parse_loop_step (fuel : nat) (buffer : Buffer) (endOffset pos : Z)
    (atoms : list atom) :
  (exists r, forall fuel', parse_loop (S fuel') buffer endOffset pos atoms = Some r)
  \/ (exists size atoms',
        1 <= size /\ pos < endOffset - 8 /\
        readUInt32BE buffer pos = Ok size /\
        parse_loop (S fuel) buffer endOffset pos atoms
        = parse_loop fuel buffer endOffset (pos + size) atoms').
Proof.
  cbn [parse_loop].
  destruct (Z.ltb_spec pos (endOffset - 8)); [|left; eauto].
  destruct (readUInt32BE buffer pos) as [size|e] eqn:Hr; [|left; eauto].
  pose proof (readUInt32BE_range _ _ _ Hr) as Hsz.
  destruct (orb _ _) eqn:Hinv; [left; eauto|].
  apply orb_false_iff in Hinv as [Hz _]. apply Z.eqb_neq in Hz.
  right. exists size. eexists.
  split; [lia|]. split; [lia|]. split; reflexivity.
Qed.

Lemma parse_loop_enough (fuel : nat) (buffer : Buffer) (endOffset pos : Z)
    (atoms : list atom) :
  (Z.to_nat (endOffset - pos) < fuel)%nat ->
  exists r, forall k, parse_loop (fuel + k) buffer endOffset pos atoms = Some r.
Proof.
  revert pos atoms. induction fuel as [|fuel IH]; intros pos atoms Hf; [lia|].
  destruct (parse_loop_step fuel buffer endOffset pos atoms)
    as [[r Hr]|(size & atoms' & Hs & Hlt & Hread & _)].
  - exists r. intros k. apply Hr.
  - destruct (IH (pos + size) (atoms ++ [Atom (toString_range buffer (pos + 4) (pos + 8))
                                           pos size (pos + 8)])) as [r Hr]; [lia|].
    cbn [parse_loop Nat.add].
    destruct (Z.ltb_spec pos (endOffset - 8)); [|lia].
    rewrite Hread.
    destruct (orb _ _); [eauto|]. exists r. intros k. apply Hr.
Qed.

(** One more iteration of the chunk offset search either ends the loop, or
    continues at least eight bytes further on, after at most one nested
    search of a strictly shorter range that lies inside the current one. *)
Lemma searchAtoms_enough (fuel : nat) (sizeDelta shiftThreshold : Z)
    (st : uco_state) (pos end_ : Z) :
  (Z.to_nat (end_ - pos) < fuel)%nat ->
  exists st', forall k,
    searchAtoms (fuel + k) sizeDelta shiftThreshold st pos end_ = Some st'.
Proof.
  revert st pos end_. induction fuel as [|fuel IH]; intros st pos end_ Hf; [lia|].
  cbn [searchAtoms Nat.add].
  destruct (andb _ _) eqn:Hc; [|eauto].
  apply andb_true_iff in Hc as [Hc _]. apply Z.ltb_lt in Hc.
  assert (Hnext : forall st1 d, 8 <= d ->
            exists st', forall k,
              searchAtoms (fuel + k) sizeDelta shiftThreshold st1 (pos + d) end_
              = Some st') by (intros; apply IH; lia).
  destruct (readUInt32BE (buf st) pos) as [size|e] eqn:Hr; [|apply Hnext; lia].
  destruct (orb _ _) eqn:Hinv; [apply Hnext; lia|].
  apply orb_false_iff in Hinv as [H8 Hfit].
  apply Z.ltb_ge in H8. apply Z.ltb_ge in Hfit.
  destruct (bool_decide _).
  { destruct (readUInt32BE _ (pos + 12)); [|apply Hnext; lia].
    destruct (stco_entries _ _ _ _ _ _) as [st1 [|e]]; apply Hnext; lia. }
  destruct (bool_decide _).
  { destruct (readUInt32BE _ (pos + 12)); [|apply Hnext; lia].
    destruct (co64_entries _ _ _ _ _ _) as [st1 [|e]]; apply Hnext; lia. }
  destruct (is_container _); [|apply Hnext; lia].
  destruct (IH st (pos + 8) (pos + size)) as [st1 Hst1]; [lia|].
  destruct (Hnext st1 size H8) as [st2 Hst2].
  exists st2. intros k. rewrite Hst1. apply Hst2.
Qed.

(** C10.  Both atom walks terminate on every buffer and every range: the
    parser and the chunk offset search return a result within the number of
    iterations computed from the range alone, and more iterations never
    change that result. *)
Theorem atom_walks_terminate :
  (forall (buffer : Buffer) (offset : Z) (maxLength : option Z),
     exists r, forall k,
       parseMP4Atoms_fuel (parse_fuel (parse_end buffer offset maxLength) offset + k)
         buffer offset maxLength = Some r)
  /\ (forall (sizeDelta shiftThreshold : Z) (st : uco_state) (start end_ : Z),
        exists st', forall k,
          searchAtoms (search_fuel start end_ + k) sizeDelta shiftThreshold
            st start end_ = Some st').
Proof.
  split.
  - intros buffer offset maxLength. unfold parseMP4Atoms_fuel.
    apply parse_loop_enough. unfold parse_fuel. lia.
  - intros sizeDelta shiftThreshold st start end_.
    apply searchAtoms_enough. unfold search_fuel. lia.
Qed.

(** ** The parser stops instead of failing *)

Lemma parse_loop_stops (fuel : nat) (buffer : Buffer) (endOffset offset pos : Z)
    (atoms : list atom) (r : result (list atom)) :
  0 <= pos -> endOffset <= blen buffer -> atoms_end offset atoms = pos ->
  parse_loop fuel buffer endOffset pos atoms = Some r ->
  exists atoms', r = Ok atoms' /\
    (endOffset - 8 <= atoms_end offset atoms'
     \/ exists size, readUInt32BE buffer (atoms_end offset atoms') = Ok size
                     /\ (size = 0 \/ blen buffer - atoms_end offset atoms' < size)).
Proof.
  revert pos atoms. induction fuel as [|fuel IH]; intros pos atoms Hpos Hend Hat;
    [discriminate|].
  cbn [parse_loop].
  destruct (Z.ltb_spec pos (endOffset - 8)) as [Hlt|Hge].
  - destruct (readUInt32BE_in_bounds buffer pos) as [size Hread]; [lia|lia|].
    rewrite Hread. pose proof (readUInt32BE_range _ _ _ Hread) as Hsz.
    destruct (orb _ _) eqn:Hinv.
    + intros [= <-]. exists atoms. split; [reflexivity|]. right.
      rewrite Hat. exists size. split; [assumption|].
      apply orb_true_iff in Hinv as [Hz|Hbig]; [left|right]; lia.
    + apply IH; [lia|assumption|].
      unfold atoms_end. rewrite last_snoc. reflexivity.
  - intros [= <-]. exists atoms. split; [reflexivity|]. left. lia.
Qed.

Lemma parseMP4Atoms_run (buffer : Buffer) (offset : Z) (maxLength : option Z) :
  parse_loop (parse_fuel (parse_end buffer offset maxLength) offset) buffer
    (parse_end buffer offset maxLength) offset []
  = Some (parseMP4Atoms buffer offset maxLength).
Proof.
  destruct (parse_loop_enough
              (parse_fuel (parse_end buffer offset maxLength) offset) buffer
              (parse_end buffer offset maxLength) offset []) as [r Hr];
    [unfold parse_fuel; lia|].
  specialize (Hr 0%nat). rewrite Nat.add_0_r in Hr.
  unfold parseMP4Atoms, parseMP4Atoms_fuel. rewrite Hr. reflexivity.
Qed.




(** ** Big-endian fields inside a buffer *)

Lemma length_be_bytes (n : nat) (v : Z) : length (be_bytes n v) = n.
Proof. induction n as [|n IH]; cbn [be_bytes length]; [reflexivity|]. by rewrite IH. Qed.

Lemma be_value_be_bytes (n : nat) (v : Z) :
  be_value (be_bytes n v) = v mod 2 ^ (8 * Z.of_nat n).
Proof.
  induction n as [|n IH].
  - cbn. by rewrite Z.mod_1_r.
  - cbn [be_bytes be_value]. rewrite length_be_bytes, IH, byte_to_Z_of_Z.
    replace (8 * Z.of_nat (S n)) with (8 * Z.of_nat n + 8) by lia.
    rewrite Z.pow_add_r by lia.
    change (2 ^ 8) with 256.
    rewrite (Z.rem_mul_r v (2 ^ (8 * Z.of_nat n)) 256) by lia.
    lia.
Qed.

Lemma blen_app (a b : Buffer) : blen (a ++ b) = blen a + blen b.
Proof. unfold blen. rewrite length_app. lia. Qed.

Lemma blen_nonneg (a : Buffer) : 0 <= blen a.
Proof. unfold blen. lia. Qed.

Lemma at_index_app (pre l : Buffer) (k : Z) :
  0 <= k -> at_index (pre ++ l) (blen pre + k) = l !! Z.to_nat k.
Proof.
  intros Hk. unfold at_index, blen, Buffer in *.
  destruct (Z.ltb_spec (Z.of_nat (length pre) + k) 0); [lia|].
  rewrite lookup_app_r by lia. f_equal. lia.
Qed.

Lemma readUInt32BE_app (pre suf : Buffer) (b0 b1 b2 b3 : byte) :
  readUInt32BE (pre ++ b0 :: b1 :: b2 :: b3 :: suf) (blen pre)
  = Ok (byte_to_Z b0 * 2 ^ 24 + byte_to_Z b1 * 2 ^ 16 + byte_to_Z b2 * 2 ^ 8
        + byte_to_Z b3).
Proof.
  unfold readUInt32BE, at_or_zero.
  replace (blen pre) with (blen pre + 0) at 1 by lia.
  rewrite !at_index_app by lia. reflexivity.
Qed.

Lemma readUInt32BE_be_bytes (pre suf : Buffer) (v : Z) :
  0 <= v < 2 ^ 32 ->
  readUInt32BE (pre ++ be_bytes 4 v ++ suf) (blen pre) = Ok v.
Proof.
  intros Hv. cbn [be_bytes app]. rewrite readUInt32BE_app. f_equal.
  pose proof (be_value_be_bytes 4 v) as H.
  cbn [be_bytes be_value length] in H.
  rewrite Z.mod_small in H by (cbn; lia).
  cbn in H. cbn. lia.
Qed.

Lemma overwrite_app (pre old new suf : Buffer) :
  length old = length new ->
  overwrite (pre ++ old ++ suf) (blen pre) new = pre ++ new ++ suf.
Proof.
  intros Hl. unfold overwrite, blen, Buffer in *. rewrite Nat2Z.id.
  rewrite take_app_length. f_equal. f_equal.
  rewrite drop_app_ge by lia.
  rewrite drop_app_ge by lia.
  replace (length pre + length new - length pre - length old)%nat with 0%nat by lia.
  reflexivity.
Qed.

Lemma length_overwrite (buffer : Buffer) (offset : Z) (bytes : list byte) :
  0 <= offset -> offset + Z.of_nat (length bytes) <= blen buffer ->
  length (overwrite buffer offset bytes) = length buffer.
Proof.
  intros H0 H1. unfold overwrite, blen, Buffer in *.
  rewrite !length_app, length_take, length_drop. lia.
Qed.

Lemma writeUInt32BE_app (pre suf : Buffer) (old : list byte) (v : Z) :
  length old = 4%nat -> 0 <= v < 2 ^ 32 ->
  writeUInt32BE (pre ++ old ++ suf) v (blen pre) = Ok (pre ++ be_bytes 4 v ++ suf).
Proof.
  intros Hl Hv. unfold writeUInt32BE.
  destruct (Z.ltb_spec v 0); [lia|].
  destruct (Z.ltb_spec (2 ^ 32 - 1) v); [lia|]. cbn [orb].
  destruct old as [|b0 [|b1 [|b2 [|b3 [|]]]]]; try discriminate.
  replace (blen pre) with (blen pre + 0) at 1 by lia.
  rewrite !at_index_app by lia. cbn [lookup list_lookup Z.to_nat Pos.to_nat Pos.iter_op Nat.add].
  change (pre ++ b0 :: b1 :: b2 :: b3 :: suf) with (pre ++ [b0; b1; b2; b3] ++ suf).
  rewrite overwrite_app; [reflexivity|]. by rewrite length_be_bytes.
Qed.

Lemma toString_range_app (pre hd t suf : Buffer) :
  length hd = 4%nat -> length t = 4%nat ->
  toString_range (pre ++ hd ++ t ++ suf) (blen pre + 4) (blen pre + 8) = t.
Proof.
  intros Hh Ht. unfold toString_range.
  pose proof (blen_nonneg pre).
  assert (Hlen : blen (pre ++ hd ++ t ++ suf) = blen pre + 8 + blen suf).
  { rewrite !blen_app. unfold blen. lia. }
  pose proof (blen_nonneg suf).
  rewrite Hlen, Z.max_r, Z.min_l by lia.
  destruct (Z.leb_spec (blen pre + 8) (blen pre + 4)); [lia|].
  replace (blen pre + 8 - (blen pre + 4)) with 4 by lia.
  unfold blen, Buffer in *.
  replace (Z.to_nat (Z.of_nat (length pre) + 4)) with (length pre + length hd)%nat by lia.
  rewrite (app_assoc pre hd), drop_app_length'; [|by rewrite length_app].
  change (Z.to_nat 4) with 4%nat. rewrite <- Ht. apply take_app_length.
Qed.

(** ** createAtom *)

Lemma createAtom_tagged (t : js_string) (tb : list byte) (data : Buffer) :
  fitting (utf8_chunks t) 4 = tb -> length tb = 4%nat ->
  8 + blen data <= 2 ^ 32 - 1 ->
  createAtom t data = Ok (be_bytes 4 (8 + blen data) ++ tb ++ data).
Proof.
  intros Ht Hl Hsz. unfold createAtom.
  pose proof (blen_nonneg data) as Hd.
  change (alloc 8) with ([] ++ [x00; x00; x00; x00] ++ [x00; x00; x00; x00]).
  change 0 with (blen []) at 1.
  rewrite writeUInt32BE_app by (reflexivity || lia).
  cbn [mbind result_bind app].
  unfold write_utf8.
  set (hdr := be_bytes 4 (8 + blen data)).
  assert (Hh : blen hdr = 4) by (unfold blen, hdr; by rewrite length_be_bytes).
  rewrite blen_app, Hh. change (blen [x00; x00; x00; x00]) with 4.
  change (Z.min 4 (4 + 4 - 4)) with 4. rewrite Ht.
  pose proof (overwrite_app hdr [x00; x00; x00; x00] tb []) as Hov.
  rewrite Hh, !app_nil_r in Hov. rewrite Hov by (by rewrite Hl).
  rewrite <- app_assoc. reflexivity.
Qed.

Lemma createAtom_box (t : string) (data : Buffer) :
  fitting (utf8_chunks (lit t)) 4 = tag t -> length (tag t) = 4%nat ->
  8 + blen data <= 2 ^ 32 - 1 ->
  createAtom (lit t) data = Ok (box t data).
Proof. intros Ht Hl Hsz. unfold box. by apply createAtom_tagged. Qed.

Lemma blen_box (t : string) (data : Buffer) :
  length (tag t) = 4%nat -> blen (box t data) = 8 + blen data.
Proof.
  intros Hl. unfold box. rewrite !blen_app. unfold blen.
  rewrite length_be_bytes, Hl. lia.
Qed.

(** ** What the parser returns *)

Lemma chained_app (buffer : Buffer) (start : Z) (atoms : list atom) (a : atom) :
  chained buffer start atoms ->
  chained buffer (atoms_end start atoms) [a] ->
  chained buffer start (atoms ++ [a]).
Proof.
  revert start. induction atoms as [|b atoms IH]; intros start Hc Ha.
  - exact Ha.
  - cbn [app chained] in *.
    destruct Hc as (H1 & H2 & H3 & H4 & H5 & H6 & H7 & Hc).
    repeat (split; [assumption|]).
    apply IH; [assumption|].
    assert (atoms_end start (b :: atoms) = atoms_end (start + size b) atoms) as <-;
      [|assumption].
    destruct atoms as [|c atoms]; unfold atoms_end.
    + cbn [last]. lia.
    + change (last (b :: c :: atoms)) with (last (c :: atoms)).
      destruct (last (c :: atoms)) eqn:E; [reflexivity|].
      by apply last_None in E.
Qed.

Lemma parse_loop_chained (fuel : nat) (buffer : Buffer) (endOffset start pos : Z)
    (atoms atoms' : list atom) :
  chained buffer start atoms -> atoms_end start atoms = pos ->
  parse_loop fuel buffer endOffset pos atoms = Some (Ok atoms') ->
  chained buffer start atoms'.
Proof.
  revert pos atoms. induction fuel as [|fuel IH]; intros pos atoms Hc Hat;
    [discriminate|].
  cbn [parse_loop].
  destruct (Z.ltb_spec pos (endOffset - 8)); [|by intros [= <-]].
  destruct (readUInt32BE buffer pos) as [sz|e] eqn:Hread; [|discriminate].
  destruct (orb _ _) eqn:Hinv; [by intros [= <-]|].
  apply orb_false_iff in Hinv as [Hz Hfit].
  apply Z.eqb_neq in Hz. apply Z.ltb_ge in Hfit.
  pose proof (readUInt32BE_range _ _ _ Hread) as Hsz.
  apply IH.
  - apply chained_app; [assumption|]. rewrite Hat. cbn.
    assert (0 <= pos).
    { destruct (Z.ltb_spec pos 0) as [Hneg|]; [|lia].
      unfold readUInt32BE in Hread. rewrite at_index_None in Hread by lia.
      discriminate. }
    repeat split; try reflexivity; try lia. assumption.
  - unfold atoms_end. by rewrite last_snoc.
Qed.

Lemma parse_loop_acc (fuel : nat) (buffer : Buffer) (endOffset pos : Z)
    (atoms r : list atom) :
  parse_loop fuel buffer endOffset pos atoms = Some (Ok r) ->
  exists more, r = atoms ++ more.
Proof.
  revert pos atoms. induction fuel as [|fuel IH]; intros pos atoms; [discriminate|].
  cbn [parse_loop].
  destruct (_ <? _); [|intros [= <-]; exists []; by rewrite app_nil_r].
  destruct (readUInt32BE buffer pos); [|discriminate].
  destruct (orb _ _); [intros [= <-]; exists []; by rewrite app_nil_r|].
  intros H. apply IH in H as [more ->]. rewrite <- app_assoc. eauto.
Qed.

Lemma parse_loop_ok (fuel : nat) (buffer : Buffer) (endOffset pos : Z)
    (atoms : list atom) (r : result (list atom)) :
  0 <= pos -> endOffset <= blen buffer ->
  parse_loop fuel buffer endOffset pos atoms = Some r ->
  exists atoms', r = Ok atoms'.
Proof.
  revert pos atoms. induction fuel as [|fuel IH]; intros pos atoms Hpos Hend;
    [discriminate|].
  cbn [parse_loop].
  destruct (Z.ltb_spec pos (endOffset - 8)); [|intros [= <-]; eauto].
  destruct (readUInt32BE_in_bounds buffer pos) as [sz Hread]; [lia|lia|].
  rewrite Hread. pose proof (readUInt32BE_range _ _ _ Hread).
  destruct (orb _ _); [intros [= <-]; eauto|].
  apply IH; [lia|assumption].
Qed.

Lemma parse_loop_box_step (fuel : nat) (pre suf : Buffer) (t : string)
    (d : Buffer) (endOffset : Z) (atoms : list atom) :
  wf_box (t, d) -> blen pre < endOffset - 8 ->
  parse_loop (S fuel) (pre ++ box t d ++ suf) endOffset (blen pre) atoms
  = parse_loop fuel (pre ++ box t d ++ suf) endOffset (blen pre + (8 + blen d))
      (atoms ++ [Atom (tag t) (blen pre) (8 + blen d) (blen pre + 8)]).
Proof.
  intros [Ht Hsz] Hlt. cbn [fst snd] in *. cbn [parse_loop].
  destruct (Z.ltb_spec (blen pre) (endOffset - 8)); [|lia].
  pose proof (blen_nonneg d) as Hd. pose proof (blen_nonneg suf) as Hs.
  assert (Hlen : blen (pre ++ box t d ++ suf) = blen pre + (8 + blen d) + blen suf).
  { rewrite !blen_app, blen_box by assumption. lia. }
  rewrite Hlen. unfold box. rewrite <- !app_assoc.
  rewrite readUInt32BE_be_bytes by lia.
  destruct (Z.eqb_spec (8 + blen d) 0); [lia|].
  destruct (Z.ltb_spec (blen pre + (8 + blen d) + blen suf - blen pre) (8 + blen d));
    [lia|].
  cbn [orb]. rewrite toString_range_app; [reflexivity| |assumption].
  by rewrite length_be_bytes.
Qed.

Lemma blen_ser_boxes_cons (b : string * Buffer) (rest : list (string * Buffer)) :
  wf_box b -> blen (ser_boxes (b :: rest)) = 8 + blen (snd b) + blen (ser_boxes rest).
Proof.
  intros [Ht _]. unfold ser_boxes. cbn [map concat].
  by rewrite blen_app, blen_box.
Qed.

Lemma parse_loop_boxes (bs : list (string * Buffer)) :
  forall (fuel : nat) (pre suf : Buffer) (end_ : Z) (atoms : list atom)
         (r : result (list atom)),
  Forall wf_box bs ->
  (forall b, last bs = Some b -> snd b <> [])
    \/ blen pre + blen (ser_boxes bs) < end_ ->
  blen pre + blen (ser_boxes bs) <= end_ ->
  end_ <= blen (pre ++ ser_boxes bs ++ suf) ->
  parse_loop fuel (pre ++ ser_boxes bs ++ suf) end_ (blen pre) atoms = Some r ->
  exists more, r = Ok (atoms ++ atoms_at (blen pre) bs ++ more)
               /\ (end_ - 8 <= blen pre + blen (ser_boxes bs) -> more = []).
Proof.
  induction bs as [|[t d] rest IH]; intros fuel pre suf end_ atoms r Hwf Hlast Hle Hend Hrun.
  - cbn [atoms_at app].
    destruct (parse_loop_ok _ _ _ _ _ _ (blen_nonneg pre) Hend Hrun) as [atoms' ->].
    destruct (parse_loop_acc _ _ _ _ _ _ Hrun) as [more ->].
    exists more. split; [reflexivity|].
    intros Hx. change (blen (ser_boxes [])) with 0 in Hx.
    destruct fuel as [|fuel]; [discriminate|]. cbn [parse_loop] in Hrun.
    destruct (Z.ltb_spec (blen pre) (end_ - 8)); [lia|].
    injection Hrun as Hrun.
    assert (Heq : atoms ++ [] = atoms ++ more) by (by rewrite app_nil_r).
    by apply app_inv_head in Heq.
  - apply Forall_cons in Hwf as [Hb Hwf].
    pose proof (blen_nonneg d) as Hd. pose proof (blen_nonneg (ser_boxes rest)) as Hr.
    rewrite blen_ser_boxes_cons in Hle, Hlast by assumption. cbn [fst snd] in *.
    assert (Hgt : blen pre < end_ - 8).
    { destruct Hlast as [Hlast|Hlt]; [|lia].
      destruct rest as [|b' rest'].
      - specialize (Hlast (t, d) eq_refl). cbn [snd] in Hlast.
        destruct d; [done|]. unfold blen in *. cbn [length] in *. lia.
      - apply Forall_cons in Hwf as [Hb' _].
        rewrite blen_ser_boxes_cons in Hle by assumption.
        pose proof (blen_nonneg (snd b')). pose proof (blen_nonneg (ser_boxes rest')).
        lia. }
    destruct fuel as [|fuel]; [discriminate|].
    change (ser_boxes ((t, d) :: rest)) with (box t d ++ ser_boxes rest) in *.
    rewrite <- app_assoc in Hrun, Hend.
    rewrite parse_loop_box_step in Hrun by (assumption || lia).
    destruct Hb as [Ht Hsz]. cbn [fst snd] in *.
    rewrite app_assoc in Hrun, Hend.
    replace (blen pre + (8 + blen d)) with (blen (pre ++ box t d)) in Hrun
      by (by rewrite blen_app, blen_box).
    apply IH in Hrun as (more & -> & Hmore).
    + exists more. split.
      * rewrite <- app_assoc. cbn [atoms_at app fst snd].
        by rewrite blen_app, blen_box.
      * intros Hx. apply Hmore. rewrite !blen_app, !blen_box in * by assumption. lia.
    + assumption.
    + destruct Hlast as [Hlast|Hlt].
      * left. intros b Hb. apply Hlast. destruct rest; [discriminate|]. exact Hb.
      * right. rewrite !blen_app, !blen_box in * by assumption. lia.
    + rewrite blen_app, blen_box by assumption. lia.
    + assumption.
Qed.

(** X1.  Whatever list the parser returns, its atoms follow one another
    from the start offset without gap, each has a positive size and lies
    inside the buffer, and each carries the size and tag bytes found at its
    offset. *)
Theorem parsed_atoms_chained (buffer : Buffer) (offset : Z) (maxLength : option Z)
    (atoms : list atom) :
  parseMP4Atoms buffer offset maxLength = Ok atoms ->
  chained buffer offset atoms.
Proof.
  intros H. pose proof (parseMP4Atoms_run buffer offset maxLength) as Hrun.
  rewrite H in Hrun.
  by eapply (parse_loop_chained _ buffer _ offset offset []).
Qed.

Lemma parsed_atoms_chained_witness :
  chained stray_tail 0 [Atom (tag "ftyp") 0 12 8].
Proof.
  apply (parsed_atoms_chained stray_tail 0 None). vm_compute. reflexivity.
Defined.

Lemma ser_boxes_app (bs cs : list (string * Buffer)) :
  ser_boxes (bs ++ cs) = ser_boxes bs ++ ser_boxes cs.
Proof. unfold ser_boxes. by rewrite map_app, concat_app. Qed.

Lemma blen_ser_boxes_pos (bs : list (string * Buffer)) :
  Forall wf_box bs -> bs <> [] -> 8 <= blen (ser_boxes bs).
Proof.
  intros Hwf Hne. destruct bs as [|b rest]; [done|].
  apply Forall_cons in Hwf as [Hb _]. rewrite blen_ser_boxes_cons by assumption.
  pose proof (blen_nonneg (snd b)). pose proof (blen_nonneg (ser_boxes rest)). lia.
Qed.

Lemma parseMP4Atoms_boxes (bs : list (string * Buffer)) (pre suf : Buffer)
    (maxLength : option Z) :
  Forall wf_box bs ->
  (forall b, last bs = Some b -> snd b <> [])
    \/ blen pre + blen (ser_boxes bs)
       < parse_end (pre ++ ser_boxes bs ++ suf) (blen pre) maxLength ->
  blen pre + blen (ser_boxes bs)
    <= parse_end (pre ++ ser_boxes bs ++ suf) (blen pre) maxLength ->
  parse_end (pre ++ ser_boxes bs ++ suf) (blen pre) maxLength
    <= blen (pre ++ ser_boxes bs ++ suf) ->
  exists more,
    parseMP4Atoms (pre ++ ser_boxes bs ++ suf) (blen pre) maxLength
    = Ok (atoms_at (blen pre) bs ++ more)
    /\ (parse_end (pre ++ ser_boxes bs ++ suf) (blen pre) maxLength - 8
        <= blen pre + blen (ser_boxes bs) -> more = []).
Proof.
  intros Hwf Hlast Hle Hend.
  pose proof (parseMP4Atoms_run (pre ++ ser_boxes bs ++ suf) (blen pre) maxLength)
    as Hrun.
  apply parse_loop_boxes in Hrun as (more & Hr & Hmore); try assumption.
  exists more. split; assumption.
Qed.

Lemma parse_boxes_in_range (bs : list (string * Buffer)) (pre suf : Buffer) :
  Forall wf_box bs ->
  (forall b, last bs = Some b -> snd b <> []) ->
  bs <> [] ->
  parseMP4Atoms (pre ++ ser_boxes bs ++ suf) (blen pre) (Some (blen (ser_boxes bs)))
  = Ok (atoms_at (blen pre) bs).
Proof.
  intros Hwf Hlast Hne.
  pose proof (blen_ser_boxes_pos bs Hwf Hne) as Hpos.
  assert (Hpe : parse_end (pre ++ ser_boxes bs ++ suf) (blen pre)
                  (Some (blen (ser_boxes bs))) = blen pre + blen (ser_boxes bs)).
  { cbn [parse_end]. destruct (Z.eqb_spec (blen (ser_boxes bs)) 0); [lia|done]. }
  destruct (parseMP4Atoms_boxes bs pre suf (Some (blen (ser_boxes bs))) Hwf)
    as (more & Hr & Hmore).
  - by left.
  - rewrite Hpe. lia.
  - rewrite Hpe, !blen_app. pose proof (blen_nonneg suf). lia.
  - rewrite Hr, Hmore, app_nil_r; [reflexivity|]. rewrite Hpe. lia.
Qed.

(** X2.  Parsing undoes serialisation: for boxes with four-byte tags that fit
    the 32-bit size field, the last of which has a payload, the parser run
    over their bytes returns one atom per box, in order, with the offsets the
    sizes add up to.  This holds for a whole buffer and for a range inside a
    larger one. *)
Theorem parse_ser_boxes (bs : list (string * Buffer)) :
  Forall wf_box bs ->
  (forall b, last bs = Some b -> snd b <> []) ->
  parseMP4Atoms (ser_boxes bs) 0 None = Ok (atoms_at 0 bs)
  /\ (bs <> [] -> forall pre suf : Buffer,
        parseMP4Atoms (pre ++ ser_boxes bs ++ suf) (blen pre)
          (Some (blen (ser_boxes bs)))
        = Ok (atoms_at (blen pre) bs)).
Proof.
  intros Hwf Hlast. split.
  - destruct (parseMP4Atoms_boxes bs [] [] None Hwf) as (more & Hr & Hmore).
    + by left.
    + cbn [parse_end app]. rewrite app_nil_r. change (blen []) with 0. lia.
    + reflexivity.
    + cbn [app] in Hr. rewrite app_nil_r in Hr. change (blen []) with 0 in Hr.
      rewrite Hr, Hmore, app_nil_r; [reflexivity|].
      cbn [parse_end app]. rewrite app_nil_r. change (blen []) with 0. lia.
  - intros Hne pre suf. by apply parse_boxes_in_range.
Qed.

Lemma parse_ser_boxes_witness :
  parseMP4Atoms (ser_boxes [("ftyp"%string, tag "M4A ")]) 0 None
  = Ok (atoms_at 0 [("ftyp"%string, tag "M4A ")])
  /\ ([("ftyp"%string, tag "M4A ")] <> [] -> forall pre suf : Buffer,
        parseMP4Atoms (pre ++ ser_boxes [("ftyp"%string, tag "M4A ")] ++ suf)
          (blen pre) (Some (blen (ser_boxes [("ftyp"%string, tag "M4A ")])))
        = Ok (atoms_at (blen pre) [("ftyp"%string, tag "M4A ")])).
Proof.
  apply (parse_ser_boxes [("ftyp"%string, tag "M4A ")]).
  - repeat constructor; vm_compute; discriminate.
  - intros b [= <-]. discriminate.
Defined.

(** X3.  A box that is a bare 8-byte header at the very end of the parsed
    range is not reported: the loop runs only while more than 8 bytes are
    left, so the parser returns the boxes before it and nothing else. *)
Theorem parse_drops_trailing_header (bs : list (string * Buffer)) (t : string) :
  Forall wf_box bs -> length (tag t) = 4%nat ->
  parseMP4Atoms (ser_boxes (bs ++ [(t, [])])) 0 None = Ok (atoms_at 0 bs).
Proof.
  intros Hwf Ht. rewrite ser_boxes_app.
  change (ser_boxes [(t, [])]) with (box t [] ++ []). rewrite app_nil_r.
  assert (Hpe : parse_end ([] ++ ser_boxes bs ++ box t []) (blen []) None
                = blen (ser_boxes bs) + 8).
  { cbn [parse_end app]. rewrite blen_app, blen_box by assumption. reflexivity. }
  destruct (parseMP4Atoms_boxes bs [] (box t []) None Hwf) as (more & Hr & Hmore).
  - right. rewrite Hpe. change (blen []) with 0. lia.
  - rewrite Hpe. change (blen []) with 0. lia.
  - reflexivity.
  - cbn [app] in Hr. change (blen []) with 0 in Hr.
    rewrite Hr, Hmore, app_nil_r; [reflexivity|].
    rewrite Hpe. change (blen []) with 0. lia.
Qed.

Lemma parse_drops_trailing_header_witness :
  parseMP4Atoms (ser_boxes ([("ftyp"%string, tag "M4A ")] ++ [("free"%string, [])])) 0 None
  = Ok (atoms_at 0 [("ftyp"%string, tag "M4A ")]).
Proof.
  apply (parse_drops_trailing_header [("ftyp"%string, tag "M4A ")] "free").
  - repeat constructor; vm_compute; discriminate.
  - reflexivity.
Defined.

(** ** ASCII tags and createAtom *)

Lemma utf8_chunks_ascii (bs : list byte) :
  Forall (fun b => byte_to_Z b < 128) bs ->
  utf8_chunks (map byte_to_Z bs) = map (fun b => [b]) bs.
Proof.
  induction 1 as [|b bs Hb _ IH]; [reflexivity|].
  cbn [map utf8_chunks]. pose proof (byte_to_Z_range b).
  unfold is_high_surrogate, is_low_surrogate.
  destruct (Z.leb_spec 55296 (byte_to_Z b)); [lia|].
  destruct (Z.leb_spec 56320 (byte_to_Z b)); [lia|]. cbn [andb].
  unfold utf8_code_point. destruct (Z.ltb_spec (byte_to_Z b) 128); [|lia].
  by rewrite byte_of_to_Z, IH.
Qed.

Lemma fitting_singletons (bs : list byte) (room : Z) :
  Z.of_nat (length bs) <= room -> fitting (map (fun b => [b]) bs) room = bs.
Proof.
  revert room. induction bs as [|b bs IH]; intros room Hr; [reflexivity|].
  cbn [map fitting length app] in *.
  destruct (Z.leb_spec (Z.of_nat 1) room); [|lia].
  f_equal. apply IH. lia.
Qed.

Lemma fitting_ascii_tag (t : string) :
  ascii_tag t -> fitting (utf8_chunks (lit t)) 4 = tag t.
Proof.
  intros [Hl Ha]. unfold lit. fold (tag t).
  rewrite utf8_chunks_ascii by assumption.
  apply fitting_singletons. lia.
Qed.

(** X4.  createAtom and the parser agree: an atom created with a tag of four
    ASCII characters and a payload that fits the 32-bit size field parses
    back as exactly one atom of that type that spans the whole buffer; when
    the payload is empty the parser reports nothing at all. *)
Theorem createAtom_parses (t : string) (data : Buffer) :
  ascii_tag t -> 8 + blen data <= 2 ^ 32 - 1 ->
  exists b,
    createAtom (lit t) data = Ok b /\ blen b = 8 + blen data /\
    parseMP4Atoms b 0 None
    = Ok (if decide (data = []) then [] else [Atom (tag t) 0 (8 + blen data) 8]).
Proof.
  intros Ht Hsz. pose proof Ht as [Hl _].
  exists (box t data). split; [|split].
  - apply createAtom_box; [by apply fitting_ascii_tag|assumption|assumption].
  - by apply blen_box.
  - destruct (decide (data = [])) as [->|Hne].
    + destruct (parseMP4Atoms_boxes [] [] (box t []) None) as (more & Hr & Hmore).
      * constructor.
      * by left.
      * unfold ser_boxes. cbn [parse_end app map concat].
        rewrite blen_box by assumption. unfold blen. cbn [length]. lia.
      * reflexivity.
      * unfold ser_boxes in Hr. cbn [app map concat atoms_at] in Hr.
        change (blen []) with 0 in Hr. rewrite Hr, Hmore; [reflexivity|].
        unfold ser_boxes. cbn [parse_end app map concat].
        rewrite blen_box by assumption. unfold blen. cbn [length]. lia.
    + destruct (parseMP4Atoms_boxes [(t, data)] [] [] None) as (more & Hr & Hmore).
      * repeat constructor; assumption.
      * left. by intros b [= <-].
      * cbn [parse_end app]. rewrite app_nil_r. change (blen []) with 0. lia.
      * reflexivity.
      * unfold ser_boxes in Hr. cbn [map concat fst snd app atoms_at] in Hr.
        rewrite !app_nil_r in Hr. change (blen []) with 0 in Hr.
        rewrite Hr, Hmore; [reflexivity|].
        unfold ser_boxes. cbn [parse_end map concat fst snd app].
        rewrite !app_nil_r. change (blen []) with 0. lia.
Qed.

Lemma createAtom_parses_witness :
  exists b,
    createAtom (lit "mdat") (tag "audiodata") = Ok b /\
    blen b = 8 + blen (tag "audiodata") /\
    parseMP4Atoms b 0 None
    = Ok (if decide (tag "audiodata" = []) then []
          else [Atom (tag "mdat") 0 (8 + blen (tag "audiodata")) 8]).
Proof.
  apply (createAtom_parses "mdat" (tag "audiodata")).
  - split; [reflexivity|]. repeat constructor; vm_compute; reflexivity.
  - vm_compute. discriminate.
Defined.

(** ** UTF-8 *)

Lemma in_range_of_Z (lo hi z : Z) :
  0 <= z < 256 -> in_range lo hi (byte_of_Z z) = (lo <=? z) && (z <=? hi).
Proof.
  intros H. unfold in_range. rewrite byte_to_Z_of_Z, Z.mod_small by lia. reflexivity.
Qed.

Ltac leb_cases :=
  repeat match goal with
         | |- context [Z.leb ?a ?b] => destruct (Z.leb_spec a b); try lia
         end;
  cbn [andb orb negb]; try reflexivity.

Lemma valid_utf8_code_point (c : Z) (rest : list byte) :
  scalar_value c -> valid_utf8 (utf8_code_point c ++ rest) = valid_utf8 rest.
Proof.
  intros Hc. unfold scalar_value in Hc. unfold utf8_code_point.
  destruct (Z.ltb_spec c 128) as [L1|L1]; [|destruct (Z.ltb_spec c 2048) as [L2|L2]; [|destruct (Z.ltb_spec c 65536) as [L3|L3]]];
    cbn [app valid_utf8]; unfold cont.
  - rewrite !in_range_of_Z by lia. leb_cases.
  - assert (2 <= c / 64 <= 31) by (Z.div_mod_to_equations; lia).
    assert (0 <= c mod 64 < 64) by (Z.div_mod_to_equations; lia).
    generalize dependent (c / 64). generalize dependent (c mod 64). intros r Hr q Hq.
    rewrite !in_range_of_Z by lia. leb_cases.
  - assert (Hq : 0 <= c / 4096 <= 15) by (Z.div_mod_to_equations; lia).
    assert (Hm : 0 <= (c / 64) mod 64 < 64) by (Z.div_mod_to_equations; lia).
    assert (Hr : 0 <= c mod 64 < 64) by (Z.div_mod_to_equations; lia).
    assert (H0 : c / 4096 = 0 -> 32 <= (c / 64) mod 64) by (Z.div_mod_to_equations; lia).
    assert (H13 : c / 4096 = 13 -> (c / 64) mod 64 < 32) by (Z.div_mod_to_equations; lia).
    generalize dependent (c / 4096). generalize dependent ((c / 64) mod 64).
    generalize dependent (c mod 64). intros r Hr m Hm q Hq H0 H13.
    rewrite !in_range_of_Z by lia. leb_cases.
  - assert (Hq : 0 <= c / 262144 <= 4) by (Z.div_mod_to_equations; lia).
    assert (Hn : 0 <= (c / 4096) mod 64 < 64) by (Z.div_mod_to_equations; lia).
    assert (Hm : 0 <= (c / 64) mod 64 < 64) by (Z.div_mod_to_equations; lia).
    assert (Hr : 0 <= c mod 64 < 64) by (Z.div_mod_to_equations; lia).
    assert (H0 : c / 262144 = 0 -> 16 <= (c / 4096) mod 64) by (Z.div_mod_to_equations; lia).
    assert (H4 : c / 262144 = 4 -> (c / 4096) mod 64 < 16) by (Z.div_mod_to_equations; lia).
    generalize dependent (c / 262144). generalize dependent ((c / 4096) mod 64).
    generalize dependent ((c / 64) mod 64).
    generalize dependent (c mod 64). intros r Hr m Hm n Hn q Hq H0 H4.
    rewrite !in_range_of_Z by lia. leb_cases.
Qed.

Lemma valid_utf8_chunks (n : nat) :
  forall (s : js_string) (rest : list byte),
    (length s <= n)%nat -> Forall code_unit s ->
    valid_utf8 (concat (utf8_chunks s) ++ rest) = valid_utf8 rest.
Proof.
  induction n as [|n IH]; intros s rest Hn Hs.
  - destruct s; [reflexivity|cbn in Hn; lia].
  - destruct s as [|u r]; [reflexivity|].
    apply Forall_cons in Hs as [Hu Hr]. unfold code_unit in Hu.
    cbn [length] in Hn. cbn [utf8_chunks].
    unfold is_high_surrogate, is_low_surrogate.
    destruct (Z.leb_spec 55296 u); destruct (Z.leb_spec u 56319); cbn [andb].
    + destruct r as [|v r'].
      * cbn [concat app]. rewrite app_nil_r. unfold replacement.
        rewrite <- (app_nil_r (utf8_code_point 65533)) at 1. rewrite <- app_assoc.
        apply valid_utf8_code_point. unfold scalar_value. lia.
      * apply Forall_cons in Hr as Hvr. destruct Hvr as [Hv Hr'].
        unfold code_unit in Hv. cbn [length] in Hn.
        destruct (Z.leb_spec 56320 v); destruct (Z.leb_spec v 57343); cbn [andb concat];
          unfold replacement; rewrite <- app_assoc, valid_utf8_code_point;
          try (unfold scalar_value; lia);
          apply IH; try assumption; cbn [length]; lia.
    + destruct (Z.leb_spec 56320 u); destruct (Z.leb_spec u 57343); cbn [andb concat];
        unfold replacement; rewrite <- app_assoc;
        (rewrite valid_utf8_code_point by (unfold scalar_value; lia));
        apply IH; (lia || assumption).
    + destruct (Z.leb_spec 56320 u); destruct (Z.leb_spec u 57343); cbn [andb concat];
        unfold replacement; rewrite <- app_assoc;
        (rewrite valid_utf8_code_point by (unfold scalar_value; lia));
        apply IH; (lia || assumption).
    + lia.
Qed.

Lemma valid_utf8_Buffer_from (s : js_string) :
  Forall code_unit s -> valid_utf8 (Buffer_from_utf8 s) = true.
Proof.
  intros Hs. unfold Buffer_from_utf8.
  rewrite <- (app_nil_r (concat (utf8_chunks s))).
  by rewrite (valid_utf8_chunks (length s)).
Qed.

(** ** createKaidAtom *)

Lemma createKaidAtom_freeform kaidJson :
  61 + blen (Buffer_from_utf8 kaidJson) <= 2 ^ 32 - 1 ->
  createKaidAtom kaidJson
  = Ok (freeform_item "com.stems" "kaid" 1 0 (Buffer_from_utf8 kaidJson)).
Proof.
  intros Hsz. unfold createKaidAtom.
  set (json := Buffer_from_utf8 kaidJson) in *.
  pose proof (blen_nonneg json) as Hj.
  replace (writeUInt32BE (alloc (4 + Z.of_nat (length (lit "com.stems")))) 0 0)
    with (Ok (be_bytes 4 0 ++ alloc 9)) by (vm_compute; reflexivity).
  cbn [mbind result_bind].
  replace (write_utf8 (be_bytes 4 0 ++ alloc 9) (lit "com.stems") 4
             (Z.of_nat (length (lit "com.stems"))))
    with (be_bytes 4 0 ++ tag "com.stems") by (vm_compute; reflexivity).
  rewrite (createAtom_box "mean") by (reflexivity || (vm_compute; discriminate)).
  cbn [mbind result_bind].
  replace (writeUInt32BE (alloc (4 + Z.of_nat (length (lit "kaid")))) 0 0)
    with (Ok (be_bytes 4 0 ++ alloc 4)) by (vm_compute; reflexivity).
  cbn [mbind result_bind].
  replace (write_utf8 (be_bytes 4 0 ++ alloc 4) (lit "kaid") 4
             (Z.of_nat (length (lit "kaid"))))
    with (be_bytes 4 0 ++ tag "kaid") by (vm_compute; reflexivity).
  rewrite (createAtom_box "name") by (reflexivity || (vm_compute; discriminate)).
  cbn [mbind result_bind].
  replace (writeUInt32BE (alloc 8) 1 0) with (Ok (be_bytes 4 1 ++ alloc 4))
    by (vm_compute; reflexivity).
  cbn [mbind result_bind].
  replace (writeUInt32BE (be_bytes 4 1 ++ alloc 4) 0 4)
    with (Ok (be_bytes 4 1 ++ be_bytes 4 0)) by (vm_compute; reflexivity).
  cbn [mbind result_bind].
  assert (Hd : blen ((be_bytes 4 1 ++ be_bytes 4 0) ++ json) = 8 + blen json).
  { rewrite blen_app. reflexivity. }
  rewrite (createAtom_box "data") by (reflexivity || (rewrite Hd; lia)).
  cbn [mbind result_bind].
  rewrite (createAtom_box "----"); [|reflexivity|reflexivity|].
  - unfold freeform_item. by rewrite <- app_assoc.
  - rewrite !blen_app, !blen_box, Hd by reflexivity.
    change (blen (be_bytes 4 0 ++ tag "com.stems")) with 13.
    change (blen (be_bytes 4 0 ++ tag "kaid")) with 8. lia.
Qed.

(** X5.  For every JSON string that fits a 32-bit box, createKaidAtom
    returns the freeform item (com.stems, kaid) with type code 1 and locale 0:
    a '----' box whose children, as the parser of this file reads them, are
    exactly 'mean', 'name' and 'data' in this order, and whose value is
    well-formed UTF-8. *)
Theorem createKaidAtom_item (kaidJson : js_string) :
  Forall code_unit kaidJson ->
  61 + blen (Buffer_from_utf8 kaidJson) <= 2 ^ 32 - 1 ->
  exists b,
    createKaidAtom kaidJson = Ok b /\
    b = freeform_item "com.stems" "kaid" 1 0 (Buffer_from_utf8 kaidJson) /\
    parseMP4Atoms b 8 (Some (blen b - 8))
    = Ok [Atom (tag "mean") 8 21 16; Atom (tag "name") 29 16 37;
          Atom (tag "data") 45 (16 + blen (Buffer_from_utf8 kaidJson)) 53] /\
    valid_utf8 (Buffer_from_utf8 kaidJson) = true.
Proof.
  intros Hcu Hsz. eexists. split; [by apply createKaidAtom_freeform|].
  split; [reflexivity|]. split; [|by apply valid_utf8_Buffer_from].
  set (json := Buffer_from_utf8 kaidJson) in *.
  pose proof (blen_nonneg json) as Hj.
  set (bs := [("mean"%string, be_bytes 4 0 ++ tag "com.stems");
              ("name"%string, be_bytes 4 0 ++ tag "kaid");
              ("data"%string, be_bytes 4 1 ++ be_bytes 4 0 ++ json)]).
  assert (Hser : box "mean" (be_bytes 4 0 ++ tag "com.stems")
                 ++ box "name" (be_bytes 4 0 ++ tag "kaid")
                 ++ box "data" (be_bytes 4 1 ++ be_bytes 4 0 ++ json)
                 = ser_boxes bs).
  { unfold ser_boxes, bs. cbn [map concat fst snd]. by rewrite app_nil_r. }
  assert (Hlen : blen (ser_boxes bs) = 53 + blen json).
  { rewrite <- Hser. rewrite !blen_app, !blen_box by reflexivity.
    rewrite !blen_app. unfold blen at 1 2 3 4 5 6. cbn [length be_bytes tag].
    cbn. lia. }
  unfold freeform_item. rewrite Hser.
  replace (blen (box "----" (ser_boxes bs)) - 8) with (blen (ser_boxes bs))
    by (rewrite blen_box by reflexivity; lia).
  unfold box.
  set (pre := be_bytes 4 (8 + blen (ser_boxes bs))).
  replace (pre ++ tag "----" ++ ser_boxes bs)
    with ((pre ++ tag "----") ++ ser_boxes bs ++ []).
  2:{ by rewrite app_nil_r, <- app_assoc. }
  change 8 with (blen (pre ++ tag "----")) at 1.
  rewrite parse_boxes_in_range.
  - change (blen (pre ++ tag "----")) with 8. unfold bs. cbn [atoms_at fst snd].
    rewrite !blen_app. change (blen (be_bytes 4 0)) with 4.
    change (blen (be_bytes 4 1)) with 4. change (blen (tag "com.stems")) with 9.
    change (blen (tag "kaid")) with 4.
    repeat first [reflexivity | lia | f_equal].
  - unfold bs. repeat constructor; cbn [snd]; try reflexivity.
    + vm_compute. discriminate.
    + vm_compute. discriminate.
    + rewrite !blen_app. change (blen (be_bytes 4 1)) with 4.
      change (blen (be_bytes 4 0)) with 4. lia.
  - intros b [= <-]. discriminate.
  - discriminate.
Qed.

Lemma createKaidAtom_item_witness :
  exists b,
    createKaidAtom (lit "{}") = Ok b /\
    b = freeform_item "com.stems" "kaid" 1 0 (Buffer_from_utf8 (lit "{}")) /\
    parseMP4Atoms b 8 (Some (blen b - 8))
    = Ok [Atom (tag "mean") 8 21 16; Atom (tag "name") 29 16 37;
          Atom (tag "data") 45 (16 + blen (Buffer_from_utf8 (lit "{}"))) 53] /\
    valid_utf8 (Buffer_from_utf8 (lit "{}")) = true.
Proof.
  apply (createKaidAtom_item (lit "{}")).
  - repeat constructor; vm_compute; (discriminate || reflexivity).
  - vm_compute. discriminate.
Defined.

(** ** The chunk offset update keeps the buffer length *)

Lemma at_index_bounds (buffer : Buffer) (i : Z) (b : byte) :
  at_index buffer i = Some b -> 0 <= i < blen buffer.
Proof.
  unfold at_index, blen. destruct (Z.ltb_spec i 0) as [Hn|Hn]; [discriminate|].
  intros Hl. apply lookup_lt_Some in Hl. lia.
Qed.

Lemma writeUInt32BE_length (buffer b : Buffer) (value offset : Z) :
  writeUInt32BE buffer value offset = Ok b -> length b = length buffer.
Proof.
  unfold writeUInt32BE. destruct (orb _ _); [discriminate|].
  destruct (at_index buffer offset) eqn:H0; [|discriminate].
  destruct (at_index buffer (offset + 3)) eqn:H3; [|discriminate].
  intros [= <-]. apply at_index_bounds in H0, H3.
  apply length_overwrite; [lia|]. rewrite ?length_be_bytes. cbn [length be_bytes]. lia.
Qed.

Lemma writeBigUInt64BE_length (buffer b : Buffer) (value offset : Z) :
  writeBigUInt64BE buffer value offset = Ok b -> length b = length buffer.
Proof.
  unfold writeBigUInt64BE. destruct (orb _ _); [discriminate|].
  destruct (at_index buffer offset) eqn:H0; [|discriminate].
  destruct (at_index buffer (offset + 7)) eqn:H7; [|discriminate].
  intros [= <-]. apply at_index_bounds in H0, H7.
  apply length_overwrite; [lia|]. rewrite ?length_be_bytes. cbn [length be_bytes]. lia.
Qed.

Lemma stco_entries_length (n : nat) (i pos sizeDelta shiftThreshold : Z)
    (st : uco_state) :
  length (buf (stco_entries n i pos sizeDelta shiftThreshold st).1) = length (buf st).
Proof.
  revert i st. induction n as [|n IH]; intros i st; [reflexivity|].
  cbn [stco_entries].
  destruct (readUInt32BE _ _); [|reflexivity].
  destruct (_ <=? _); [|apply IH].
  destruct (writeUInt32BE _ _ _) as [b|] eqn:Hw; [|reflexivity].
  rewrite IH. cbn. by apply writeUInt32BE_length in Hw.
Qed.

Lemma co64_entries_length (n : nat) (i pos sizeDelta shiftThreshold : Z)
    (st : uco_state) :
  length (buf (co64_entries n i pos sizeDelta shiftThreshold st).1) = length (buf st).
Proof.
  revert i st. induction n as [|n IH]; intros i st; [reflexivity|].
  cbn [co64_entries].
  destruct (readBigUInt64BE _ _); [|reflexivity].
  destruct (_ <=? _); [|apply IH].
  destruct (writeBigUInt64BE _ _ _) as [b|] eqn:Hw; [|reflexivity].
  rewrite IH. cbn. by apply writeBigUInt64BE_length in Hw.
Qed.

Lemma searchAtoms_length (fuel : nat) (sizeDelta shiftThreshold : Z)
    (st st' : uco_state) (pos end_ : Z) :
  searchAtoms fuel sizeDelta shiftThreshold st pos end_ = Some st' ->
  length (buf st') = length (buf st).
Proof.
  revert st st' pos end_. induction fuel as [|fuel IH]; intros st st' pos end_;
    [discriminate|].
  cbn [searchAtoms].
  destruct (andb _ _); [|by intros [= <-]].
  destruct (readUInt32BE (buf st) pos) as [size|]; [|apply IH].
  destruct (orb _ _); [apply IH|].
  destruct (bool_decide _).
  { destruct (readUInt32BE _ (pos + 12)) as [n|]; [|intros H; by apply IH in H].
    pose proof (stco_entries_length (Z.to_nat n) 0 pos sizeDelta shiftThreshold
                  (incr_stcoCount st)) as Hl.
    destruct (stco_entries _ _ _ _ _ _) as [st1 [|e]]; intros H; apply IH in H;
      rewrite H; exact Hl. }
  destruct (bool_decide _).
  { destruct (readUInt32BE _ (pos + 12)) as [n|]; [|intros H; by apply IH in H].
    pose proof (co64_entries_length (Z.to_nat n) 0 pos sizeDelta shiftThreshold
                  (incr_co64Count st)) as Hl.
    destruct (co64_entries _ _ _ _ _ _) as [st1 [|e]]; intros H; apply IH in H;
      rewrite H; exact Hl. }
  destruct (is_container _); [|apply IH].
  destruct (searchAtoms fuel _ _ st _ _) as [st1|] eqn:H1; [|discriminate].
  intros H2. apply IH in H1, H2. congruence.
Qed.

Lemma updateChunkOffsets_run (moovBuffer : Buffer) (sizeDelta shiftThreshold : Z) :
  searchAtoms (search_fuel 0 (blen moovBuffer)) sizeDelta shiftThreshold
    (UcoState moovBuffer 0 0 0) 0 (blen moovBuffer)
  = Some (updateChunkOffsets moovBuffer sizeDelta shiftThreshold).
Proof.
  destruct (searchAtoms_enough (search_fuel 0 (blen moovBuffer)) sizeDelta
              shiftThreshold (UcoState moovBuffer 0 0 0) 0 (blen moovBuffer))
    as [st Hst]; [unfold search_fuel; lia|].
  specialize (Hst 0%nat). rewrite Nat.add_0_r in Hst.
  unfold updateChunkOffsets. by rewrite Hst.
Qed.

(** X6.  updateChunkOffsets only ever overwrites bytes in place: whatever
    the buffer holds, and whether or not some table makes an accessor raise,
    the buffer it leaves has the length of the buffer it was given. *)
Theorem updateChunkOffsets_length (moovBuffer : Buffer) (sizeDelta shiftThreshold : Z) :
  length (buf (updateChunkOffsets moovBuffer sizeDelta shiftThreshold))
  = length moovBuffer.
Proof.
  pose proof (updateChunkOffsets_run moovBuffer sizeDelta shiftThreshold) as H.
  by apply searchAtoms_length in H.
Qed.

(** ** Numbers *)

Lemma roundToDouble_exact (z : Z) : Z.abs z < 2 ^ 53 -> roundToDouble z = z.
Proof.
  intros Hz. unfold roundToDouble.
  assert (Z.log2 (Z.abs z) < 53).
  { destruct (Z.eq_dec (Z.abs z) 0) as [->|Hne]; [cbn; lia|].
    apply Z.log2_lt_pow2; lia. }
  destruct (Z.leb_spec (Z.log2 (Z.abs z) - 52) 0); [reflexivity|lia].
Qed.

Lemma js_add_exact (a b : Z) : Z.abs (a + b) < 2 ^ 53 -> js_add a b = a + b.
Proof. apply roundToDouble_exact. Qed.

(** Rounding never moves a value across the bounds of a 32-bit or 53-bit field. *)
Lemma roundToDouble_large (z : Z) :
  2 ^ 53 <= Z.abs z -> 2 ^ 53 <= Z.abs (roundToDouble z) /\ Z.sgn (roundToDouble z) = Z.sgn z.
Proof.
  intros Hz. unfold roundToDouble.
  set (a := Z.abs z) in *.
  assert (Ha : 0 < a) by lia.
  pose proof (Z.log2_spec a Ha) as [Hlo Hhi].
  assert (Hl : 53 <= Z.log2 a) by (apply Z.log2_le_pow2; lia).
  destruct (Z.leb_spec (Z.log2 a - 52) 0); [lia|].
  set (e := Z.log2 a - 52) in *.
  assert (He : 0 < 2 ^ e) by (apply Z.pow_pos_nonneg; lia).
  assert (Hq : 2 ^ 52 <= a / 2 ^ e).
  { apply Z.div_le_lower_bound; [lia|].
    rewrite <- Z.pow_add_r by lia. replace (e + 52) with (Z.log2 a) by lia. lia. }
  set (q' := if a mod 2 ^ e <? 2 ^ (e - 1) then a / 2 ^ e
             else if 2 ^ (e - 1) <? a mod 2 ^ e then a / 2 ^ e + 1
             else if Z.even (a / 2 ^ e) then a / 2 ^ e else a / 2 ^ e + 1).
  assert (Hq' : 2 ^ 52 <= q').
  { unfold q'. repeat destruct (_ <? _); try destruct (Z.even _); lia. }
  assert (2 ^ 53 <= q' * 2 ^ e).
  { assert (2 <= 2 ^ e).
    { change 2 with (2 ^ 1) at 1. apply Z.pow_le_mono_r; lia. }
    change (2 ^ 53) with (2 ^ 52 * 2). nia. }
  destruct (Z.sgn_spec z) as [[Hs ->]|[[Hs ->]|[Hs ->]]]; [|lia|].
  - rewrite Z.mul_1_l. split; [lia|]. apply Z.sgn_pos. lia.
  - split; [lia|]. apply Z.sgn_neg. lia.
Qed.

(** ** The loops over the table entries *)

Lemma count_from_cons (T o : Z) (es : list Z) :
  count_from T (o :: es) = (if T <=? o then 1 else 0) + count_from T es.
Proof.
  unfold count_from. rewrite filter_cons.
  destruct (decide (T <= o)); destruct (Z.leb_spec T o); try lia; cbn [length]; lia.
Qed.

Lemma stco_entries_shift (sizeDelta shiftThreshold : Z) (es : list Z) :
  forall (pre suf : Buffer) (i pos : Z) (st : uco_state),
    buf st = pre ++ entries32 es ++ suf ->
    blen pre = pos + 16 + i * 4 ->
    Forall (fun o => 0 <= o < 2 ^ 32) es ->
    Forall (fun o => shiftThreshold <= o -> 0 <= o + sizeDelta < 2 ^ 32) es ->
    stco_entries (length es) i pos sizeDelta shiftThreshold st
    = (UcoState (pre ++ entries32 (map (shift sizeDelta shiftThreshold) es) ++ suf)
         (stcoCount st) (co64Count st)
         (totalUpdated st + count_from shiftThreshold es),
       Normal).
Proof.
  induction es as [|o es IH]; intros pre suf i pos st Hbuf Hpos Hr Hs.
  - cbn [length stco_entries map]. destruct st; cbn in *. rewrite Hbuf.
    unfold count_from. cbn. by rewrite Z.add_0_r.
  - apply Forall_cons in Hr as [Ho Hr]. apply Forall_cons in Hs as [Hso Hs].
    cbn [length stco_entries map]. rewrite count_from_cons.
    unfold entries32 in *. cbn [map concat] in *. rewrite <- app_assoc in Hbuf.
    rewrite Hbuf, <- Hpos, readUInt32BE_be_bytes by assumption.
    unfold shift at 1.
    destruct (Z.leb_spec shiftThreshold o) as [Hge|Hlt].
    + specialize (Hso Hge). rewrite js_add_exact by lia.
      rewrite writeUInt32BE_app by (by rewrite ?length_be_bytes || lia).
      rewrite (IH (pre ++ be_bytes 4 (o + sizeDelta)) suf (i + 1) pos).
      * cbn [stcoCount co64Count totalUpdated incr_totalUpdated set_buf].
        rewrite <- !app_assoc. cbn [app]. do 2 f_equal. lia.
      * cbn. by rewrite <- app_assoc.
      * rewrite blen_app. unfold blen at 2. rewrite length_be_bytes. lia.
      * assumption.
      * assumption.
    + rewrite (IH (pre ++ be_bytes 4 o) suf (i + 1) pos).
      * rewrite <- !app_assoc. cbn [app]. do 2 f_equal.
      * rewrite Hbuf. by rewrite <- app_assoc.
      * rewrite blen_app. unfold blen at 2. rewrite length_be_bytes. lia.
      * assumption.
      * assumption.
Qed.

Lemma readBigUInt64BE_be_bytes (pre suf : Buffer) (v : Z) :
  0 <= v < 2 ^ 64 ->
  readBigUInt64BE (pre ++ be_bytes 8 v ++ suf) (blen pre) = Ok v.
Proof.
  intros Hv. unfold readBigUInt64BE.
  replace (blen pre) with (blen pre + 0) at 1 by lia.
  rewrite !at_index_app by lia.
  change ((be_bytes 8 v ++ suf) !! Z.to_nat 0)
    with (Some (byte_of_Z (v / 2 ^ (8 * Z.of_nat 7)))).
  change ((be_bytes 8 v ++ suf) !! Z.to_nat 7)
    with (Some (byte_of_Z (v / 2 ^ (8 * Z.of_nat 0)))).
  cbn [be_bytes app].
  unfold blen, Buffer in *. rewrite Nat2Z.id, drop_app_length.
  change (take 8 (?a :: ?b :: ?c :: ?d :: ?e :: ?f :: ?g :: ?h :: suf))
    with [a; b; c; d; e; f; g; h].
  pose proof (be_value_be_bytes 8 v) as H. cbn [be_bytes] in H.
  rewrite H. f_equal. apply Z.mod_small. cbn. lia.
Qed.

Lemma writeBigUInt64BE_app (pre suf : Buffer) (old : list byte) (v : Z) :
  length old = 8%nat -> 0 <= v < 2 ^ 64 ->
  writeBigUInt64BE (pre ++ old ++ suf) v (blen pre) = Ok (pre ++ be_bytes 8 v ++ suf).
Proof.
  intros Hl Hv. unfold writeBigUInt64BE.
  destruct (Z.ltb_spec v 0); [lia|].
  destruct (Z.ltb_spec (2 ^ 64 - 1) v); [lia|]. cbn [orb].
  destruct old as [|b0 [|b1 [|b2 [|b3 [|b4 [|b5 [|b6 [|b7 [|]]]]]]]]]; try discriminate.
  replace (blen pre) with (blen pre + 0) at 1 by lia.
  rewrite !at_index_app by lia.
  cbn [lookup list_lookup Z.to_nat Pos.to_nat Pos.iter_op Nat.add].
  change (pre ++ b0 :: b1 :: b2 :: b3 :: b4 :: b5 :: b6 :: b7 :: suf)
    with (pre ++ [b0; b1; b2; b3; b4; b5; b6; b7] ++ suf).
  rewrite overwrite_app; [reflexivity|]. by rewrite length_be_bytes.
Qed.

Lemma co64_entries_shift (sizeDelta shiftThreshold : Z) (es : list Z) :
  forall (pre suf : Buffer) (i pos : Z) (st : uco_state),
    buf st = pre ++ entries64 es ++ suf ->
    blen pre = pos + 16 + i * 8 ->
    Forall (fun o => 0 <= o < 2 ^ 53) es ->
    Forall (fun o => shiftThreshold <= o -> 0 <= o + sizeDelta < 2 ^ 53) es ->
    co64_entries (length es) i pos sizeDelta shiftThreshold st
    = (UcoState (pre ++ entries64 (map (shift sizeDelta shiftThreshold) es) ++ suf)
         (stcoCount st) (co64Count st)
         (totalUpdated st + count_from shiftThreshold es),
       Normal).
Proof.
  induction es as [|o es IH]; intros pre suf i pos st Hbuf Hpos Hr Hs.
  - cbn [length co64_entries map]. destruct st; cbn in *. rewrite Hbuf.
    unfold count_from. cbn. by rewrite Z.add_0_r.
  - apply Forall_cons in Hr as [Ho Hr]. apply Forall_cons in Hs as [Hso Hs].
    cbn [length co64_entries map]. rewrite count_from_cons.
    unfold entries64 in *. cbn [map concat] in *. rewrite <- app_assoc in Hbuf.
    assert (2 ^ 53 < 2 ^ 64) by (cbn; lia).
    rewrite Hbuf, <- Hpos, readBigUInt64BE_be_bytes by lia.
    rewrite roundToDouble_exact by lia.
    unfold shift at 1.
    destruct (Z.leb_spec shiftThreshold o) as [Hge|Hlt].
    + specialize (Hso Hge). rewrite js_add_exact by lia.
      rewrite writeBigUInt64BE_app by (by rewrite ?length_be_bytes || lia).
      rewrite (IH (pre ++ be_bytes 8 (o + sizeDelta)) suf (i + 1) pos).
      * cbn [stcoCount co64Count totalUpdated incr_totalUpdated set_buf].
        rewrite <- !app_assoc. cbn [app]. do 2 f_equal. lia.
      * cbn. by rewrite <- app_assoc.
      * rewrite blen_app. unfold blen at 2. rewrite length_be_bytes. lia.
      * assumption.
      * assumption.
    + rewrite (IH (pre ++ be_bytes 8 o) suf (i + 1) pos).
      * rewrite <- !app_assoc. cbn [app]. do 2 f_equal.
      * rewrite Hbuf. by rewrite <- app_assoc.
      * rewrite blen_app. unfold blen at 2. rewrite length_be_bytes. lia.
      * assumption.
      * assumption.
Qed.

Lemma js_add_in_range (a b hi : Z) :
  0 <= hi < 2 ^ 53 -> 0 <= js_add a b <= hi -> 0 <= a + b <= hi.
Proof.
  intros Hhi Hr. unfold js_add in *.
  destruct (Z_lt_le_dec (Z.abs (a + b)) (2 ^ 53)) as [Hs|Hl].
  - by rewrite roundToDouble_exact in Hr.
  - apply roundToDouble_large in Hl as [Hl _]. lia.
Qed.

(** X7.  When moving an stco entry would leave the 32-bit range, the loop
    over the table ends there with a RangeError: the entries before it have
    been moved and counted, that entry and every entry after it keep the
    value they had, and nothing outside the table is touched. *)
Theorem stco_entries_stops (sizeDelta shiftThreshold o : Z) (es1 es2 : list Z) :
  forall (pre suf : Buffer) (i pos : Z) (st : uco_state),
    buf st = pre ++ entries32 (es1 ++ o :: es2) ++ suf ->
    blen pre = pos + 16 + i * 4 ->
    Forall (fun o => 0 <= o < 2 ^ 32) (es1 ++ [o]) ->
    Forall (fun o => shiftThreshold <= o -> 0 <= o + sizeDelta < 2 ^ 32) es1 ->
    shiftThreshold <= o -> ~ 0 <= o + sizeDelta <= 2 ^ 32 - 1 ->
    stco_entries (length (es1 ++ o :: es2)) i pos sizeDelta shiftThreshold st
    = (UcoState
         (pre ++ entries32 (map (shift sizeDelta shiftThreshold) es1 ++ o :: es2) ++ suf)
         (stcoCount st) (co64Count st)
         (totalUpdated st + count_from shiftThreshold es1),
       Abrupt RangeError).
Proof.
  induction es1 as [|e es1 IH]; intros pre suf i pos st Hbuf Hpos Hr Hs Hge Hov.
  - cbn [app length stco_entries map] in *.
    apply Forall_cons in Hr as [Ho _].
    unfold entries32 in *. cbn [map concat] in *. rewrite <- app_assoc in Hbuf.
    rewrite Hbuf, <- Hpos, readUInt32BE_be_bytes by assumption.
    destruct (Z.leb_spec shiftThreshold o); [|lia].
    unfold writeUInt32BE.
    destruct (orb _ _) eqn:Hc.
    + unfold count_from. cbn [filter list_filter length Z.of_nat].
      rewrite Z.add_0_r, <- app_assoc, <- Hbuf. by destruct st.
    + exfalso. apply Hov. apply js_add_in_range; [cbn; lia|].
      apply orb_false_iff in Hc as [H1 H2].
      apply Z.ltb_ge in H1, H2. lia.
  - cbn [app] in Hr. apply Forall_cons in Hr as [He Hr].
    apply Forall_cons in Hs as [Hse Hs].
    cbn [app length stco_entries map]. rewrite count_from_cons.
    unfold entries32 in *. cbn [app map concat] in *. rewrite <- app_assoc in Hbuf.
    rewrite Hbuf, <- Hpos, readUInt32BE_be_bytes by assumption.
    unfold shift at 1.
    destruct (Z.leb_spec shiftThreshold e) as [Hge'|Hlt].
    + specialize (Hse Hge'). rewrite js_add_exact by lia.
      rewrite writeUInt32BE_app by (by rewrite ?length_be_bytes || lia).
      rewrite (IH (pre ++ be_bytes 4 (e + sizeDelta)) suf (i + 1) pos); try assumption.
      * cbn [stcoCount co64Count totalUpdated incr_totalUpdated set_buf].
        rewrite <- !app_assoc. cbn [app]. do 2 f_equal. lia.
      * cbn. by rewrite <- app_assoc.
      * rewrite blen_app. unfold blen at 2. rewrite length_be_bytes. lia.
    + rewrite (IH (pre ++ be_bytes 4 e) suf (i + 1) pos); try assumption.
      * rewrite <- !app_assoc. cbn [app]. do 2 f_equal.
      * rewrite Hbuf. by rewrite <- app_assoc.
      * rewrite blen_app. unfold blen at 2. rewrite length_be_bytes. lia.
Qed.

Lemma stco_entries_stops_witness :
  stco_entries (length ([100; 300] ++ 4294967295 :: [500])) 0 0 10 200
    (UcoState (alloc 16 ++ entries32 ([100; 300] ++ 4294967295 :: [500]) ++ []) 0 0 0)
  = (UcoState
       (alloc 16 ++ entries32 (map (shift 10 200) [100; 300] ++ 4294967295 :: [500]) ++ [])
       0 0 (0 + count_from 200 [100; 300]),
     Abrupt RangeError).
Proof.
  apply (stco_entries_stops 10 200 4294967295 [100; 300] [500] (alloc 16) [] 0 0
           (UcoState (alloc 16 ++ entries32 ([100; 300] ++ 4294967295 :: [500]) ++ [])
              0 0 0)).
  - reflexivity.
  - reflexivity.
  - repeat constructor; lia.
  - repeat constructor; lia.
  - lia.
  - lia.
Defined.

(** ** The chunk offset update on a box tree *)

Lemma length_entries32 (es : list Z) : blen (entries32 es) = 4 * Z.of_nat (length es).
Proof.
  unfold entries32. induction es as [|o es IH]; [reflexivity|].
  cbn [map concat length]. rewrite blen_app, IH. unfold blen.
  rewrite length_be_bytes. lia.
Qed.

Lemma length_entries64 (es : list Z) : blen (entries64 es) = 8 * Z.of_nat (length es).
Proof.
  unfold entries64. induction es as [|o es IH]; [reflexivity|].
  cbn [map concat length]. rewrite blen_app, IH. unfold blen.
  rewrite length_be_bytes. lia.
Qed.

Lemma blen_ser_shift (sizeDelta shiftThreshold : Z) (m : mbox) :
  blen (ser (shift_box sizeDelta shiftThreshold m)) = blen (ser m).
Proof.
  induction m as [t p|t cs IH|f es|f es] using mbox_ind'; cbn [shift_box ser].
  - reflexivity.
  - unfold box. rewrite !blen_app.
    assert (Hc : blen (concat (map ser (map (shift_box sizeDelta shiftThreshold) cs)))
                 = blen (concat (map ser cs))).
    { induction IH as [|c cs Hc _ IHcs]; [reflexivity|].
      cbn [map concat]. rewrite !blen_app. lia. }
    rewrite Hc. unfold blen at 1 4. by rewrite !length_be_bytes.
  - unfold box. rewrite !blen_app, !length_entries32, length_map.
    unfold blen. by rewrite !length_be_bytes.
  - unfold box. rewrite !blen_app, !length_entries64, length_map.
    unfold blen. by rewrite !length_be_bytes.
Qed.

Lemma blen_ser_list_shift (sizeDelta shiftThreshold : Z) (ms : list mbox) :
  blen (ser_list (map (shift_box sizeDelta shiftThreshold) ms)) = blen (ser_list ms).
Proof.
  unfold ser_list. induction ms as [|m ms IH]; [reflexivity|].
  cbn [map concat]. rewrite !blen_app, IH, blen_ser_shift. reflexivity.
Qed.

Lemma container_tag (t : string) :
  is_container (tag t) = true ->
  length (tag t) = 4%nat /\ tag t <> tag "stco" /\ tag t <> tag "co64".
Proof.
  unfold is_container. intros H. apply bool_decide_eq_true in H.
  repeat (apply elem_of_cons in H as [->|H]; [by repeat split|]).
  by apply elem_of_nil in H.
Qed.

Lemma rewritable_tag (sizeDelta shiftThreshold : Z) (m : mbox) :
  rewritable sizeDelta shiftThreshold m ->
  exists t payload, ser m = box t payload /\ length (tag t) = 4%nat
                    /\ 8 + blen payload <= 2 ^ 32 - 1.
Proof.
  intros H. destruct H as [t p Ht _ _ _ Hs|t cs Hc _ Hs|f es Hf _ _ Hs|f es Hf _ _ Hs];
    cbn [ser]; eexists _, _; (split; [reflexivity|]).
  - by split.
  - apply container_tag in Hc as [Hl _]. by split.
  - split; [reflexivity|]. rewrite !blen_app, length_entries32.
    unfold blen. rewrite length_be_bytes, Hf. lia.
  - split; [reflexivity|]. rewrite !blen_app, length_entries64.
    unfold blen. rewrite length_be_bytes, Hf. lia.
Qed.

Lemma searchAtoms_header (fuel : nat) (sizeDelta shiftThreshold : Z)
    (st : uco_state) (pre suf : Buffer) (t : string) (payload : Buffer) (end_ : Z) :
  buf st = pre ++ box t payload ++ suf ->
  length (tag t) = 4%nat -> 8 + blen payload <= 2 ^ 32 - 1 ->
  blen pre < end_ - 8 -> 8 + blen payload <= end_ - blen pre ->
  end_ <= blen (buf st) ->
  searchAtoms (S fuel) sizeDelta shiftThreshold st (blen pre) end_
  = let pos := blen pre in
    let size := 8 + blen payload in
    if bool_decide (tag t = tag "stco") then
      let st := incr_stcoCount st in
      match readUInt32BE (buf st) (pos + 12) with
      | Throw _ => searchAtoms fuel sizeDelta shiftThreshold st (pos + 8) end_
      | Ok entryCount =>
          match stco_entries (Z.to_nat entryCount) 0 pos sizeDelta shiftThreshold st with
          | (st', Normal) =>
              searchAtoms fuel sizeDelta shiftThreshold st' (pos + size) end_
          | (st', Abrupt _) =>
              searchAtoms fuel sizeDelta shiftThreshold st' (pos + 8) end_
          end
      end
    else if bool_decide (tag t = tag "co64") then
      let st := incr_co64Count st in
      match readUInt32BE (buf st) (pos + 12) with
      | Throw _ => searchAtoms fuel sizeDelta shiftThreshold st (pos + 8) end_
      | Ok entryCount =>
          match co64_entries (Z.to_nat entryCount) 0 pos sizeDelta shiftThreshold st with
          | (st', Normal) =>
              searchAtoms fuel sizeDelta shiftThreshold st' (pos + size) end_
          | (st', Abrupt _) =>
              searchAtoms fuel sizeDelta shiftThreshold st' (pos + 8) end_
          end
      end
    else if is_container (tag t) then
      match searchAtoms fuel sizeDelta shiftThreshold st (pos + 8) (pos + size) with
      | Some st' => searchAtoms fuel sizeDelta shiftThreshold st' (pos + size) end_
      | None => None
      end
    else searchAtoms fuel sizeDelta shiftThreshold st (pos + size) end_.
Proof.
  intros Hbuf Ht Hsz Hlt Hfit Hend. cbn zeta. cbn [searchAtoms].
  pose proof (blen_nonneg payload) as Hp. pose proof (blen_nonneg suf) as Hs.
  assert (Hlen : blen (buf st) = blen pre + (8 + blen payload) + blen suf).
  { rewrite Hbuf, !blen_app, blen_box by assumption. lia. }
  destruct (Z.ltb_spec (blen pre) (end_ - 8)); [|lia].
  destruct (Z.ltb_spec (blen pre) (blen (buf st) - 8)); [|lia]. cbn [andb].
  assert (Hread : readUInt32BE (buf st) (blen pre) = Ok (8 + blen payload)).
  { rewrite Hbuf. unfold box. rewrite <- !app_assoc.
    apply readUInt32BE_be_bytes. lia. }
  rewrite Hread.
  destruct (Z.ltb_spec (8 + blen payload) 8); [lia|].
  destruct (Z.ltb_spec (end_ - blen pre) (8 + blen payload)); [lia|]. cbn [orb].
  assert (Htag : toString_range (buf st) (blen pre + 4) (blen pre + 8) = tag t).
  { rewrite Hbuf. unfold box. rewrite <- !app_assoc.
    apply toString_range_app; [by rewrite length_be_bytes|assumption]. }
  rewrite Htag. reflexivity.
Qed.

Lemma blen_ser_rewritable (sizeDelta shiftThreshold : Z) (m : mbox) :
  rewritable sizeDelta shiftThreshold m -> 8 <= blen (ser m).
Proof.
  intros H. apply rewritable_tag in H as (t & p & -> & Ht & _).
  rewrite blen_box by assumption. pose proof (blen_nonneg p). lia.
Qed.

Lemma ser_list_cons (m : mbox) (ms : list mbox) :
  ser_list (m :: ms) = ser m ++ ser_list ms.
Proof. reflexivity. Qed.

Lemma ser_list_empty (sizeDelta shiftThreshold : Z) (ms : list mbox) :
  Forall (rewritable sizeDelta shiftThreshold) ms -> blen (ser_list ms) = 0 -> ms = [].
Proof.
  intros H Hl. destruct H as [|m ms Hm _]; [reflexivity|].
  rewrite ser_list_cons, blen_app in Hl.
  apply blen_ser_rewritable in Hm. pose proof (blen_nonneg (ser_list ms)). lia.
Qed.

Lemma blen_zero (b : Buffer) : blen b = 0 -> b = [].
Proof. unfold blen. destruct b; [reflexivity|cbn [length]; lia]. Qed.

Lemma uco_state_eta (st : uco_state) (b : Buffer) :
  buf st = b ->
  st = UcoState b (stcoCount st + 0) (co64Count st + 0) (totalUpdated st + 0).
Proof. intros <-. destruct st; cbn. by rewrite !Z.add_0_r. Qed.

Lemma ser_box (m : mbox) : ser m = box (mbox_tag m) (mbox_payload m).
Proof. by destruct m. Qed.

Lemma rewritable_box (sizeDelta shiftThreshold : Z) (m : mbox) :
  rewritable sizeDelta shiftThreshold m ->
  length (tag (mbox_tag m)) = 4%nat /\ 8 + blen (mbox_payload m) <= 2 ^ 32 - 1.
Proof.
  intros H. destruct H as [t p Ht _ _ _ Hs|t cs Hc _ Hs|f es Hf _ _ Hs|f es Hf _ _ Hs];
    cbn [mbox_tag mbox_payload].
  - by split.
  - apply container_tag in Hc as [Hl _]. by split.
  - split; [reflexivity|]. rewrite !blen_app, length_entries32.
    unfold blen. rewrite length_be_bytes, Hf. lia.
  - split; [reflexivity|]. rewrite !blen_app, length_entries64.
    unfold blen. rewrite length_be_bytes, Hf. lia.
Qed.

Lemma search_boxes (sizeDelta shiftThreshold : Z) (fuel : nat) :
  forall (cs : list mbox) (pre suf : Buffer) (st st' : uco_state),
    Forall (rewritable sizeDelta shiftThreshold) cs ->
    buf st = pre ++ ser_list cs ++ suf ->
    searchAtoms fuel sizeDelta shiftThreshold st (blen pre)
      (blen pre + blen (ser_list cs)) = Some st' ->
    st' = UcoState (pre ++ ser_list (map (shift_box sizeDelta shiftThreshold) cs) ++ suf)
            (stcoCount st + sumZ (map stco_tables cs))
            (co64Count st + sumZ (map co64_tables cs))
            (totalUpdated st + sumZ (map (entries_from shiftThreshold) cs)).
Proof.
  induction fuel as [|fuel IH]; intros cs pre suf st st' Hcs Hbuf Hrun; [discriminate|].
  destruct cs as [|c rest].
  - cbn [searchAtoms] in Hrun. change (blen (ser_list [])) with 0 in Hrun.
    destruct (Z.ltb_spec (blen pre) (blen pre + 0 - 8)); [lia|].
    cbn [andb] in Hrun. injection Hrun as <-. by apply uco_state_eta.
  - apply Forall_cons in Hcs as [Hc Hrest].
    pose proof (blen_nonneg (ser_list rest)) as Hr0.
    pose proof (blen_nonneg suf) as Hs0.
    pose proof (rewritable_box _ _ _ Hc) as [Ht Hsz].
    pose proof (blen_nonneg (mbox_payload c)) as Hp0.
    rewrite ser_list_cons, ser_box in Hbuf, Hrun.
    rewrite blen_app, blen_box in Hrun by assumption.
    destruct (Z.eq_dec (blen (mbox_payload c) + blen (ser_list rest)) 0) as [Hz|Hnz].
    + (* a bare header at the end of the range: the loop does not run *)
      assert (rest = []) as -> by (eapply ser_list_empty; [eassumption|lia]).
      cbn [searchAtoms] in Hrun.
      destruct (Z.ltb_spec (blen pre)
                  (blen pre + (8 + blen (mbox_payload c) + blen (ser_list [])) - 8));
        [lia|].
      cbn [andb] in Hrun. injection Hrun as <-.
      assert (Hsame : shift_box sizeDelta shiftThreshold c = c
                      /\ stco_tables c = 0 /\ co64_tables c = 0
                      /\ entries_from shiftThreshold c = 0).
      { destruct Hc as [t' p' _ _ _ _ _|t' cs' Hct Hcs' _|f es Hf _ _ _|f es Hf _ _ _];
          cbn [mbox_payload shift_box stco_tables co64_tables entries_from] in *.
        - done.
        - assert (cs' = []) as -> by (eapply ser_list_empty; [eassumption|lia]).
          done.
        - rewrite !blen_app in Hz.
          pose proof (blen_nonneg (entries32 es)). unfold blen in Hz at 1 2.
          rewrite length_be_bytes, Hf in Hz. lia.
        - rewrite !blen_app in Hz.
          pose proof (blen_nonneg (entries64 es)). unfold blen in Hz at 1 2.
          rewrite length_be_bytes, Hf in Hz. lia. }
      destruct Hsame as (Hsh & H1 & H2 & H3).
      cbn [map sumZ foldr]. rewrite Hsh, H1, H2, H3, ser_list_cons, ser_box.
      by apply uco_state_eta.
    + rewrite <- app_assoc in Hbuf.
      rewrite (searchAtoms_header fuel sizeDelta shiftThreshold st pre
                 (ser_list rest ++ suf) (mbox_tag c) (mbox_payload c)) in Hrun;
        [|assumption|assumption|assumption|lia|lia|].
      2:{ rewrite Hbuf, !blen_app, blen_box by assumption. lia. }
      cbn zeta in Hrun.
      set (hdr := be_bytes 4 (8 + blen (mbox_payload c)) ++ tag (mbox_tag c)).
      assert (Hhdr : blen hdr = 8).
      { unfold hdr. rewrite blen_app. unfold blen. rewrite length_be_bytes, Ht. lia. }
      destruct Hc as [t' p' Ht' Hns Hnc Hncont Hsz'|t' cs' Hct Hcs' Hsz'
                     |f es Hf Hr Hs Hsz'|f es Hf Hr Hs Hsz'];
        cbn [mbox_tag mbox_payload] in *.
      * (* a box the search steps over *)
        rewrite !bool_decide_eq_false_2 in Hrun by assumption.
        rewrite Hncont in Hrun.
        replace (blen pre + (8 + blen p')) with (blen (pre ++ box t' p')) in Hrun
          by (rewrite blen_app, blen_box by assumption; lia).
        replace (blen pre + (8 + blen p' + blen (ser_list rest)))
          with (blen (pre ++ box t' p') + blen (ser_list rest)) in Hrun
          by (rewrite blen_app, blen_box by assumption; lia).
        apply (IH rest (pre ++ box t' p') suf) in Hrun;
          [|assumption|by rewrite Hbuf, <- app_assoc].
        rewrite Hrun. cbn [map shift_box stco_tables co64_tables entries_from sumZ foldr].
        rewrite ser_list_cons. cbn [ser]. rewrite <- !app_assoc.
        f_equal; lia.
      * (* a container: the nested search, then the rest of the range *)
        pose proof (container_tag _ Hct) as (_ & Hns & Hnc).
        rewrite !bool_decide_eq_false_2 in Hrun by assumption.
        rewrite Hct in Hrun.
        destruct (searchAtoms fuel sizeDelta shiftThreshold st (blen pre + 8)
                    (blen pre + (8 + blen (ser_list cs')))) as [st1|] eqn:H1;
          [|discriminate].
        replace (blen pre + 8) with (blen (pre ++ hdr)) in H1
          by (rewrite blen_app; lia).
        replace (blen pre + (8 + blen (ser_list cs')))
          with (blen (pre ++ hdr) + blen (ser_list cs')) in H1
          by (rewrite blen_app; lia).
        apply (IH cs' (pre ++ hdr) (ser_list rest ++ suf)) in H1;
          [|assumption|].
        2:{ rewrite Hbuf. unfold box, hdr. by rewrite <- !app_assoc. }
        set (cs2 := map (shift_box sizeDelta shiftThreshold) cs') in *.
        assert (Hl2 : blen (ser_list cs2) = blen (ser_list cs'))
          by apply blen_ser_list_shift.
        replace (blen pre + (8 + blen (ser_list cs')))
          with (blen (pre ++ box t' (ser_list cs2))) in Hrun
          by (rewrite blen_app, blen_box by assumption; lia).
        replace (blen pre + (8 + blen (ser_list cs') + blen (ser_list rest)))
          with (blen (pre ++ box t' (ser_list cs2)) + blen (ser_list rest)) in Hrun
          by (rewrite blen_app, blen_box by assumption; lia).
        apply (IH rest (pre ++ box t' (ser_list cs2)) suf) in Hrun; [|assumption|].
        2:{ rewrite H1. cbn [buf]. unfold box, hdr. rewrite Hl2.
            by rewrite <- !app_assoc. }
        rewrite Hrun, H1.
        cbn [map shift_box stco_tables co64_tables entries_from sumZ foldr
             stcoCount co64Count totalUpdated].
        rewrite ser_list_cons. cbn [ser]. fold cs2. fold (ser_list cs2).
        rewrite <- !app_assoc. f_equal; unfold sumZ; lia.
      * (* an stco table *)
        rewrite bool_decide_eq_true_2 in Hrun by reflexivity.
        cbn [buf incr_stcoCount] in Hrun.
        assert (Hn : 0 <= Z.of_nat (length es) < 2 ^ 32) by lia.
        set (n := Z.of_nat (length es)) in *.
        assert (Hb2 : buf st = (pre ++ hdr ++ f) ++ be_bytes 4 n
                                ++ entries32 es ++ ser_list rest ++ suf).
        { rewrite Hbuf. unfold box, hdr. by rewrite <- !app_assoc. }
        assert (Hl12 : blen (pre ++ hdr ++ f) = blen pre + 12).
        { rewrite !blen_app, Hhdr. unfold blen. rewrite Hf. lia. }
        rewrite Hb2, <- Hl12, readUInt32BE_be_bytes in Hrun by assumption.
        unfold n in Hrun at 1. rewrite Nat2Z.id in Hrun.
        rewrite (stco_entries_shift sizeDelta shiftThreshold es
                   ((pre ++ hdr ++ f) ++ be_bytes 4 n) (ser_list rest ++ suf) 0 (blen pre))
          in Hrun; [|cbn [buf incr_stcoCount incr_co64Count]; rewrite Hb2; by rewrite <- !app_assoc| |assumption|assumption].
        2:{ rewrite blen_app, Hl12. unfold blen. rewrite length_be_bytes. lia. }
        cbn [stcoCount co64Count totalUpdated incr_stcoCount] in Hrun.
        set (es2 := map (shift sizeDelta shiftThreshold) es) in *.
        assert (Hle : blen (entries32 es2) = blen (entries32 es)).
        { unfold es2. by rewrite !length_entries32, length_map. }
        assert (Hn2 : Z.of_nat (length es2) = n) by (unfold es2, n; by rewrite length_map).
        assert (Hbox : box "stco" (f ++ be_bytes 4 (Z.of_nat (length es2)) ++ entries32 es2)
                       = hdr ++ f ++ be_bytes 4 n ++ entries32 es2).
        { unfold box, hdr. rewrite Hn2, !blen_app, Hle, <- !app_assoc. reflexivity. }
        assert (Hbl : blen (box "stco" (f ++ be_bytes 4 (Z.of_nat (length es2))
                                          ++ entries32 es2))
                      = 8 + blen (f ++ be_bytes 4 n ++ entries32 es)).
        { rewrite blen_box by reflexivity. rewrite Hn2, !blen_app, Hle. reflexivity. }
        match type of Hrun with
        | searchAtoms _ _ _ ?s _ _ = _ => set (st1 := s) in *
        end.
        set (tbl := box "stco" (f ++ be_bytes 4 (Z.of_nat (length es2)) ++ entries32 es2))
          in *.
        replace (blen pre + (8 + blen (f ++ be_bytes 4 n ++ entries32 es)))
          with (blen (pre ++ tbl)) in Hrun by (rewrite blen_app, Hbl; lia).
        replace (blen pre + (8 + blen (f ++ be_bytes 4 n ++ entries32 es)
                             + blen (ser_list rest)))
          with (blen (pre ++ tbl) + blen (ser_list rest)) in Hrun
          by (rewrite blen_app, Hbl; lia).
        apply (IH rest (pre ++ tbl) suf) in Hrun; [|assumption|].
        2:{ unfold st1. cbn [buf]. rewrite Hbox. by rewrite <- !app_assoc. }
        rewrite Hrun. unfold st1.
        cbn [map shift_box stco_tables co64_tables entries_from sumZ foldr
             stcoCount co64Count totalUpdated].
        rewrite ser_list_cons. cbn [ser]. fold es2. fold tbl.
        rewrite <- !app_assoc. f_equal; unfold sumZ; lia.
      * (* an co64 table *)
        rewrite bool_decide_eq_false_2 in Hrun by discriminate.
        rewrite bool_decide_eq_true_2 in Hrun by reflexivity.
        cbn [buf incr_co64Count] in Hrun.
        assert (Hn : 0 <= Z.of_nat (length es) < 2 ^ 32) by lia.
        set (n := Z.of_nat (length es)) in *.
        assert (Hb2 : buf st = (pre ++ hdr ++ f) ++ be_bytes 4 n
                                ++ entries64 es ++ ser_list rest ++ suf).
        { rewrite Hbuf. unfold box, hdr. by rewrite <- !app_assoc. }
        assert (Hl12 : blen (pre ++ hdr ++ f) = blen pre + 12).
        { rewrite !blen_app, Hhdr. unfold blen. rewrite Hf. lia. }
        rewrite Hb2, <- Hl12, readUInt32BE_be_bytes in Hrun by assumption.
        unfold n in Hrun at 1. rewrite Nat2Z.id in Hrun.
        rewrite (co64_entries_shift sizeDelta shiftThreshold es
                   ((pre ++ hdr ++ f) ++ be_bytes 4 n) (ser_list rest ++ suf) 0 (blen pre))
          in Hrun; [|cbn [buf incr_stcoCount incr_co64Count]; rewrite Hb2; by rewrite <- !app_assoc| |assumption|assumption].
        2:{ rewrite blen_app, Hl12. unfold blen. rewrite length_be_bytes. lia. }
        cbn [stcoCount co64Count totalUpdated incr_co64Count] in Hrun.
        set (es2 := map (shift sizeDelta shiftThreshold) es) in *.
        assert (Hle : blen (entries64 es2) = blen (entries64 es)).
        { unfold es2. by rewrite !length_entries64, length_map. }
        assert (Hn2 : Z.of_nat (length es2) = n) by (unfold es2, n; by rewrite length_map).
        assert (Hbox : box "co64" (f ++ be_bytes 4 (Z.of_nat (length es2)) ++ entries64 es2)
                       = hdr ++ f ++ be_bytes 4 n ++ entries64 es2).
        { unfold box, hdr. rewrite Hn2, !blen_app, Hle, <- !app_assoc. reflexivity. }
        assert (Hbl : blen (box "co64" (f ++ be_bytes 4 (Z.of_nat (length es2))
                                          ++ entries64 es2))
                      = 8 + blen (f ++ be_bytes 4 n ++ entries64 es)).
        { rewrite blen_box by reflexivity. rewrite Hn2, !blen_app, Hle. reflexivity. }
        match type of Hrun with
        | searchAtoms _ _ _ ?s _ _ = _ => set (st1 := s) in *
        end.
        set (tbl := box "co64" (f ++ be_bytes 4 (Z.of_nat (length es2)) ++ entries64 es2))
          in *.
        replace (blen pre + (8 + blen (f ++ be_bytes 4 n ++ entries64 es)))
          with (blen (pre ++ tbl)) in Hrun by (rewrite blen_app, Hbl; lia).
        replace (blen pre + (8 + blen (f ++ be_bytes 4 n ++ entries64 es)
                             + blen (ser_list rest)))
          with (blen (pre ++ tbl) + blen (ser_list rest)) in Hrun
          by (rewrite blen_app, Hbl; lia).
        apply (IH rest (pre ++ tbl) suf) in Hrun; [|assumption|].
        2:{ unfold st1. cbn [buf]. rewrite Hbox. by rewrite <- !app_assoc. }
        rewrite Hrun. unfold st1.
        cbn [map shift_box stco_tables co64_tables entries_from sumZ foldr
             stcoCount co64Count totalUpdated].
        rewrite ser_list_cons. cbn [ser]. fold es2. fold tbl.
        rewrite <- !app_assoc. f_equal; unfold sumZ; lia.
Qed.



(** ** The file around the moov box, and the file system *)

Lemma adjustOffset_inside (x len : Z) : 0 <= x <= len -> adjustOffset x len = x.
Proof.
  intros H. unfold adjustOffset.
  destruct (Z.eqb_spec x 0); [lia|].
  destruct (Z.ltb_spec x 0); [lia|].
  destruct (Z.ltb_spec x len); lia.
Qed.

Lemma slice_inside (buffer : Buffer) (s e : Z) :
  0 <= s <= e -> e <= blen buffer ->
  slice buffer s (Some e) = take (Z.to_nat (e - s)) (drop (Z.to_nat s) buffer).
Proof.
  intros Hs He. unfold slice. rewrite !adjustOffset_inside by lia.
  destruct (Z.ltb_spec s e); [reflexivity|].
  replace (e - s) with 0 by lia. reflexivity.
Qed.

Lemma slice_to_end (buffer : Buffer) (s : Z) :
  0 <= s <= blen buffer -> slice buffer s None = drop (Z.to_nat s) buffer.
Proof.
  intros Hs. unfold slice. rewrite adjustOffset_inside by lia.
  destruct (Z.ltb_spec s (blen buffer)).
  - apply take_ge. rewrite length_drop. unfold blen in *. lia.
  - rewrite drop_ge by (unfold blen in *; lia). reflexivity.
Qed.

Lemma slice_app (a b c : Buffer) :
  slice (a ++ b ++ c) (blen a) (Some (blen a + blen b)) = b.
Proof.
  pose proof (blen_nonneg a). pose proof (blen_nonneg b). pose proof (blen_nonneg c).
  rewrite slice_inside by (rewrite ?blen_app; lia).
  unfold blen, Buffer in *. rewrite Nat2Z.id, drop_app_length.
  replace (Z.to_nat (Z.of_nat (length a) + Z.of_nat (length b) - Z.of_nat (length a)))
    with (length b) by lia.
  apply take_app_length.
Qed.

Lemma chained_elem (buffer : Buffer) (atoms : list atom) (start : Z) (a : atom) :
  chained buffer start atoms -> a ∈ atoms ->
  0 <= offset a /\ 1 <= size a /\ offset a + size a <= blen buffer
  /\ dataOffset a = offset a + 8.
Proof.
  revert start. induction atoms as [|b atoms IH]; intros start Hc Ha.
  - by apply elem_of_nil in Ha.
  - cbn [chained] in Hc. destruct Hc as (H1 & H2 & H3 & H4 & H5 & _ & _ & Hc).
    apply elem_of_cons in Ha as [->|Ha]; [lia|]. by eapply IH.
Qed.

Lemma find_type_elem (t : string) (atoms : list atom) (a : atom) :
  find_type t atoms = Some a -> a ∈ atoms /\ type a = tag t.
Proof.
  unfold find_type. intros H. apply find_some in H as [Hin Ht].
  split; [by apply list_elem_of_In|].
  unfold type_is in Ht. by apply bool_decide_eq_true in Ht.
Qed.

Lemma parse_result_chained (buffer : Buffer) (start : Z) (maxLength : option Z)
    (atoms : list atom) :
  parseMP4Atoms buffer start maxLength = Ok atoms -> chained buffer start atoms.
Proof.
  intros H. pose proof (parseMP4Atoms_run buffer start maxLength) as Hrun.
  rewrite H in Hrun.
  by eapply (parse_loop_chained _ buffer _ start start []).
Qed.

Lemma fix_offsets_length (moovAtom : atom) (newMoov : Buffer) :
  length (fix_offsets moovAtom newMoov) = length newMoov.
Proof.
  unfold fix_offsets. destruct (negb _); [|reflexivity].
  pose proof (updateChunkOffsets_run newMoov (blen newMoov - size moovAtom)
                (offset moovAtom + size moovAtom)) as H.
  by apply searchAtoms_length in H.
Qed.

(** X9.  Whenever the new file is built, it is the old file with the moov
    box replaced: every byte before the moov box and every byte after it is
    copied unchanged, and the length changes by exactly the difference between
    the new and the old moov size. *)
Theorem newFile_keeps_surroundings (fileBuffer : Buffer) (kaidJson : js_string)
    (out : Buffer) :
  newFileBuffer_of fileBuffer kaidJson = Ok out ->
  exists atoms moovAtom newMoov,
    parseMP4Atoms fileBuffer 0 None = Ok atoms /\
    find_type "moov" atoms = Some moovAtom /\
    out = take (Z.to_nat (offset moovAtom)) fileBuffer ++ newMoov
          ++ drop (Z.to_nat (offset moovAtom + size moovAtom)) fileBuffer /\
    blen out = blen fileBuffer + (blen newMoov - size moovAtom).
Proof.
  unfold newFileBuffer_of.
  destruct (parseMP4Atoms fileBuffer 0 None) as [atoms|] eqn:Hparse; [|discriminate].
  cbn [mbind result_bind].
  destruct (find_type "moov" atoms) as [moovAtom|] eqn:Hfind; [|discriminate].
  destruct (createKaidAtom kaidJson) as [kaidAtomData|]; [|discriminate].
  cbn [mbind result_bind].
  destruct (newMoovData_of fileBuffer moovAtom kaidAtomData) as [newMoovData|];
    [|discriminate].
  cbn [mbind result_bind].
  destruct (createAtom (lit "moov") newMoovData) as [newMoov|]; [|discriminate].
  cbn [mbind result_bind]. intros [= <-].
  pose proof (parse_result_chained _ _ _ _ Hparse) as Hch.
  pose proof (find_type_elem _ _ _ Hfind) as [Hin _].
  destruct (chained_elem _ _ _ _ Hch Hin) as (H0 & H1 & H2 & _).
  exists atoms, moovAtom, (fix_offsets moovAtom newMoov).
  split; [reflexivity|]. split; [assumption|].
  rewrite slice_inside, slice_to_end by lia.
  rewrite Z.sub_0_r. change (Z.to_nat 0) with 0%nat. rewrite drop_0.
  split; [reflexivity|].
  rewrite !blen_app. unfold blen, Buffer in *.
  rewrite length_take, length_drop. lia.
Qed.

Lemma parse_whole_ok (buffer : Buffer) :
  exists atoms, parseMP4Atoms buffer 0 None = Ok atoms.
Proof.
  pose proof (parseMP4Atoms_run buffer 0 None) as Hrun.
  apply parse_loop_ok in Hrun; [assumption|lia|reflexivity].
Qed.

Lemma parse_short (buffer : Buffer) :
  blen buffer <= 8 -> parseMP4Atoms buffer 0 None = Ok [].
Proof.
  intros H. pose proof (parseMP4Atoms_run buffer 0 None) as Hrun.
  unfold parse_fuel in Hrun. cbn [parse_loop parse_end] in Hrun.
  destruct (Z.ltb_spec 0 (blen buffer - 8)); [lia|]. by injection Hrun as <-.
Qed.

(** X10.  A file of at most 8 bytes, and any file in which the parser finds
    no moov atom at the top level, makes injectKaidAtom fail with the wrapped
    message of the missing moov atom; the file is read, nothing is written. *)
Theorem inject_without_moov (inputPath outputPath : string) (kaidJson : js_string)
    (w : world) (fileBuffer : Buffer) :
  files w !! inputPath = Some fileBuffer ->
  blen fileBuffer <= 8
    \/ (exists atoms, parseMP4Atoms fileBuffer 0 None = Ok atoms
                      /\ find_type "moov" atoms = None) ->
  injectKaidAtom inputPath outputPath kaidJson w
  = (Throw (Error "Failed to inject kaid atom: No moov atom found in M4A file"),
     World (files w) (log w ++ [ReadFile inputPath])).
Proof.
  intros Hfile Hno.
  assert (Hnew : newFileBuffer_of fileBuffer kaidJson
                 = Throw (Error "No moov atom found in M4A file")).
  { unfold newFileBuffer_of.
    destruct Hno as [Hshort|(atoms & Hparse & Hfind)].
    - by rewrite parse_short.
    - rewrite Hparse. cbn [mbind result_bind]. by rewrite Hfind. }
  unfold injectKaidAtom, readFile. rewrite Hfile, Hnew. reflexivity.
Qed.


Lemma newFile_keeps_surroundings_witness :
  exists atoms moovAtom newMoov,
    parseMP4Atoms sample_file 0 None = Ok atoms /\
    find_type "moov" atoms = Some moovAtom /\
    sample_out = take (Z.to_nat (offset moovAtom)) sample_file ++ newMoov
                 ++ drop (Z.to_nat (offset moovAtom + size moovAtom)) sample_file /\
    blen sample_out = blen sample_file + (blen newMoov - size moovAtom).
Proof.
  apply (newFile_keeps_surroundings sample_file (lit "{}") sample_out).
  vm_compute. reflexivity.
Defined.

Lemma inject_without_moov_witness :
  injectKaidAtom "a.m4a" "a.m4a" (lit "{}") (World {[ "a.m4a"%string := stray_tail ]} [])
  = (Throw (Error "Failed to inject kaid atom: No moov atom found in M4A file"),
     World (files (World {[ "a.m4a"%string := stray_tail ]} []))
       (log (World {[ "a.m4a"%string := stray_tail ]} []) ++ [ReadFile "a.m4a"])).
Proof.
  apply (inject_without_moov "a.m4a" "a.m4a" (lit "{}")
           (World {[ "a.m4a"%string := stray_tail ]} []) stray_tail).
  - apply lookup_singleton_eq.
  - right. eexists. split; [vm_compute; reflexivity|reflexivity].
Defined.

(** ** prepareKaidData *)

Lemma spread_js_and (x : jsval) (props : list (js_string * jsval)) :
  spread (js_and x (JObj props)) = if truthy x then props else [].
Proof. unfold js_and. destruct (truthy x) eqn:E; [reflexivity|]. by destruct x. Qed.

Lemma spread_js_and2 (x : jsval) (b : bool) (props : list (js_string * jsval)) :
  spread (js_and x (js_and (JBool b) (JObj props)))
  = if truthy x && b then props else [].
Proof.
  unfold js_and. cbn [truthy]. destruct (truthy x) eqn:E; [by destruct b|].
  by destruct x.
Qed.

Lemma truthy_js_or (a b : jsval) : truthy b = true -> truthy (js_or a b) = true.
Proof. intros Hb. unfold js_or. by destruct (truthy a) eqn:E. Qed.

Lemma js_or_default (a d : jsval) : truthy (js_or a d) = true \/ js_or a d = d.
Proof. unfold js_or. destruct (truthy a) eqn:E; [by left|by right]. Qed.

Lemma js_map_array (f : jsval -> Z -> result jsval) (v r : jsval) :
  js_map f v = Ok r -> exists l l', v = JArr l /\ r = JArr l' /\ map_index f 0 l = Ok l'.
Proof.
  unfold js_map. destruct v; try discriminate.
  destruct (map_index f 0 elems) as [l'|] eqn:E; [|discriminate].
  cbn. intros [= <-]. eauto.
Qed.

Ltac bind_inv H :=
  repeat match type of H with
         | mbind _ ?r = Ok _ =>
             let E := fresh "E" in
             destruct r eqn:E; cbn [mbind result_bind] in H; [|discriminate H]
         end.


Lemma prepare_line_keys (line out : jsval) (index : Z) :
  prepare_line line index = Ok out -> line_keys out.
Proof.
  unfold prepare_line. intros H. bind_inv H. injection H as <-.
  rewrite spread_js_and. eexists _, _, _.
  split; [|split; [apply js_or_default|split; apply js_or_default]].
  destruct (truthy _); [by right|by left].
Qed.

Lemma map_index_Forall2 (f : jsval -> Z -> result jsval) (P : jsval -> jsval -> Prop) :
  (forall x i y, f x i = Ok y -> P x y) ->
  forall l i l', map_index f i l = Ok l' -> Forall2 P l l'.
Proof.
  intros Hf. induction l as [|x l IH]; intros i l' H.
  - injection H as <-. constructor.
  - cbn [map_index] in H. bind_inv H. injection H as <-.
    constructor; [by eapply Hf|by eapply IH].
Qed.

Lemma get_nullish (v : jsval) (k : string) (x : jsval) :
  get v k = Ok x -> ~ nullish v.
Proof. intros H [-> | ->]; discriminate. Qed.

Lemma get_total (v : jsval) (k : string) : ~ nullish v -> exists x, get v k = Ok x.
Proof.
  intros H. destruct v; cbn [get]; eauto; exfalso; apply H; [by left|by right].
Qed.

Lemma get_opt_total (v : jsval) (k : string) : exists x, get_opt v k = Ok x.
Proof.
  destruct v; cbn [get_opt get]; eauto.
Qed.


Lemma prepare_source_total (source : jsval) (index : Z) :
  ~ nullish source -> exists y, prepare_source source index = Ok y.
Proof.
  intros H. unfold prepare_source.
  destruct (get_total source "name" H) as [? ->].
  destruct (get_total source "filename" H) as [? ->].
  destruct (get_total source "trackIndex" H) as [? ->].
  cbn [mbind result_bind]. eauto.
Qed.

Lemma prepare_line_total (line : jsval) (index : Z) :
  ~ nullish line -> exists y, prepare_line line index = Ok y.
Proof.
  intros H. unfold prepare_line.
  destruct (get_total line "start" H) as [? ->].
  destruct (get_total line "startTimeSec" H) as [? ->].
  destruct (get_total line "end" H) as [? ->].
  destruct (get_total line "endTimeSec" H) as [? ->].
  destruct (get_total line "text" H) as [? ->].
  destruct (get_total line "disabled" H) as [? ->].
  cbn [mbind result_bind]. eauto.
Qed.

Lemma prepare_source_nullish (source : jsval) (index : Z) (y : jsval) :
  prepare_source source index = Ok y -> ~ nullish source.
Proof.
  unfold prepare_source. intros H. bind_inv H. by eapply get_nullish.
Qed.

Lemma prepare_line_nullish (line : jsval) (index : Z) (y : jsval) :
  prepare_line line index = Ok y -> ~ nullish line.
Proof.
  unfold prepare_line. intros H. bind_inv H. by eapply get_nullish.
Qed.

Lemma map_index_total (f : jsval -> Z -> result jsval) (l : list jsval) :
  (forall x i, ~ nullish x -> exists y, f x i = Ok y) ->
  Forall (fun x => ~ nullish x) l ->
  forall i, exists l', map_index f i l = Ok l'.
Proof.
  intros Hf Hl. induction Hl as [|x l Hx _ IH]; intros i; [by eexists|].
  cbn [map_index]. destruct (Hf x i Hx) as [y ->].
  destruct (IH (i + 1)) as [l' ->]. cbn [mbind result_bind]. eauto.
Qed.

Lemma js_map_succeeds (f : jsval -> Z -> result jsval) (v : jsval) :
  (forall x i, ~ nullish x -> exists y, f x i = Ok y) ->
  (forall x i y, f x i = Ok y -> ~ nullish x) ->
  (exists r, js_map f (js_or v (JArr [])) = Ok r) <-> array_of_objects v.
Proof.
  intros Htot Hnul. unfold array_of_objects, js_or. split.
  - intros [r Hr]. destruct (truthy v) eqn:Tv; [right|by left].
    apply js_map_array in Hr as (l & l' & -> & _ & Hmap).
    exists l. split; [reflexivity|].
    pose proof (map_index_Forall2 f (fun x _ => ~ nullish x)
                  (fun x i y => Hnul x i y) _ _ _ Hmap) as HF.
    by eapply Forall2_Forall_l; [exact HF|apply Forall_forall].
  - intros [Hf|(l & -> & Hl)].
    + rewrite Hf. cbn. eauto.
    + cbn [truthy js_map].
      destruct (map_index_total f l Htot Hl 0) as [l' ->].
      cbn [mbind result_bind]. eauto.
Qed.





(** ** The meta box update *)

Lemma find_type_skip (t : string) (bs : list (string * Buffer)) (p : Z)
    (rest : list atom) :
  Forall (fun b => tag (fst b) <> tag t) bs ->
  find_type t (atoms_at p bs ++ rest) = find_type t rest.
Proof.
  intros H. revert p. induction H as [|b bs Hb _ IH]; intros p; [reflexivity|].
  cbn [atoms_at app]. unfold find_type in *. cbn [find]. unfold type_is at 1.
  cbn [type]. rewrite bool_decide_eq_false_2 by assumption. apply IH.
Qed.

Lemma atoms_at_app (bs1 bs2 : list (string * Buffer)) (p : Z) :
  Forall wf_box bs1 ->
  atoms_at p (bs1 ++ bs2)
  = atoms_at p bs1 ++ atoms_at (p + blen (ser_boxes bs1)) bs2.
Proof.
  intros H. revert p. induction H as [|b bs Hb _ IH]; intros p.
  - cbn [app atoms_at]. change (blen (ser_boxes [])) with 0. by rewrite Z.add_0_r.
  - cbn [app atoms_at]. rewrite IH, blen_ser_boxes_cons by assumption.
    do 3 f_equal. lia.
Qed.

Lemma find_type_first (t : string) (bs1 bs2 : list (string * Buffer)) (d : Buffer)
    (p : Z) (more : list atom) :
  Forall wf_box bs1 -> Forall (fun b => tag (fst b) <> tag t) bs1 ->
  find_type t (atoms_at p (bs1 ++ (t, d) :: bs2) ++ more)
  = Some (Atom (tag t) (p + blen (ser_boxes bs1)) (8 + blen d)
            (p + blen (ser_boxes bs1) + 8)).
Proof.
  intros Hwf Hno. rewrite atoms_at_app, <- app_assoc, find_type_skip by assumption.
  cbn [atoms_at app fst snd]. unfold find_type. cbn [find]. unfold type_is.
  cbn [type]. by rewrite bool_decide_eq_true_2.
Qed.

(** The segment [seg] of a buffer, cut out by its offsets. *)
Lemma slice_segment (buffer a seg c : Buffer) (s e : Z) :
  buffer = a ++ seg ++ c -> s = blen a -> e = blen a + blen seg ->
  slice buffer s (Some e) = seg.
Proof. intros -> -> ->. apply slice_app. Qed.

Lemma blen_be_bytes (n : nat) (v : Z) : blen (be_bytes n v) = Z.of_nat n.
Proof. unfold blen. by rewrite length_be_bytes. Qed.

Lemma ser_boxes_snoc (bs : list (string * Buffer)) (t : string) (d : Buffer) :
  ser_boxes (bs ++ [(t, d)]) = ser_boxes bs ++ box t d.
Proof. rewrite ser_boxes_app. unfold ser_boxes at 2. cbn. by rewrite app_nil_r. Qed.

Lemma last_snoc_payload (bs : list (string * Buffer)) (t : string) (d : Buffer) :
  d <> [] -> forall b, last (bs ++ [(t, d)]) = Some b -> snd b <> [].
Proof. intros Hd b. rewrite last_snoc. by intros [= <-]. Qed.

Lemma box_nonempty (t : string) (d : Buffer) : box t d <> [].
Proof. unfold box. cbn [be_bytes app]. discriminate. Qed.

(** Parsing the children of a box finds a child with tag [t] behind
    children with other tags. *)
Lemma find_child (fileBuffer pre suf : Buffer) (bs : list (string * Buffer))
    (t : string) (d : Buffer) (off len : Z) :
  fileBuffer = pre ++ (ser_boxes bs ++ box t d) ++ suf ->
  off = blen pre -> blen (ser_boxes bs) + (8 + blen d) <= len ->
  off + len <= blen fileBuffer ->
  Forall wf_box bs -> Forall (fun b => tag (fst b) <> tag t) bs ->
  wf_box (t, d) -> d <> [] ->
  exists atoms,
    parseMP4Atoms fileBuffer off (Some len) = Ok atoms /\
    find_type t atoms
    = Some (Atom (tag t) (off + blen (ser_boxes bs)) (8 + blen d)
              (off + blen (ser_boxes bs) + 8)).
Proof.
  intros -> -> Hlen Hend Hwf Hno Hb Hd.
  pose proof (blen_nonneg (ser_boxes bs)). pose proof (blen_nonneg d).
  rewrite <- ser_boxes_snoc in *.
  assert (Hbl : blen (ser_boxes (bs ++ [(t, d)])) = blen (ser_boxes bs) + (8 + blen d)).
  { rewrite ser_boxes_snoc, blen_app, blen_box; [reflexivity|apply Hb]. }
  assert (Hpe : parse_end (pre ++ ser_boxes (bs ++ [(t, d)]) ++ suf) (blen pre) (Some len)
                = blen pre + len).
  { cbn [parse_end]. destruct (Z.eqb_spec len 0); [lia|reflexivity]. }
  destruct (parseMP4Atoms_boxes (bs ++ [(t, d)]) pre suf (Some len))
    as (more & Hr & _).
  - apply Forall_app. split; [assumption|by constructor].
  - left. by apply last_snoc_payload.
  - rewrite Hpe, Hbl. lia.
  - rewrite Hpe. assumption.
  - eexists. split; [exact Hr|]. by apply find_type_first.
Qed.

Lemma box_hdr (t : string) (d : Buffer) :
  box t d = (be_bytes 4 (8 + blen d) ++ tag t) ++ d.
Proof. unfold box. by rewrite app_assoc. Qed.

(** X15.  In a meta box whose ilst holds a '----' item, updateMetaWithKaid
    replaces the first '----' child of ilst, whatever its namespace and name
    are, by the new kaid atom: the ilst items before and the bytes after
    that child, the version/flags word, and the boxes of meta before and the
    bytes after ilst are copied unchanged, and ilst gets the header of its
    new size. *)
Theorem updateMetaWithKaid_replaces_first (pre suf flags : Buffer)
    (kids1 : list (string * Buffer)) (kids_rest : Buffer)
    (items1 : list (string * Buffer)) (old items_rest kaidAtomData : Buffer) :
  let ilstPayload := ser_boxes items1 ++ box "----" old ++ items_rest in
  let metaPayload := flags ++ ser_boxes kids1 ++ box "ilst" ilstPayload ++ kids_rest in
  let fileBuffer := pre ++ box "meta" metaPayload ++ suf in
  let metaAtom := Atom (tag "meta") (blen pre) (8 + blen metaPayload) (blen pre + 8) in
  length flags = 4%nat ->
  Forall wf_box kids1 -> Forall (fun b => tag (fst b) <> tag "ilst") kids1 ->
  Forall wf_box items1 -> Forall (fun b => tag (fst b) <> tag "----") items1 ->
  old <> [] -> 8 + blen ilstPayload <= 2 ^ 32 - 1 ->
  8 + blen (ser_boxes items1 ++ kaidAtomData ++ items_rest) <= 2 ^ 32 - 1 ->
  updateMetaWithKaid fileBuffer metaAtom kaidAtomData
  = Ok (flags ++ ser_boxes kids1
        ++ box "ilst" (ser_boxes items1 ++ kaidAtomData ++ items_rest)
        ++ kids_rest).
Proof.
  intros ilstPayload metaPayload fileBuffer metaAtom Hf Hk1 Hk1no Hi1 Hi1no Hold
    Hilst Hnew.
  pose proof (blen_nonneg pre) as Hp0. pose proof (blen_nonneg suf) as Hs0.
  pose proof (blen_nonneg (ser_boxes kids1)) as Hk0.
  pose proof (blen_nonneg (ser_boxes items1)) as Hi0.
  pose proof (blen_nonneg old) as Ho0. pose proof (blen_nonneg kids_rest) as Hkr0.
  pose proof (blen_nonneg items_rest) as Hir0.
  assert (Hfl : blen flags = 4) by (unfold blen; lia).
  assert (Hip : blen ilstPayload = blen (ser_boxes items1) + (8 + blen old) + blen items_rest).
  { unfold ilstPayload. rewrite !blen_app, blen_box by reflexivity. lia. }
  assert (Hmp : blen metaPayload
                = 4 + blen (ser_boxes kids1) + (8 + blen ilstPayload) + blen kids_rest).
  { unfold metaPayload. rewrite !blen_app, blen_box, Hfl by reflexivity. lia. }
  assert (Hfb : blen fileBuffer = blen pre + (8 + blen metaPayload) + blen suf).
  { unfold fileBuffer. rewrite !blen_app, blen_box by reflexivity. lia. }
  set (hdrM := be_bytes 4 (8 + blen metaPayload) ++ tag "meta").
  set (hdrI := be_bytes 4 (8 + blen ilstPayload) ++ tag "ilst").
  assert (HhM : blen hdrM = 8) by (unfold hdrM; by rewrite blen_app, blen_be_bytes).
  assert (HhI : blen hdrI = 8) by (unfold hdrI; by rewrite blen_app, blen_be_bytes).
  assert (Hflat : fileBuffer
                  = pre ++ hdrM ++ flags ++ ser_boxes kids1 ++ hdrI
                    ++ ser_boxes items1 ++ box "----" old ++ items_rest
                    ++ kids_rest ++ suf).
  { unfold fileBuffer. rewrite (box_hdr "meta"). fold hdrM. unfold metaPayload.
    rewrite (box_hdr "ilst"). fold hdrI. unfold ilstPayload.
    by rewrite <- !app_assoc. }
  unfold updateMetaWithKaid. cbn [dataOffset size offset metaAtom].
  (* the children of meta *)
  destruct (find_child fileBuffer (pre ++ hdrM ++ flags) (kids_rest ++ suf) kids1
              "ilst" ilstPayload (blen pre + 8 + 4) (8 + blen metaPayload - 12))
    as (metaChildren & -> & Hfind).
  { rewrite Hflat, (box_hdr "ilst"). fold hdrI. unfold ilstPayload.
    by rewrite <- !app_assoc. }
  { rewrite !blen_app, HhM, Hfl. lia. }
  { lia. }
  { lia. }
  { assumption. }
  { assumption. }
  { split; [reflexivity|assumption]. }
  { unfold ilstPayload. intros H. apply app_eq_nil in H as [_ H].
    apply app_eq_nil in H as [H _]. by apply box_nonempty in H. }
  cbn [mbind result_bind]. rewrite Hfind. cbn [dataOffset size offset].
  set (ilstOff := blen pre + 8 + 4 + blen (ser_boxes kids1)) in *.
  (* the children of ilst *)
  destruct (find_child fileBuffer (pre ++ hdrM ++ flags ++ ser_boxes kids1 ++ hdrI)
              (items_rest ++ kids_rest ++ suf) items1 "----" old
              (ilstOff + 8) (8 + blen ilstPayload - 8))
    as (ilstChildren & -> & Hfind2).
  { rewrite Hflat. by rewrite <- !app_assoc. }
  { rewrite !blen_app, HhM, HhI, Hfl. unfold ilstOff. lia. }
  { lia. }
  { unfold ilstOff. lia. }
  { assumption. }
  { assumption. }
  { split; [reflexivity|]. cbn [snd]. lia. }
  { assumption. }
  cbn [mbind result_bind]. rewrite Hfind2. cbn [dataOffset size offset].
  (* the four slices *)
  assert (Hbk : blen (box "----" old) = 8 + blen old) by (by rewrite blen_box).
  rewrite (slice_segment fileBuffer
             (pre ++ hdrM ++ flags ++ ser_boxes kids1 ++ hdrI) (ser_boxes items1)
             (box "----" old ++ items_rest ++ kids_rest ++ suf)
             (ilstOff + 8) (ilstOff + 8 + blen (ser_boxes items1)));
    [|rewrite Hflat; by rewrite <- !app_assoc
     |rewrite !blen_app, HhM, HhI, Hfl; unfold ilstOff; lia
     |rewrite !blen_app, HhM, HhI, Hfl; unfold ilstOff; lia].
  rewrite (slice_segment fileBuffer
             (pre ++ hdrM ++ flags ++ ser_boxes kids1 ++ hdrI ++ ser_boxes items1
              ++ box "----" old)
             items_rest (kids_rest ++ suf)
             (ilstOff + 8 + blen (ser_boxes items1) + (8 + blen old))
             (ilstOff + (8 + blen ilstPayload)));
    [|rewrite Hflat; by rewrite <- !app_assoc
     |rewrite !blen_app, HhM, HhI, Hfl, Hbk; unfold ilstOff; lia
     |rewrite !blen_app, HhM, HhI, Hfl, Hbk; unfold ilstOff; lia].
  rewrite (slice_segment fileBuffer (pre ++ hdrM) (flags ++ ser_boxes kids1)
             (hdrI ++ ser_boxes items1 ++ box "----" old ++ items_rest
              ++ kids_rest ++ suf)
             (blen pre + 8) ilstOff);
    [|rewrite Hflat; by rewrite <- !app_assoc
     |rewrite !blen_app, HhM; lia
     |rewrite !blen_app, HhM, Hfl; unfold ilstOff; lia].
  rewrite (slice_segment fileBuffer
             (pre ++ hdrM ++ flags ++ ser_boxes kids1 ++ hdrI ++ ser_boxes items1
              ++ box "----" old ++ items_rest)
             kids_rest suf
             (ilstOff + (8 + blen ilstPayload)) (blen pre + (8 + blen metaPayload)));
    [|rewrite Hflat; by rewrite <- !app_assoc
     |rewrite !blen_app, HhM, HhI, Hfl, Hbk; unfold ilstOff; lia
     |rewrite !blen_app, HhM, HhI, Hfl, Hbk; unfold ilstOff; lia].
  rewrite (createAtom_box "ilst") by (reflexivity || assumption).
  cbn [mbind result_bind]. by rewrite <- !app_assoc.
Qed.

Lemma updateMetaWithKaid_replaces_first_witness :
  updateMetaWithKaid
    (tag "junk"
     ++ box "meta"
          (alloc 4 ++ ser_boxes sample_meta_kids
           ++ box "ilst" (ser_boxes sample_items ++ box "----" sample_old_item ++ [])
           ++ [])
     ++ [])
    (Atom (tag "meta") (blen (tag "junk"))
       (8 + blen (alloc 4 ++ ser_boxes sample_meta_kids
                  ++ box "ilst" (ser_boxes sample_items ++ box "----" sample_old_item
                                 ++ [])
                  ++ []))
       (blen (tag "junk") + 8))
    sample_kaid_item
  = Ok (alloc 4 ++ ser_boxes sample_meta_kids
        ++ box "ilst" (ser_boxes sample_items ++ sample_kaid_item ++ []) ++ []).
Proof.
  apply (updateMetaWithKaid_replaces_first (tag "junk") [] (alloc 4) sample_meta_kids
           [] sample_items sample_old_item [] sample_kaid_item).
  - reflexivity.
  - repeat constructor. vm_compute. discriminate.
  - repeat constructor. discriminate.
  - repeat constructor. vm_compute. discriminate.
  - repeat constructor. discriminate.
  - discriminate.
  - vm_compute. discriminate.
  - vm_compute. discriminate.
Defined.

Lemma find_type_none (t : string) (bs : list (string * Buffer)) (p : Z) :
  Forall (fun b => tag (fst b) <> tag t) bs -> find_type t (atoms_at p bs) = None.
Proof.
  intros H. rewrite <- (app_nil_r (atoms_at p bs)). by rewrite find_type_skip.
Qed.

(** Parsing a range that holds exactly the boxes [bs], none with tag [t]. *)
Lemma find_no_child (fileBuffer pre suf : Buffer) (bs : list (string * Buffer))
    (t : string) (off len : Z) :
  fileBuffer = pre ++ ser_boxes bs ++ suf ->
  off = blen pre -> len = blen (ser_boxes bs) ->
  Forall wf_box bs -> (forall b, last bs = Some b -> snd b <> []) -> bs <> [] ->
  Forall (fun b => tag (fst b) <> tag t) bs ->
  exists atoms,
    parseMP4Atoms fileBuffer off (Some len) = Ok atoms /\ find_type t atoms = None.
Proof.
  intros -> -> -> Hwf Hlast Hne Hno.
  eexists. split; [by apply parse_boxes_in_range|by apply find_type_none].
Qed.

(** X16.  In a meta box whose ilst holds items but no '----' item,
    updateMetaWithKaid appends the kaid atom after the last item of ilst and
    keeps every other byte of the meta payload. *)
Theorem updateMetaWithKaid_appends (pre suf flags : Buffer)
    (kids1 : list (string * Buffer)) (kids_rest : Buffer)
    (items : list (string * Buffer)) (kaidAtomData : Buffer) :
  let ilstPayload := ser_boxes items in
  let metaPayload := flags ++ ser_boxes kids1 ++ box "ilst" ilstPayload ++ kids_rest in
  let fileBuffer := pre ++ box "meta" metaPayload ++ suf in
  let metaAtom := Atom (tag "meta") (blen pre) (8 + blen metaPayload) (blen pre + 8) in
  length flags = 4%nat ->
  Forall wf_box kids1 -> Forall (fun b => tag (fst b) <> tag "ilst") kids1 ->
  Forall wf_box items -> Forall (fun b => tag (fst b) <> tag "----") items ->
  items <> [] -> (forall b, last items = Some b -> snd b <> []) ->
  8 + blen (ilstPayload ++ kaidAtomData) <= 2 ^ 32 - 1 ->
  updateMetaWithKaid fileBuffer metaAtom kaidAtomData
  = Ok (flags ++ ser_boxes kids1 ++ box "ilst" (ilstPayload ++ kaidAtomData)
        ++ kids_rest).
Proof.
  intros ilstPayload metaPayload fileBuffer metaAtom Hf Hk1 Hk1no Hi Hino Hne Hlast
    Hnew.
  pose proof (blen_nonneg pre) as Hp0. pose proof (blen_nonneg suf) as Hs0.
  pose proof (blen_nonneg (ser_boxes kids1)) as Hk0.
  pose proof (blen_ser_boxes_pos items Hi Hne) as Hi0. fold ilstPayload in Hi0.
  pose proof (blen_nonneg kids_rest) as Hkr0.
  pose proof (blen_nonneg kaidAtomData) as Hka0.
  rewrite blen_app in Hnew.
  assert (Hfl : blen flags = 4) by (unfold blen; lia).
  assert (Hmp : blen metaPayload
                = 4 + blen (ser_boxes kids1) + (8 + blen ilstPayload) + blen kids_rest).
  { unfold metaPayload. rewrite !blen_app, blen_box, Hfl by reflexivity. lia. }
  assert (Hfb : blen fileBuffer = blen pre + (8 + blen metaPayload) + blen suf).
  { unfold fileBuffer. rewrite !blen_app, blen_box by reflexivity. lia. }
  set (hdrM := be_bytes 4 (8 + blen metaPayload) ++ tag "meta").
  set (hdrI := be_bytes 4 (8 + blen ilstPayload) ++ tag "ilst").
  assert (HhM : blen hdrM = 8) by (unfold hdrM; by rewrite blen_app, blen_be_bytes).
  assert (HhI : blen hdrI = 8) by (unfold hdrI; by rewrite blen_app, blen_be_bytes).
  assert (Hflat : fileBuffer
                  = pre ++ hdrM ++ flags ++ ser_boxes kids1 ++ hdrI
                    ++ ilstPayload ++ kids_rest ++ suf).
  { unfold fileBuffer. rewrite (box_hdr "meta"). fold hdrM. unfold metaPayload.
    rewrite (box_hdr "ilst"). fold hdrI. by rewrite <- !app_assoc. }
  unfold updateMetaWithKaid. cbn [dataOffset size offset metaAtom].
  destruct (find_child fileBuffer (pre ++ hdrM ++ flags) (kids_rest ++ suf) kids1
              "ilst" ilstPayload (blen pre + 8 + 4) (8 + blen metaPayload - 12))
    as (metaChildren & -> & Hfind).
  { rewrite Hflat, (box_hdr "ilst"). fold hdrI. by rewrite <- !app_assoc. }
  { rewrite !blen_app, HhM, Hfl. lia. }
  { lia. }
  { lia. }
  { assumption. }
  { assumption. }
  { split; [reflexivity|]. cbn [snd]. lia. }
  { intros H. rewrite H in Hi0. change (blen []) with 0 in Hi0. lia. }
  cbn [mbind result_bind]. rewrite Hfind. cbn [dataOffset size offset].
  set (ilstOff := blen pre + 8 + 4 + blen (ser_boxes kids1)) in *.
  destruct (find_no_child fileBuffer (pre ++ hdrM ++ flags ++ ser_boxes kids1 ++ hdrI)
              (kids_rest ++ suf) items "----" (ilstOff + 8) (8 + blen ilstPayload - 8))
    as (ilstChildren & -> & Hfind2); try assumption.
  { rewrite Hflat. by rewrite <- !app_assoc. }
  { rewrite !blen_app, HhM, HhI, Hfl. unfold ilstOff. lia. }
  { unfold ilstPayload. lia. }
  cbn [mbind result_bind]. rewrite Hfind2.
  rewrite (slice_segment fileBuffer
             (pre ++ hdrM ++ flags ++ ser_boxes kids1 ++ hdrI) ilstPayload
             (kids_rest ++ suf)
             (ilstOff + 8) (ilstOff + 8 + (8 + blen ilstPayload) - 8));
    [|rewrite Hflat; by rewrite <- !app_assoc
     |rewrite !blen_app, HhM, HhI, Hfl; unfold ilstOff; lia
     |rewrite !blen_app, HhM, HhI, Hfl; unfold ilstOff; lia].
  rewrite (slice_segment fileBuffer (pre ++ hdrM) (flags ++ ser_boxes kids1)
             (hdrI ++ ilstPayload ++ kids_rest ++ suf)
             (blen pre + 8) ilstOff);
    [|rewrite Hflat; by rewrite <- !app_assoc
     |rewrite !blen_app, HhM; lia
     |rewrite !blen_app, HhM, Hfl; unfold ilstOff; lia].
  rewrite (slice_segment fileBuffer
             (pre ++ hdrM ++ flags ++ ser_boxes kids1 ++ hdrI ++ ilstPayload)
             kids_rest suf
             (ilstOff + (8 + blen ilstPayload)) (blen pre + (8 + blen metaPayload)));
    [|rewrite Hflat; by rewrite <- !app_assoc
     |rewrite !blen_app, HhM, HhI, Hfl; unfold ilstOff; lia
     |rewrite !blen_app, HhM, HhI, Hfl; unfold ilstOff; lia].
  rewrite (createAtom_box "ilst") by (reflexivity || (rewrite blen_app; lia)).
  cbn [mbind result_bind]. by rewrite <- !app_assoc.
Qed.

Lemma updateMetaWithKaid_appends_witness :
  updateMetaWithKaid
    (tag "junk"
     ++ box "meta"
          (alloc 4 ++ ser_boxes sample_meta_kids
           ++ box "ilst" (ser_boxes sample_items) ++ tag "tail")
     ++ tag "rest")
    (Atom (tag "meta") (blen (tag "junk"))
       (8 + blen (alloc 4 ++ ser_boxes sample_meta_kids
                  ++ box "ilst" (ser_boxes sample_items) ++ tag "tail"))
       (blen (tag "junk") + 8))
    sample_kaid_item
  = Ok (alloc 4 ++ ser_boxes sample_meta_kids
        ++ box "ilst" (ser_boxes sample_items ++ sample_kaid_item) ++ tag "tail").
Proof.
  apply (updateMetaWithKaid_appends (tag "junk") (tag "rest") (alloc 4)
           sample_meta_kids (tag "tail") sample_items sample_kaid_item).
  - reflexivity.
  - repeat constructor. vm_compute. discriminate.
  - repeat constructor. discriminate.
  - repeat constructor. vm_compute. discriminate.
  - repeat constructor. discriminate.
  - discriminate.
  - intros b [= <-]. discriminate.
  - vm_compute. discriminate.
Defined.

(** X17.  In a meta box that has children but no ilst, updateMetaWithKaid
    keeps the whole payload and appends a new ilst box that holds just the
    kaid atom. *)
Theorem updateMetaWithKaid_creates_ilst (pre suf flags : Buffer)
    (kids : list (string * Buffer)) (kaidAtomData : Buffer) :
  let metaPayload := flags ++ ser_boxes kids in
  let fileBuffer := pre ++ box "meta" metaPayload ++ suf in
  let metaAtom := Atom (tag "meta") (blen pre) (8 + blen metaPayload) (blen pre + 8) in
  length flags = 4%nat ->
  Forall wf_box kids -> Forall (fun b => tag (fst b) <> tag "ilst") kids ->
  kids <> [] -> (forall b, last kids = Some b -> snd b <> []) ->
  8 + blen kaidAtomData <= 2 ^ 32 - 1 ->
  updateMetaWithKaid fileBuffer metaAtom kaidAtomData
  = Ok (metaPayload ++ box "ilst" kaidAtomData).
Proof.
  intros metaPayload fileBuffer metaAtom Hf Hk Hkno Hne Hlast Hnew.
  pose proof (blen_nonneg pre) as Hp0. pose proof (blen_nonneg suf) as Hs0.
  pose proof (blen_ser_boxes_pos kids Hk Hne) as Hk0.
  assert (Hfl : blen flags = 4) by (unfold blen; lia).
  assert (Hmp : blen metaPayload = 4 + blen (ser_boxes kids)).
  { unfold metaPayload. rewrite !blen_app, Hfl. lia. }
  set (hdrM := be_bytes 4 (8 + blen metaPayload) ++ tag "meta").
  assert (HhM : blen hdrM = 8) by (unfold hdrM; by rewrite blen_app, blen_be_bytes).
  assert (Hflat : fileBuffer = pre ++ hdrM ++ flags ++ ser_boxes kids ++ suf).
  { unfold fileBuffer. rewrite (box_hdr "meta"). fold hdrM. unfold metaPayload.
    by rewrite <- !app_assoc. }
  unfold updateMetaWithKaid. cbn [dataOffset size offset metaAtom].
  destruct (find_no_child fileBuffer (pre ++ hdrM ++ flags) suf kids "ilst"
              (blen pre + 8 + 4) (8 + blen metaPayload - 12))
    as (metaChildren & -> & Hfind); try assumption.
  { rewrite Hflat. by rewrite <- !app_assoc. }
  { rewrite !blen_app, HhM, Hfl. lia. }
  { lia. }
  cbn [mbind result_bind]. rewrite Hfind.
  rewrite (slice_segment fileBuffer (pre ++ hdrM) metaPayload suf
             (blen pre + 8) (blen pre + 8 + (8 + blen metaPayload) - 8));
    [|rewrite Hflat; unfold metaPayload; by rewrite <- !app_assoc
     |rewrite !blen_app, HhM; lia
     |rewrite !blen_app, HhM; lia].
  rewrite (createAtom_box "ilst") by (reflexivity || assumption).
  reflexivity.
Qed.

Lemma updateMetaWithKaid_creates_ilst_witness :
  updateMetaWithKaid
    (tag "junk" ++ box "meta" (alloc 4 ++ ser_boxes sample_meta_kids) ++ tag "rest")
    (Atom (tag "meta") (blen (tag "junk"))
       (8 + blen (alloc 4 ++ ser_boxes sample_meta_kids)) (blen (tag "junk") + 8))
    sample_kaid_item
  = Ok ((alloc 4 ++ ser_boxes sample_meta_kids) ++ box "ilst" sample_kaid_item).
Proof.
  apply (updateMetaWithKaid_creates_ilst (tag "junk") (tag "rest") (alloc 4)
           sample_meta_kids sample_kaid_item).
  - reflexivity.
  - repeat constructor. vm_compute. discriminate.
  - repeat constructor. discriminate.
  - discriminate.
  - intros b [= <-]. discriminate.
  - vm_compute. discriminate.
Defined.

(** ** The structure written for a file without metadata *)

Lemma createMetaIlstKaidStructure_layout (kaidAtomData : Buffer) :
  8 + blen kaidAtomData <= 2 ^ 32 - 1 ->
  createMetaIlstKaidStructure kaidAtomData = Ok (meta_payload_of kaidAtomData).
Proof.
  intros Hsz. unfold createMetaIlstKaidStructure.
  rewrite (createAtom_box "ilst") by (reflexivity || assumption).
  cbn [mbind result_bind].
  replace (writeUInt32BE (alloc 4) 0 0) with (Ok (alloc 4)) by (vm_compute; reflexivity).
  cbn [mbind result_bind]. fold hdlr_payload.
  rewrite (createAtom_box "hdlr") by (reflexivity || (vm_compute; discriminate)).
  reflexivity.
Qed.

Lemma blen_meta_payload_of (kaidAtomData : Buffer) :
  blen (meta_payload_of kaidAtomData) = 45 + blen kaidAtomData.
Proof.
  unfold meta_payload_of. rewrite !blen_app, !blen_box by reflexivity.
  change (blen (alloc 4)) with 4. change (blen hdlr_payload) with 25. lia.
Qed.

(** A range that starts with a zero word holds no atom for the parser. *)
Lemma parse_zero_word (pre rest : Buffer) (maxLength : option Z) :
  parseMP4Atoms (pre ++ alloc 4 ++ rest) (blen pre) maxLength = Ok [].
Proof.
  unfold parseMP4Atoms, parseMP4Atoms_fuel, parse_fuel. cbn [parse_loop].
  destruct (_ <? _); [|reflexivity].
  change (alloc 4 ++ rest) with (x00 :: x00 :: x00 :: x00 :: rest).
  rewrite readUInt32BE_app. reflexivity.
Qed.

(** X18.  createMetaIlstKaidStructure returns the payload of a meta box,
    not a meta box: a zero version/flags word, a 33-byte hdlr box (mdir, appl)
    and an ilst box around the kaid atom, 45 bytes more than the kaid atom.
    Read as a sequence of boxes, as the children of a udta box are, it holds
    no atom at all, since its first word is a zero size; read as a meta
    payload, after the four-byte word, it holds hdlr and ilst. *)
Theorem createMetaIlstKaidStructure_no_meta_box (kaidAtomData pre suf : Buffer)
    (maxLength : option Z) :
  kaidAtomData <> [] -> 8 + blen kaidAtomData <= 2 ^ 32 - 1 ->
  exists s,
    createMetaIlstKaidStructure kaidAtomData = Ok s /\
    s = alloc 4 ++ box "hdlr" hdlr_payload ++ box "ilst" kaidAtomData /\
    blen s = 45 + blen kaidAtomData /\
    parseMP4Atoms (pre ++ s ++ suf) (blen pre) maxLength = Ok [] /\
    parseMP4Atoms (pre ++ s ++ suf) (blen pre + 4) (Some (blen s - 4))
    = Ok [Atom (tag "hdlr") (blen pre + 4) 33 (blen pre + 12);
          Atom (tag "ilst") (blen pre + 37) (8 + blen kaidAtomData) (blen pre + 45)].
Proof.
  intros Hne Hsz. pose proof (blen_nonneg kaidAtomData) as Hk.
  exists (meta_payload_of kaidAtomData).
  split; [by apply createMetaIlstKaidStructure_layout|].
  split; [reflexivity|]. split; [apply blen_meta_payload_of|].
  split.
  - unfold meta_payload_of. rewrite <- !app_assoc. apply parse_zero_word.
  - rewrite blen_meta_payload_of.
    pose proof (parse_boxes_in_range
                  [("hdlr"%string, hdlr_payload); ("ilst"%string, kaidAtomData)]
                  (pre ++ alloc 4) suf) as H.
    unfold ser_boxes in H. cbn [map concat fst snd] in H.
    rewrite app_nil_r, !blen_app, !blen_box in H by reflexivity.
    change (blen (alloc 4)) with 4 in H. change (blen hdlr_payload) with 25 in H.
    unfold meta_payload_of. rewrite <- !app_assoc in *.
    replace (45 + blen kaidAtomData - 4) with (8 + 25 + (8 + blen kaidAtomData)) by lia.
    rewrite H.
    + cbn [atoms_at fst snd]. change (blen hdlr_payload) with 25.
      repeat first [reflexivity | lia | f_equal].
    + repeat constructor; cbn [snd]; try reflexivity; [vm_compute; discriminate|lia].
    + by intros b [= <-].
    + discriminate.
Qed.

Lemma createMetaIlstKaidStructure_no_meta_box_witness :
  exists s,
    createMetaIlstKaidStructure sample_kaid_item = Ok s /\
    s = alloc 4 ++ box "hdlr" hdlr_payload ++ box "ilst" sample_kaid_item /\
    blen s = 45 + blen sample_kaid_item /\
    parseMP4Atoms (tag "udta" ++ s ++ []) (blen (tag "udta")) None = Ok [] /\
    parseMP4Atoms (tag "udta" ++ s ++ []) (blen (tag "udta") + 4) (Some (blen s - 4))
    = Ok [Atom (tag "hdlr") (blen (tag "udta") + 4) 33 (blen (tag "udta") + 12);
          Atom (tag "ilst") (blen (tag "udta") + 37) (8 + blen sample_kaid_item)
            (blen (tag "udta") + 45)].
Proof.
  apply (createMetaIlstKaidStructure_no_meta_box sample_kaid_item (tag "udta") [] None).
  - discriminate.
  - vm_compute. discriminate.
Defined.

(** ** The new moov payload *)

(** X19.  For a moov box without a udta child, the new moov payload is the
    old payload followed by a new udta box, and the payload of that udta box
    is the version/flags word, hdlr and ilst directly: no meta box header is
    written around them. *)
Theorem newMoovData_new_udta (pre suf : Buffer) (bs : list (string * Buffer))
    (kaidAtomData : Buffer) :
  let moovPayload := ser_boxes bs in
  let fileBuffer := pre ++ box "moov" moovPayload ++ suf in
  let moovAtom := Atom (tag "moov") (blen pre) (8 + blen moovPayload) (blen pre + 8) in
  Forall wf_box bs -> Forall (fun b => tag (fst b) <> tag "udta") bs ->
  bs <> [] -> (forall b, last bs = Some b -> snd b <> []) ->
  8 + blen (meta_payload_of kaidAtomData) <= 2 ^ 32 - 1 ->
  newMoovData_of fileBuffer moovAtom kaidAtomData
  = Ok (moovPayload ++ box "udta" (meta_payload_of kaidAtomData)).
Proof.
  intros moovPayload fileBuffer moovAtom Hwf Hno Hne Hlast Hsz.
  pose proof (blen_nonneg kaidAtomData) as Hk.
  pose proof (blen_meta_payload_of kaidAtomData) as Hs.
  set (hdrM := be_bytes 4 (8 + blen moovPayload) ++ tag "moov").
  assert (HhM : blen hdrM = 8) by (unfold hdrM; by rewrite blen_app, blen_be_bytes).
  assert (Hflat : fileBuffer = (pre ++ hdrM) ++ moovPayload ++ suf).
  { unfold fileBuffer. rewrite (box_hdr "moov"). fold hdrM. by rewrite <- !app_assoc. }
  unfold newMoovData_of. cbn [dataOffset size offset moovAtom].
  destruct (find_no_child fileBuffer (pre ++ hdrM) suf bs "udta" (blen pre + 8)
              (8 + blen moovPayload - 8))
    as (moovChildren & -> & Hfind); try assumption.
  { rewrite blen_app, HhM. reflexivity. }
  { unfold moovPayload. lia. }
  cbn [mbind result_bind]. rewrite Hfind.
  rewrite createMetaIlstKaidStructure_layout by lia. cbn [mbind result_bind].
  rewrite (createAtom_box "udta") by (reflexivity || assumption).
  cbn [mbind result_bind].
  rewrite (slice_segment fileBuffer (pre ++ hdrM) moovPayload suf
             (blen pre + 8) (blen pre + 8 + (8 + blen moovPayload) - 8));
    [reflexivity|assumption|rewrite blen_app, HhM; lia|rewrite blen_app, HhM; lia].
Qed.

Lemma newMoovData_new_udta_witness :
  newMoovData_of
    (tag "junk" ++ box "moov" (ser_boxes [("mvhd"%string, alloc 100)]) ++ tag "rest")
    (Atom (tag "moov") (blen (tag "junk"))
       (8 + blen (ser_boxes [("mvhd"%string, alloc 100)])) (blen (tag "junk") + 8))
    sample_kaid_item
  = Ok (ser_boxes [("mvhd"%string, alloc 100)]
        ++ box "udta" (meta_payload_of sample_kaid_item)).
Proof.
  apply (newMoovData_new_udta (tag "junk") (tag "rest") [("mvhd"%string, alloc 100)]
           sample_kaid_item).
  - repeat constructor. vm_compute. discriminate.
  - repeat constructor. discriminate.
  - discriminate.
  - intros b [= <-]. discriminate.
  - vm_compute. discriminate.
Defined.

(** The moov rebuild around a udta box, given what the udta payload
    becomes. *)
Lemma find_udta (pre suf : Buffer) (bs1 : list (string * Buffer))
    (udtaPayload moov_rest : Buffer) :
  let moovPayload := ser_boxes bs1 ++ box "udta" udtaPayload ++ moov_rest in
  let fileBuffer := pre ++ box "moov" moovPayload ++ suf in
  Forall wf_box bs1 -> Forall (fun b => tag (fst b) <> tag "udta") bs1 ->
  udtaPayload <> [] -> 8 + blen udtaPayload <= 2 ^ 32 - 1 ->
  exists moovChildren,
    parseMP4Atoms fileBuffer (blen pre + 8) (Some (8 + blen moovPayload - 8))
    = Ok moovChildren /\
    find_type "udta" moovChildren
    = Some (Atom (tag "udta") (blen pre + 8 + blen (ser_boxes bs1))
              (8 + blen udtaPayload) (blen pre + 8 + blen (ser_boxes bs1) + 8)).
Proof.
  intros moovPayload fileBuffer Hwf Hno Hne Hsz.
  pose proof (blen_nonneg pre). pose proof (blen_nonneg suf).
  pose proof (blen_nonneg moov_rest). pose proof (blen_nonneg (ser_boxes bs1)).
  pose proof (blen_nonneg udtaPayload).
  set (hdrM := be_bytes 4 (8 + blen moovPayload) ++ tag "moov").
  assert (HhM : blen hdrM = 8) by (unfold hdrM; by rewrite blen_app, blen_be_bytes).
  assert (Hmp : blen moovPayload
                = blen (ser_boxes bs1) + (8 + blen udtaPayload) + blen moov_rest).
  { unfold moovPayload. rewrite !blen_app, blen_box by reflexivity. lia. }
  apply (find_child fileBuffer (pre ++ hdrM) (moov_rest ++ suf) bs1 "udta" udtaPayload).
  - unfold fileBuffer. rewrite (box_hdr "moov"). fold hdrM. unfold moovPayload.
    by rewrite <- !app_assoc.
  - rewrite blen_app, HhM. reflexivity.
  - lia.
  - unfold fileBuffer. rewrite !blen_app, blen_box by reflexivity. lia.
  - assumption.
  - assumption.
  - by split.
  - assumption.
Qed.

Lemma moov_flat (pre suf : Buffer) (bs1 : list (string * Buffer))
    (udtaPayload moov_rest : Buffer) :
  let moovPayload := ser_boxes bs1 ++ box "udta" udtaPayload ++ moov_rest in
  pre ++ box "moov" moovPayload ++ suf
  = pre ++ (be_bytes 4 (8 + blen moovPayload) ++ tag "moov") ++ ser_boxes bs1
    ++ (be_bytes 4 (8 + blen udtaPayload) ++ tag "udta") ++ udtaPayload
    ++ moov_rest ++ suf.
Proof.
  intros moovPayload. rewrite (box_hdr "moov"). unfold moovPayload.
  rewrite (box_hdr "udta"). by rewrite <- !app_assoc.
Qed.

Lemma newMoovData_no_meta (pre suf : Buffer) (bs1 : list (string * Buffer))
    (udtaPayload moov_rest kaidAtomData : Buffer) (udtaChildren : list atom) :
  let moovPayload := ser_boxes bs1 ++ box "udta" udtaPayload ++ moov_rest in
  let fileBuffer := pre ++ box "moov" moovPayload ++ suf in
  let moovAtom := Atom (tag "moov") (blen pre) (8 + blen moovPayload) (blen pre + 8) in
  Forall wf_box bs1 -> Forall (fun b => tag (fst b) <> tag "udta") bs1 ->
  udtaPayload <> [] -> 8 + blen udtaPayload <= 2 ^ 32 - 1 ->
  parseMP4Atoms fileBuffer (blen pre + 8 + blen (ser_boxes bs1) + 8)
    (Some (blen udtaPayload)) = Ok udtaChildren ->
  find_type "meta" udtaChildren = None ->
  8 + blen kaidAtomData <= 2 ^ 32 - 1 ->
  8 + blen (udtaPayload ++ meta_payload_of kaidAtomData) <= 2 ^ 32 - 1 ->
  newMoovData_of fileBuffer moovAtom kaidAtomData
  = Ok (ser_boxes bs1 ++ box "udta" (udtaPayload ++ meta_payload_of kaidAtomData)
        ++ moov_rest).
Proof.
  intros moovPayload fileBuffer moovAtom Hwf Hno Hne Hsz Hparse Hfind Hk Hnew.
  pose proof (blen_nonneg pre). pose proof (blen_nonneg suf).
  pose proof (blen_nonneg moov_rest). pose proof (blen_nonneg (ser_boxes bs1)).
  pose proof (blen_nonneg udtaPayload).
  destruct (find_udta pre suf bs1 udtaPayload moov_rest Hwf Hno Hne Hsz)
    as (moovChildren & Hmc & Hfu).
  fold moovPayload fileBuffer in Hmc.
  set (hdrM := be_bytes 4 (8 + blen moovPayload) ++ tag "moov") in *.
  set (hdrU := be_bytes 4 (8 + blen udtaPayload) ++ tag "udta") in *.
  assert (Hflat : fileBuffer
                  = pre ++ hdrM ++ ser_boxes bs1 ++ hdrU ++ udtaPayload
                    ++ moov_rest ++ suf)
    by apply moov_flat.
  assert (HhM : blen hdrM = 8) by (unfold hdrM; by rewrite blen_app, blen_be_bytes).
  assert (HhU : blen hdrU = 8) by (unfold hdrU; by rewrite blen_app, blen_be_bytes).
  assert (Hmp : blen moovPayload
                = blen (ser_boxes bs1) + (8 + blen udtaPayload) + blen moov_rest).
  { unfold moovPayload. rewrite !blen_app, blen_box by reflexivity. lia. }
  unfold newMoovData_of. cbn [dataOffset size offset moovAtom].
  rewrite Hmc. cbn [mbind result_bind]. rewrite Hfu. cbn [dataOffset size offset].
  replace (8 + blen udtaPayload - 8) with (blen udtaPayload) by lia.
  rewrite Hparse. cbn [mbind result_bind]. rewrite Hfind.
  rewrite createMetaIlstKaidStructure_layout by assumption. cbn [mbind result_bind].
  set (udtaOff := blen pre + 8 + blen (ser_boxes bs1)) in *.
  rewrite (slice_segment fileBuffer (pre ++ hdrM ++ ser_boxes bs1 ++ hdrU) udtaPayload
             (moov_rest ++ suf) (udtaOff + 8) (udtaOff + (8 + blen udtaPayload)));
    [|rewrite Hflat; by rewrite <- !app_assoc
     |rewrite !blen_app, HhM, HhU; unfold udtaOff; lia
     |rewrite !blen_app, HhM, HhU; unfold udtaOff; lia].
  rewrite (createAtom_box "udta") by (reflexivity || assumption).
  cbn [mbind result_bind].
  rewrite (slice_segment fileBuffer (pre ++ hdrM) (ser_boxes bs1)
             (hdrU ++ udtaPayload ++ moov_rest ++ suf) (blen pre + 8) udtaOff);
    [|rewrite Hflat; by rewrite <- !app_assoc
     |rewrite !blen_app, HhM; lia
     |rewrite !blen_app, HhM; unfold udtaOff; lia].
  rewrite (slice_segment fileBuffer (pre ++ hdrM ++ ser_boxes bs1 ++ hdrU ++ udtaPayload)
             moov_rest suf (udtaOff + (8 + blen udtaPayload))
             (blen pre + (8 + blen moovPayload)));
    [|rewrite Hflat; by rewrite <- !app_assoc
     |rewrite !blen_app, HhM, HhU; unfold udtaOff; lia
     |rewrite !blen_app, HhM, HhU; unfold udtaOff; lia].
  reflexivity.
Qed.

(** X20.  For a udta box in which the parser finds no meta child, either
    because its children are boxes other than meta or because its payload
    starts with a zero word, as the payload written for a moov box without
    udta does, the new udta payload is the old payload followed by the
    version/flags word, hdlr and ilst; the siblings of udta in moov are
    kept.  A second injection into a file that had no udta box therefore adds
    a second kaid atom instead of replacing the first. *)
Theorem newMoovData_appends_to_udta (pre suf : Buffer) (bs1 : list (string * Buffer))
    (udtaPayload moov_rest kaidAtomData : Buffer) :
  let moovPayload := ser_boxes bs1 ++ box "udta" udtaPayload ++ moov_rest in
  let fileBuffer := pre ++ box "moov" moovPayload ++ suf in
  let moovAtom := Atom (tag "moov") (blen pre) (8 + blen moovPayload) (blen pre + 8) in
  Forall wf_box bs1 -> Forall (fun b => tag (fst b) <> tag "udta") bs1 ->
  (exists r, udtaPayload = alloc 4 ++ r)
    \/ (exists us, udtaPayload = ser_boxes us /\ us <> [] /\ Forall wf_box us /\
                   Forall (fun b => tag (fst b) <> tag "meta") us /\
                   forall b, last us = Some b -> snd b <> []) ->
  8 + blen udtaPayload <= 2 ^ 32 - 1 ->
  8 + blen kaidAtomData <= 2 ^ 32 - 1 ->
  8 + blen (udtaPayload ++ meta_payload_of kaidAtomData) <= 2 ^ 32 - 1 ->
  newMoovData_of fileBuffer moovAtom kaidAtomData
  = Ok (ser_boxes bs1 ++ box "udta" (udtaPayload ++ meta_payload_of kaidAtomData)
        ++ moov_rest).
Proof.
  intros moovPayload fileBuffer moovAtom Hwf Hno Hu Hsz Hk Hnew.
  set (hdrM := be_bytes 4 (8 + blen moovPayload) ++ tag "moov").
  set (hdrU := be_bytes 4 (8 + blen udtaPayload) ++ tag "udta").
  assert (HhM : blen hdrM = 8) by (unfold hdrM; by rewrite blen_app, blen_be_bytes).
  assert (HhU : blen hdrU = 8) by (unfold hdrU; by rewrite blen_app, blen_be_bytes).
  assert (Hflat : fileBuffer
                  = (pre ++ hdrM ++ ser_boxes bs1 ++ hdrU) ++ udtaPayload
                    ++ moov_rest ++ suf).
  { rewrite <- !app_assoc. apply moov_flat. }
  assert (Hoff : blen pre + 8 + blen (ser_boxes bs1) + 8
                 = blen (pre ++ hdrM ++ ser_boxes bs1 ++ hdrU)).
  { rewrite !blen_app, HhM, HhU. lia. }
  destruct Hu as [[r ->]|(us & -> & Hne & Hwfu & Hnou & Hlast)].
  - apply (newMoovData_no_meta pre suf bs1 (alloc 4 ++ r) moov_rest kaidAtomData []);
      try assumption; [discriminate| |reflexivity].
    fold moovPayload fileBuffer. rewrite Hflat, Hoff, <- (app_assoc (alloc 4) r).
    apply parse_zero_word.
  - destruct (find_no_child fileBuffer (pre ++ hdrM ++ ser_boxes bs1 ++ hdrU)
                (moov_rest ++ suf) us "meta"
                (blen pre + 8 + blen (ser_boxes bs1) + 8) (blen (ser_boxes us)))
      as (udtaChildren & Hparse & Hfind); try assumption; try reflexivity.
    apply (newMoovData_no_meta pre suf bs1 (ser_boxes us) moov_rest kaidAtomData
             udtaChildren); try assumption.
    intros E. pose proof (blen_ser_boxes_pos us Hwfu Hne) as Hpos.
    rewrite E in Hpos. change (blen []) with 0 in Hpos. lia.
Qed.

Lemma newMoovData_appends_to_udta_witness :
  newMoovData_of
    (tag "junk"
     ++ box "moov" (ser_boxes [("mvhd"%string, alloc 100)]
                    ++ box "udta" (alloc 4 ++ drop 4 (meta_payload_of sample_old_item))
                    ++ [])
     ++ tag "rest")
    (Atom (tag "moov") (blen (tag "junk"))
       (8 + blen (ser_boxes [("mvhd"%string, alloc 100)]
                  ++ box "udta" (alloc 4 ++ drop 4 (meta_payload_of sample_old_item))
                  ++ []))
       (blen (tag "junk") + 8))
    sample_kaid_item
  = Ok (ser_boxes [("mvhd"%string, alloc 100)]
        ++ box "udta" ((alloc 4 ++ drop 4 (meta_payload_of sample_old_item))
                       ++ meta_payload_of sample_kaid_item)
        ++ []).
Proof.
  apply (newMoovData_appends_to_udta (tag "junk") (tag "rest")
           [("mvhd"%string, alloc 100)]
           (alloc 4 ++ drop 4 (meta_payload_of sample_old_item)) [] sample_kaid_item).
  - repeat constructor. vm_compute. discriminate.
  - repeat constructor. discriminate.
  - left. by eexists.
  - vm_compute. discriminate.
  - vm_compute. discriminate.
  - vm_compute. discriminate.
Defined.

(** X21.  For a udta box with a meta child, the new moov payload is the old
    one with the payload of the first meta box replaced by what
    updateMetaWithKaid returns: the boxes before and the bytes after meta in
    udta, and the boxes before and the bytes after udta in moov, are copied
    unchanged, and meta and udta get the headers of their new sizes. *)
Theorem newMoovData_rewraps_meta (pre suf : Buffer) (bs1 us1 : list (string * Buffer))
    (metaPayload udta_rest moov_rest kaidAtomData newMetaData : Buffer) :
  let udtaPayload := ser_boxes us1 ++ box "meta" metaPayload ++ udta_rest in
  let moovPayload := ser_boxes bs1 ++ box "udta" udtaPayload ++ moov_rest in
  let fileBuffer := pre ++ box "moov" moovPayload ++ suf in
  let moovAtom := Atom (tag "moov") (blen pre) (8 + blen moovPayload) (blen pre + 8) in
  let metaOff := blen pre + 8 + blen (ser_boxes bs1) + 8 + blen (ser_boxes us1) in
  let metaAtom := Atom (tag "meta") metaOff (8 + blen metaPayload) (metaOff + 8) in
  Forall wf_box bs1 -> Forall (fun b => tag (fst b) <> tag "udta") bs1 ->
  Forall wf_box us1 -> Forall (fun b => tag (fst b) <> tag "meta") us1 ->
  metaPayload <> [] -> 8 + blen metaPayload <= 2 ^ 32 - 1 ->
  8 + blen udtaPayload <= 2 ^ 32 - 1 ->
  updateMetaWithKaid fileBuffer metaAtom kaidAtomData = Ok newMetaData ->
  8 + blen newMetaData <= 2 ^ 32 - 1 ->
  8 + blen (ser_boxes us1 ++ box "meta" newMetaData ++ udta_rest) <= 2 ^ 32 - 1 ->
  newMoovData_of fileBuffer moovAtom kaidAtomData
  = Ok (ser_boxes bs1
        ++ box "udta" (ser_boxes us1 ++ box "meta" newMetaData ++ udta_rest)
        ++ moov_rest).
Proof.
  intros udtaPayload moovPayload fileBuffer moovAtom metaOff metaAtom
    Hwf Hno Hwfu Hnou Hmne Hmsz Husz Hupd Hnsz Hnusz.
  pose proof (blen_nonneg pre). pose proof (blen_nonneg suf).
  pose proof (blen_nonneg moov_rest). pose proof (blen_nonneg (ser_boxes bs1)).
  pose proof (blen_nonneg udta_rest). pose proof (blen_nonneg (ser_boxes us1)).
  pose proof (blen_nonneg metaPayload).
  assert (Hup : blen udtaPayload
                = blen (ser_boxes us1) + (8 + blen metaPayload) + blen udta_rest).
  { unfold udtaPayload. rewrite !blen_app, blen_box by reflexivity. lia. }
  assert (Hune : udtaPayload <> []).
  { intros E. rewrite E in Hup. change (blen []) with 0 in Hup. lia. }
  destruct (find_udta pre suf bs1 udtaPayload moov_rest Hwf Hno Hune Husz)
    as (moovChildren & Hmc & Hfu).
  fold moovPayload fileBuffer in Hmc.
  set (hdrM := be_bytes 4 (8 + blen moovPayload) ++ tag "moov") in *.
  set (hdrU := be_bytes 4 (8 + blen udtaPayload) ++ tag "udta") in *.
  set (hdrT := be_bytes 4 (8 + blen metaPayload) ++ tag "meta") in *.
  assert (HhM : blen hdrM = 8) by (unfold hdrM; by rewrite blen_app, blen_be_bytes).
  assert (HhU : blen hdrU = 8) by (unfold hdrU; by rewrite blen_app, blen_be_bytes).
  assert (HhT : blen hdrT = 8) by (unfold hdrT; by rewrite blen_app, blen_be_bytes).
  assert (Hflat : fileBuffer
                  = pre ++ hdrM ++ ser_boxes bs1 ++ hdrU ++ ser_boxes us1 ++ hdrT
                    ++ metaPayload ++ udta_rest ++ moov_rest ++ suf).
  { assert (Hf : fileBuffer
                 = pre ++ hdrM ++ ser_boxes bs1 ++ hdrU ++ udtaPayload
                   ++ moov_rest ++ suf) by apply moov_flat.
    rewrite Hf. unfold udtaPayload. rewrite (box_hdr "meta"). fold hdrT.
    by rewrite <- !app_assoc. }
  assert (Hmp : blen moovPayload
                = blen (ser_boxes bs1) + (8 + blen udtaPayload) + blen moov_rest).
  { unfold moovPayload. rewrite !blen_app, blen_box by reflexivity. lia. }
  unfold newMoovData_of. cbn [dataOffset size offset moovAtom].
  rewrite Hmc. cbn [mbind result_bind]. rewrite Hfu. cbn [dataOffset size offset].
  set (udtaOff := blen pre + 8 + blen (ser_boxes bs1)) in *.
  destruct (find_child fileBuffer (pre ++ hdrM ++ ser_boxes bs1 ++ hdrU)
              (udta_rest ++ moov_rest ++ suf) us1 "meta" metaPayload
              (udtaOff + 8) (8 + blen udtaPayload - 8))
    as (udtaChildren & -> & Hfm).
  { rewrite Hflat, (box_hdr "meta"). fold hdrT. by rewrite <- !app_assoc. }
  { rewrite !blen_app, HhM, HhU. unfold udtaOff. lia. }
  { lia. }
  { rewrite Hflat, !blen_app, HhM, HhU, HhT. unfold udtaOff. lia. }
  { assumption. }
  { assumption. }
  { by split. }
  { assumption. }
  cbn [mbind result_bind]. rewrite Hfm.
  replace (udtaOff + 8 + blen (ser_boxes us1)) with metaOff
    by (unfold metaOff, udtaOff; lia).
  fold metaAtom. rewrite Hupd. cbn [mbind result_bind].
  rewrite (createAtom_box "meta") by (reflexivity || assumption).
  cbn [mbind result_bind dataOffset size offset metaAtom].
  rewrite (slice_segment fileBuffer (pre ++ hdrM ++ ser_boxes bs1 ++ hdrU)
             (ser_boxes us1) (hdrT ++ metaPayload ++ udta_rest ++ moov_rest ++ suf)
             (udtaOff + 8) metaOff);
    [|rewrite Hflat; by rewrite <- !app_assoc
     |rewrite !blen_app, HhM, HhU; unfold udtaOff; lia
     |rewrite !blen_app, HhM, HhU; unfold metaOff; lia].
  rewrite (slice_segment fileBuffer
             (pre ++ hdrM ++ ser_boxes bs1 ++ hdrU ++ ser_boxes us1 ++ hdrT
              ++ metaPayload)
             udta_rest (moov_rest ++ suf)
             (metaOff + (8 + blen metaPayload)) (udtaOff + (8 + blen udtaPayload)));
    [|rewrite Hflat; by rewrite <- !app_assoc
     |rewrite !blen_app, HhM, HhU, HhT; unfold metaOff; lia
     |rewrite !blen_app, HhM, HhU, HhT; unfold udtaOff; lia].
  rewrite (createAtom_box "udta") by (reflexivity || assumption).
  cbn [mbind result_bind].
  rewrite (slice_segment fileBuffer (pre ++ hdrM) (ser_boxes bs1)
             (hdrU ++ ser_boxes us1 ++ hdrT ++ metaPayload ++ udta_rest
              ++ moov_rest ++ suf)
             (blen pre + 8) udtaOff);
    [|rewrite Hflat; by rewrite <- !app_assoc
     |rewrite !blen_app, HhM; lia
     |rewrite !blen_app, HhM; unfold udtaOff; lia].
  rewrite (slice_segment fileBuffer
             (pre ++ hdrM ++ ser_boxes bs1 ++ hdrU ++ ser_boxes us1 ++ hdrT
              ++ metaPayload ++ udta_rest)
             moov_rest suf (udtaOff + (8 + blen udtaPayload))
             (blen pre + (8 + blen moovPayload)));
    [|rewrite Hflat; by rewrite <- !app_assoc
     |rewrite !blen_app, HhM, HhU, HhT; unfold udtaOff; lia
     |rewrite !blen_app, HhM, HhU, HhT; unfold udtaOff; lia].
  reflexivity.
Qed.

Lemma newMoovData_rewraps_meta_witness :
  newMoovData_of
    (tag "junk"
     ++ box "moov" (ser_boxes [("mvhd"%string, alloc 100)]
                    ++ box "udta" (ser_boxes [("name"%string, tag "song")]
                                   ++ box "meta" sample_meta_payload ++ tag "more")
                    ++ [])
     ++ tag "rest")
    (Atom (tag "moov") (blen (tag "junk"))
       (8 + blen (ser_boxes [("mvhd"%string, alloc 100)]
                  ++ box "udta" (ser_boxes [("name"%string, tag "song")]
                                 ++ box "meta" sample_meta_payload ++ tag "more")
                  ++ []))
       (blen (tag "junk") + 8))
    sample_kaid_item
  = Ok (ser_boxes [("mvhd"%string, alloc 100)]
        ++ box "udta" (ser_boxes [("name"%string, tag "song")]
                       ++ box "meta" sample_new_meta_payload ++ tag "more")
        ++ []).
Proof.
  apply (newMoovData_rewraps_meta (tag "junk") (tag "rest")
           [("mvhd"%string, alloc 100)] [("name"%string, tag "song")]
           sample_meta_payload (tag "more") [] sample_kaid_item
           sample_new_meta_payload).
  - repeat constructor. vm_compute. discriminate.
  - repeat constructor. discriminate.
  - repeat constructor. vm_compute. discriminate.
  - repeat constructor. discriminate.
  - discriminate.
  - vm_compute. discriminate.
  - vm_compute. discriminate.
  - vm_compute. reflexivity.
  - vm_compute. discriminate.
  - vm_compute. discriminate.
Defined.

(** ** The whole file *)

Lemma find_top (suf : Buffer) (bs : list (string * Buffer)) (t : string) (d : Buffer) :
  Forall wf_box bs -> Forall (fun b => tag (fst b) <> tag t) bs ->
  wf_box (t, d) -> d <> [] ->
  exists atoms,
    parseMP4Atoms (ser_boxes bs ++ box t d ++ suf) 0 None = Ok atoms /\
    find_type t atoms
    = Some (Atom (tag t) (blen (ser_boxes bs)) (8 + blen d) (blen (ser_boxes bs) + 8)).
Proof.
  intros Hwf Hno Hb Hd.
  pose proof (blen_nonneg suf).
  destruct (parseMP4Atoms_boxes (bs ++ [(t, d)]) [] suf None) as (more & Hr & _).
  - apply Forall_app. split; [assumption|by constructor].
  - left. by apply last_snoc_payload.
  - cbn [parse_end app]. rewrite blen_app. change (blen []) with 0. lia.
  - cbn [parse_end]. lia.
  - cbn [app] in Hr. change (blen []) with 0 in Hr.
    rewrite ser_boxes_snoc, <- app_assoc in Hr.
    eexists. split; [exact Hr|].
    rewrite (find_type_first t bs [] d 0 more Hwf Hno). f_equal.
Qed.

Lemma shift_zero (shiftThreshold : Z) (es : list Z) :
  map (shift 0 shiftThreshold) es = es.
Proof.
  induction es as [|o es IH]; [reflexivity|]. cbn [map]. rewrite IH.
  unfold shift. destruct (_ <=? _); f_equal; lia.
Qed.

Lemma shift_box_zero (shiftThreshold : Z) (m : mbox) : shift_box 0 shiftThreshold m = m.
Proof.
  induction m as [t p|t cs IH|f es|f es] using mbox_ind'; cbn [shift_box].
  - reflexivity.
  - f_equal. induction IH as [|c cs Hc _ IHcs]; [reflexivity|].
    cbn [map]. by rewrite Hc, IHcs.
  - by rewrite shift_zero.
  - by rewrite shift_zero.
Qed.

Lemma updateChunkOffsets_buf (sizeDelta shiftThreshold : Z) (m : mbox) :
  rewritable sizeDelta shiftThreshold m ->
  buf (updateChunkOffsets (ser m) sizeDelta shiftThreshold)
  = ser (shift_box sizeDelta shiftThreshold m).
Proof.
  intros Hm.
  pose proof (updateChunkOffsets_run (ser m) sizeDelta shiftThreshold) as Hrun.
  assert (Hs : ser m = ser_list [m]) by (unfold ser_list; cbn; by rewrite app_nil_r).
  rewrite Hs in Hrun at 1 3.
  change 0 with (blen []) in Hrun at 5.
  replace (blen (ser m)) with (blen [] + blen (ser_list [m])) in Hrun
    by (rewrite <- Hs; reflexivity).
  apply (search_boxes sizeDelta shiftThreshold _ [m] [] []) in Hrun.
  - rewrite Hrun. cbn [buf map app]. unfold ser_list. cbn [map concat].
    by rewrite !app_nil_r.
  - by constructor.
  - cbn [buf app]. by rewrite app_nil_r.
Qed.



(** ** An empty ilst box *)

Lemma slice_empty (buffer : Buffer) (s e : Z) :
  0 <= e <= s -> s <= blen buffer -> slice buffer s (Some e) = [].
Proof.
  intros He Hs. unfold slice. rewrite !adjustOffset_inside by lia.
  destruct (Z.ltb_spec s e); [lia|]. reflexivity.
Qed.

(** As [find_child], for a child that may be empty but is not the last
    thing in the range. *)
Lemma find_child_inner (fileBuffer pre suf : Buffer) (bs : list (string * Buffer))
    (t : string) (d : Buffer) (off len : Z) :
  fileBuffer = pre ++ (ser_boxes bs ++ box t d) ++ suf ->
  off = blen pre -> blen (ser_boxes bs) + (8 + blen d) < len ->
  off + len <= blen fileBuffer ->
  Forall wf_box bs -> Forall (fun b => tag (fst b) <> tag t) bs ->
  wf_box (t, d) ->
  exists atoms,
    parseMP4Atoms fileBuffer off (Some len) = Ok atoms /\
    find_type t atoms
    = Some (Atom (tag t) (off + blen (ser_boxes bs)) (8 + blen d)
              (off + blen (ser_boxes bs) + 8)).
Proof.
  intros -> -> Hlen Hend Hwf Hno Hb.
  pose proof (blen_nonneg (ser_boxes bs)). pose proof (blen_nonneg d).
  rewrite <- ser_boxes_snoc in *.
  assert (Hbl : blen (ser_boxes (bs ++ [(t, d)])) = blen (ser_boxes bs) + (8 + blen d)).
  { rewrite ser_boxes_snoc, blen_app, blen_box; [reflexivity|apply Hb]. }
  assert (Hpe : parse_end (pre ++ ser_boxes (bs ++ [(t, d)]) ++ suf) (blen pre) (Some len)
                = blen pre + len).
  { cbn [parse_end]. destruct (Z.eqb_spec len 0); [lia|reflexivity]. }
  destruct (parseMP4Atoms_boxes (bs ++ [(t, d)]) pre suf (Some len))
    as (more & Hr & _).
  - apply Forall_app. split; [assumption|by constructor].
  - right. rewrite Hpe, Hbl. lia.
  - rewrite Hpe, Hbl. lia.
  - rewrite Hpe. assumption.
  - eexists. split; [exact Hr|]. by apply find_type_first.
Qed.

(** X23.  For an empty ilst box the length handed to parseMP4Atoms is 0,
    which the parser takes as no limit, so the search for an existing item
    runs over the boxes that follow ilst.  When a '----' box is found there,
    the boxes between ilst and it are copied into the new ilst in front of
    the kaid atom; they, the '----' box and all bytes after it also stay
    where they were, behind the new ilst. *)
Theorem updateMetaWithKaid_empty_ilst (pre suf flags : Buffer)
    (kids1 mid : list (string * Buffer)) (x kids_rest kaidAtomData : Buffer) :
  let following := ser_boxes mid ++ box "----" x ++ kids_rest in
  let metaPayload := flags ++ ser_boxes kids1 ++ box "ilst" [] ++ following in
  let fileBuffer := pre ++ box "meta" metaPayload ++ suf in
  let metaAtom := Atom (tag "meta") (blen pre) (8 + blen metaPayload) (blen pre + 8) in
  length flags = 4%nat ->
  Forall wf_box kids1 -> Forall (fun b => tag (fst b) <> tag "ilst") kids1 ->
  Forall wf_box mid -> Forall (fun b => tag (fst b) <> tag "----") mid ->
  x <> [] -> 8 + blen x <= 2 ^ 32 - 1 ->
  8 + blen (ser_boxes mid ++ kaidAtomData) <= 2 ^ 32 - 1 ->
  updateMetaWithKaid fileBuffer metaAtom kaidAtomData
  = Ok (flags ++ ser_boxes kids1 ++ box "ilst" (ser_boxes mid ++ kaidAtomData)
        ++ following).
Proof.
  intros following metaPayload fileBuffer metaAtom Hf Hk1 Hk1no Hmid Hmidno Hx Hxsz
    Hnew.
  pose proof (blen_nonneg pre) as Hp0. pose proof (blen_nonneg suf) as Hs0.
  pose proof (blen_nonneg (ser_boxes kids1)) as Hk0.
  pose proof (blen_nonneg (ser_boxes mid)) as Hm0.
  pose proof (blen_nonneg x) as Hx0. pose proof (blen_nonneg kids_rest) as Hkr0.
  pose proof (blen_nonneg kaidAtomData) as Hka0.
  rewrite blen_app in Hnew.
  assert (Hfl : blen flags = 4) by (unfold blen; lia).
  assert (Hfo : blen following = blen (ser_boxes mid) + (8 + blen x) + blen kids_rest).
  { unfold following. rewrite !blen_app, blen_box by reflexivity. lia. }
  assert (Hmp : blen metaPayload = 4 + blen (ser_boxes kids1) + 8 + blen following).
  { unfold metaPayload. rewrite !blen_app, blen_box, Hfl by reflexivity.
    change (blen []) with 0. lia. }
  set (hdrM := be_bytes 4 (8 + blen metaPayload) ++ tag "meta").
  set (hdrI := be_bytes 4 (8 + blen (@nil byte)) ++ tag "ilst").
  assert (HhM : blen hdrM = 8) by (unfold hdrM; by rewrite blen_app, blen_be_bytes).
  assert (HhI : blen hdrI = 8) by reflexivity.
  assert (Hflat : fileBuffer
                  = pre ++ hdrM ++ flags ++ ser_boxes kids1 ++ hdrI
                    ++ ser_boxes mid ++ box "----" x ++ kids_rest ++ suf).
  { unfold fileBuffer. rewrite (box_hdr "meta"). fold hdrM. unfold metaPayload.
    rewrite (box_hdr "ilst"). fold hdrI. unfold following.
    by rewrite app_nil_r, <- !app_assoc. }
  assert (Hfb : blen fileBuffer = blen pre + (8 + blen metaPayload) + blen suf).
  { unfold fileBuffer. rewrite !blen_app, blen_box by reflexivity. lia. }
  unfold updateMetaWithKaid. cbn [dataOffset size offset metaAtom].
  destruct (find_child_inner fileBuffer (pre ++ hdrM ++ flags)
              (following ++ suf) kids1 "ilst" [] (blen pre + 8 + 4)
              (8 + blen metaPayload - 12))
    as (metaChildren & -> & Hfind).
  { rewrite Hflat, (box_hdr "ilst"). fold hdrI. unfold following.
    by rewrite app_nil_r, <- !app_assoc. }
  { rewrite !blen_app, HhM, Hfl. lia. }
  { change (blen []) with 0. lia. }
  { lia. }
  { assumption. }
  { assumption. }
  { split; [reflexivity|]. cbn [snd]. change (blen []) with 0. lia. }
  cbn [mbind result_bind]. rewrite Hfind. cbn [dataOffset size offset].
  set (ilstOff := blen pre + 8 + 4 + blen (ser_boxes kids1)) in *.
  change (8 + blen (@nil byte) - 8) with 0.
  set (head := pre ++ hdrM ++ flags ++ ser_boxes kids1 ++ hdrI).
  assert (Hhead : blen head = ilstOff + 8).
  { unfold head. rewrite !blen_app, HhM, HhI, Hfl. unfold ilstOff. lia. }
  assert (Hflat2 : fileBuffer
                   = head ++ ser_boxes (mid ++ [("----"%string, x)]) ++ kids_rest ++ suf).
  { rewrite Hflat, ser_boxes_snoc. unfold head. by rewrite <- !app_assoc. }
  destruct (parseMP4Atoms_boxes (mid ++ [("----"%string, x)]) head (kids_rest ++ suf)
              (Some 0)) as (more & Hr & _).
  { apply Forall_app. split; [assumption|]. constructor; [|constructor].
    by split. }
  { left. by apply last_snoc_payload. }
  { cbn [parse_end Z.eqb]. rewrite !blen_app. lia. }
  { cbn [parse_end Z.eqb]. lia. }
  rewrite <- Hflat2, Hhead in Hr. rewrite Hr. cbn [mbind result_bind].
  rewrite (find_type_first "----" mid [] x (ilstOff + 8) more Hmid Hmidno).
  cbn [dataOffset size offset].
  rewrite (slice_segment fileBuffer head (ser_boxes mid)
             (box "----" x ++ kids_rest ++ suf)
             (ilstOff + 8) (ilstOff + 8 + blen (ser_boxes mid)));
    [|rewrite Hflat; unfold head; by rewrite <- !app_assoc|lia|lia].
  rewrite (slice_empty fileBuffer (ilstOff + 8 + blen (ser_boxes mid) + (8 + blen x))
             (ilstOff + (8 + blen [])))
    by (unfold ilstOff; change (blen (@nil byte)) with 0; lia).
  rewrite app_nil_r.
  rewrite (createAtom_box "ilst") by (reflexivity || (rewrite blen_app; lia)).
  cbn [mbind result_bind].
  rewrite (slice_segment fileBuffer (pre ++ hdrM) (flags ++ ser_boxes kids1)
             (hdrI ++ following ++ suf) (blen pre + 8) ilstOff);
    [|rewrite Hflat; unfold following; by rewrite <- !app_assoc
     |rewrite !blen_app, HhM; lia
     |rewrite !blen_app, HhM, Hfl; unfold ilstOff; lia].
  rewrite (slice_segment fileBuffer head following suf
             (ilstOff + (8 + blen [])) (blen pre + (8 + blen metaPayload)));
    [|rewrite Hflat; unfold head, following; by rewrite <- !app_assoc
     |change (blen (@nil byte)) with 0; lia|lia].
  by rewrite <- !app_assoc.
Qed.

Lemma updateMetaWithKaid_empty_ilst_witness :
  updateMetaWithKaid
    (tag "junk"
     ++ box "meta"
          (alloc 4 ++ ser_boxes sample_meta_kids ++ box "ilst" []
           ++ ser_boxes [("free"%string, alloc 8)] ++ box "----" sample_old_item
           ++ tag "tail")
     ++ tag "rest")
    (Atom (tag "meta") (blen (tag "junk"))
       (8 + blen (alloc 4 ++ ser_boxes sample_meta_kids ++ box "ilst" []
                  ++ ser_boxes [("free"%string, alloc 8)] ++ box "----" sample_old_item
                  ++ tag "tail"))
       (blen (tag "junk") + 8))
    sample_kaid_item
  = Ok (alloc 4 ++ ser_boxes sample_meta_kids
        ++ box "ilst" (ser_boxes [("free"%string, alloc 8)] ++ sample_kaid_item)
        ++ ser_boxes [("free"%string, alloc 8)] ++ box "----" sample_old_item
        ++ tag "tail").
Proof.
  apply (updateMetaWithKaid_empty_ilst (tag "junk") (tag "rest") (alloc 4)
           sample_meta_kids [("free"%string, alloc 8)] sample_old_item (tag "tail")
           sample_kaid_item).
  - reflexivity.
  - repeat constructor. vm_compute. discriminate.
  - repeat constructor. discriminate.
  - repeat constructor. vm_compute. discriminate.
  - repeat constructor. discriminate.
  - discriminate.
  - vm_compute. discriminate.
  - vm_compute. discriminate.
Defined.
